(** * grib-reader.js: a shallow embedding of the GRIB2 reader

    The development follows the class [GribReader]: the DataView getters,
    [readBits], the section parsers, the two decoders, [parseMessage],
    [parse], the level extraction of [getInventory] and [getData], the
    coordinate builder, the wind direction and [bilinearInterpolate];
    then the accessors [getSummary], [getGrid] and
    [getTimeUnitDescription], the loop of [getData] over the messages,
    [calculateWind] and [regridBilinear].

    Conventions.
    - The input [ArrayBuffer] is a [list byte]; offsets and integer fields
      are [Z].
    - A JavaScript exception is [Throw]; a loop of the source that need not
      terminate is run on fuel and reports [OutOfFuel] when the fuel is gone.
    - JavaScript Numbers are kept abstract behind the class [JSNumber]; the
      instance [IEEE] is binary64 with float32 stores, built on the
      standard library's [SpecFloat]; the instance [Exact] computes
      with rationals and no rounding. *)

From Stdlib Require Import ZArith Lia Bool.
From Stdlib Require Import Strings.Byte.
From Stdlib Require Import Floats.SpecFloat.
From Stdlib Require Import QArith Qcanon Qround Qpower.
From stdpp Require Import base option list numbers strings pretty.

Local Open Scope Z_scope.

(** ** Outcomes of a call *)

Inductive error :=
| RangeError                      (* DataView / typed-array bounds *)
| OutOfBounds                     (* thrown by readBits *)
| InvalidSignature                (* 'Invalid GRIB file: signature not found' *)
| ExpectedSection1                (* 'Expected section 1' *)
| UnknownSection (n off : Z)      (* 'Unknown section number: n at offset off' *)
| InvalidEndSection.              (* 'Invalid end section' *)

Inductive outcome (A : Type) :=
| Ok (a : A)
| Throw (e : error)
| OutOfFuel.
Arguments Ok {A} a.
Arguments Throw {A} e.
Arguments OutOfFuel {A}.

#[global] Instance outcome_ret : MRet outcome := fun A a => Ok a.
#[global] Instance outcome_bind : MBind outcome := fun A B f m =>
  match m with
  | Ok a => f a
  | Throw e => Throw e
  | OutOfFuel => OutOfFuel
  end.

(** ** JavaScript Numbers *)

Class JSNumber (num : Type) := {
  ofZ : Z -> num;                       (* an integer as a Number *)
  ofFloat32Bits : Z -> num;             (* the float32 with this bit pattern *)
  NaN : num;
  Infinity : num;
  nadd : num -> num -> num;
  nsub : num -> num -> num;
  nmul : num -> num -> num;
  ndiv : num -> num -> num;
  nneg : num -> num;
  nlt : num -> num -> bool;             (* a < b *)
  nle : num -> num -> bool;             (* a <= b *)
  Math_min : num -> num -> num;
  Math_max : num -> num -> num;
  Math_floor : num -> num;
  Math_pow : Z -> Z -> num;             (* Math.pow at integer arguments *)
  toFloat32 : num -> num;               (* store into a Float32Array element *)
  toIndex : num -> option Z             (* the Number as an array index *)
}.

(** ** Integers of the typed arrays and of the bitwise operators *)

Definition ToInt32 (z : Z) : Z := (z + 2 ^ 31) mod 2 ^ 32 - 2 ^ 31.
Definition ToUint32 (z : Z) : Z := z mod 2 ^ 32.
Definition ToUint8 (z : Z) : Z := z mod 2 ^ 8.

(** [a << k], [a >> k], [a & b], [a | b]: operands go through ToInt32, the
    shift count is taken modulo 32, the result is an int32. *)
Definition js_shl (a k : Z) : Z := ToInt32 (Z.shiftl (ToInt32 a) (k mod 32)).
Definition js_shr (a k : Z) : Z := Z.shiftr (ToInt32 a) (k mod 32).
Definition js_and (a b : Z) : Z := Z.land (ToInt32 a) (ToInt32 b).
Definition js_or (a b : Z) : Z := Z.lor (ToInt32 a) (ToInt32 b).

(** ** The buffer and its DataView *)

Definition byteZ (b : byte) : Z := Z.of_N (Byte.to_N b).

Definition bytesOf (l : list Z) : list byte :=
  map (fun z => default x00 (Byte.of_N (Z.to_N z))) l.

Definition byteLength (view : list byte) : Z := Z.of_nat (length view).

Definition getUint8 (view : list byte) (off : Z) : outcome Z :=
  if off <? 0 then Throw RangeError
  else match view !! Z.to_nat off with
       | Some b => Ok (byteZ b)
       | None => Throw RangeError
       end.

Definition getUint16 (view : list byte) (off : Z) : outcome Z :=
  b0 ← getUint8 view off;
  b1 ← getUint8 view (off + 1);
  Ok (b0 * 2 ^ 8 + b1).

Definition getUint32 (view : list byte) (off : Z) : outcome Z :=
  b0 ← getUint8 view off;
  b1 ← getUint8 view (off + 1);
  b2 ← getUint8 view (off + 2);
  b3 ← getUint8 view (off + 3);
  Ok (b0 * 2 ^ 24 + b1 * 2 ^ 16 + b2 * 2 ^ 8 + b3).

Definition getInt16 (view : list byte) (off : Z) : outcome Z :=
  u ← getUint16 view off;
  Ok (if u <? 2 ^ 15 then u else u - 2 ^ 16).

Definition getInt32 (view : list byte) (off : Z) : outcome Z :=
  u ← getUint32 view off;
  Ok (if u <? 2 ^ 31 then u else u - 2 ^ 32).

(** [new Uint8Array(buffer, off, len)]: a view of [len] bytes at [off]. *)
Definition subarray (view : list byte) (off len : Z) : outcome (list byte) :=
  if (len <? 0) || (off <? 0) || (byteLength view <? off + len) then Throw RangeError
  else Ok (take (Z.to_nat len) (drop (Z.to_nat off) view)).

(** [String.fromCharCode(b0, b1, b2, b3) === s] for a four-letter ASCII [s]. *)
Definition fourBytes (view : list byte) (off : Z) : outcome (list Z) :=
  b0 ← getUint8 view off;
  b1 ← getUint8 view (off + 1);
  b2 ← getUint8 view (off + 2);
  b3 ← getUint8 view (off + 3);
  Ok [b0; b1; b2; b3].

Definition GRIB : list Z := [71; 82; 73; 66].
Definition s7777 : list Z := [55; 55; 55; 55].

Definition eqFour (a b : list Z) : bool := bool_decide (a = b).

(** ** readBits *)

Fixpoint readBits_loop (fuel : nat) (view : list byte)
    (byteOffset bitShift numberOfBits value bitsRead : Z) : outcome Z :=
  if bitsRead <? numberOfBits then
    match fuel with
    | O => OutOfFuel
    | S fuel' =>
        let currentByteOffset := byteOffset + (bitShift + bitsRead) / 8 in
        let currentBitShift := Z.rem (bitShift + bitsRead) 8 in
        byte ← getUint8 view currentByteOffset;
        let bitsAvailable := 8 - currentBitShift in
        let bitsToRead := Z.min (numberOfBits - bitsRead) bitsAvailable in
        let mask := js_shl 1 bitsToRead - 1 in
        let shift := bitsAvailable - bitsToRead in
        readBits_loop fuel' view byteOffset bitShift numberOfBits
          (js_or (js_shl value bitsToRead) (js_and (js_shr byte shift) mask))
          (bitsRead + bitsToRead)
    end
  else Ok value.

(** The loop reads at least one bit per turn, so [numberOfBits] turns are
    enough (lemma [readBits_loop_fuel]). *)
Definition readBits (view : list byte) (bitOffset numberOfBits : Z) : outcome Z :=
  let byteOffset := bitOffset / 8 in
  let bitShift := Z.rem bitOffset 8 in
  let lastByteNeeded := (bitOffset + numberOfBits - 1) / 8 in
  if byteLength view <=? lastByteNeeded then Throw OutOfBounds
  else readBits_loop (Z.to_nat numberOfBits) view byteOffset bitShift numberOfBits 0 0.

(** The Number nearest to an integer [z] that is not negative: [z] itself
    when it has at most 53 bits, else [z] rounded to 53 significant bits,
    ties to even. *)
Definition roundToNumber (z : Z) : Z :=
  let k := Z.log2 z - 52 in
  if k <=? 0 then z
  else
    let q := z / 2 ^ k in
    let r := z mod 2 ^ k in
    let half := 2 ^ (k - 1) in
    let q' := if r <? half then q
              else if half <? r then q + 1
              else if Z.even q then q else q + 1 in
    q' * 2 ^ k.

(** [high * 0x100000000 + low]: the product is exact in a Number, the sum
    is rounded to one. *)
Definition readUint64 (view : list byte) (off : Z) : outcome Z :=
  high ← getUint32 view off;
  low ← getUint32 view (off + 4);
  Ok (roundToNumber (high * 2 ^ 32 + low)).

(** ** Section records *)

Section Reader.
Context {num : Type} `{JSNumber num}.

Record Section0 := {
  discipline0 : Z;
  edition0 : Z;
  totalLength0 : Z
}.

Record Section1 := {
  length1 : Z;
  centreId : Z;
  subCentreId : Z;
  masterTableVersion : Z;
  localTableVersion : Z;
  significanceOfReferenceTime : Z;
  year : Z;
  month : Z;
  day : Z;
  hour : Z;
  minute : Z;
  second : Z;
  productionStatus : Z;
  typeOfData : Z
}.

Record Section2 := {
  length2 : Z;
  localData : list byte
}.

Record GridTemplate0 := {
  shapeOfEarth : Z;
  scaleFactorOfRadiusOfSphericalEarth : Z;
  scaledValueOfRadiusOfSphericalEarth : Z;
  scaleFactorOfEarthMajorAxis : Z;
  scaledValueOfEarthMajorAxis : Z;
  scaleFactorOfEarthMinorAxis : Z;
  scaledValueOfEarthMinorAxis : Z;
  ni : Z;
  nj : Z;
  basicAngleOfInitialProductionDomain : Z;
  subdivisionsOfBasicAngle : Z;
  latitudeOfFirstGridPoint : num;
  longitudeOfFirstGridPoint : num;
  resolutionAndComponentFlags : Z;
  latitudeOfLastGridPoint : num;
  longitudeOfLastGridPoint : num;
  latitudeOfLastGridPointFromFile : num;
  longitudeOfLastGridPointFromFile : num;
  iDirectionIncrement : num;
  jDirectionIncrement : num;
  scanningMode : Z
}.

Record Section3 := {
  length3 : Z;
  source : Z;
  numberOfDataPoints3 : Z;
  numberOfOctetsForOptional : Z;
  interpretationOfOptional : Z;
  gridDefinitionTemplateNumber : Z;
  gridTemplate : option GridTemplate0       (* absent unless the template is 0 *)
}.

Record Section4 := {
  length4 : Z;
  numberOfCoordinateValues : Z;
  productDefinitionTemplateNumber : Z;
  templateData : list byte
}.

(** The fields every packing template (5.0, 5.2, 5.3) starts with. *)
Record Packing := {
  referenceValue : num;
  binaryScaleFactor : Z;
  decimalScaleFactor : Z;
  numberOfBits : Z;
  typeOfOriginalFieldValues : Z
}.

(** The further fields of templates 5.2 and 5.3.  Template 5.2 sets
    [orderOfSpatialDifferencing] to 0 and has no
    [numberOfOctetsExtraDescriptors] property. *)
Record Groups := {
  groupSplittingMethod : Z;
  missingValueManagement : Z;
  primaryMissingValue : num;
  secondaryMissingValue : num;
  numberOfGroups : Z;
  referenceForGroupWidths : Z;
  numberOfBitsForGroupWidths : Z;
  referenceForGroupLengths : Z;
  lengthIncrementForGroupLengths : Z;
  trueLengthOfLastGroup : Z;
  numberOfBitsForScaledGroupLengths : Z;
  orderOfSpatialDifferencing : Z;
  numberOfOctetsExtraDescriptors : option Z
}.

Inductive Template5 :=
| SimplePacking (p : Packing)
| ComplexPacking (p : Packing) (g : Groups).

Definition packing (t : Template5) : Packing :=
  match t with SimplePacking p => p | ComplexPacking p _ => p end.

Record Section5 := {
  length5 : Z;
  numberOfDataPoints5 : Z;
  dataRepresentationTemplateNumber : Z;
  template : option Template5               (* absent for other templates *)
}.

Record Section6 := {
  length6 : Z;
  bitMapIndicator : Z;
  bitmap : option (list byte)
}.

Record Section7 := {
  length7 : Z;
  data : option (list num);                 (* null when not decoded *)
  rawData : option (list byte)
}.

Record Sections := {
  section1 : Section1;
  section2 : option Section2;
  section3 : option Section3;
  section4 : option Section4;
  section5 : option Section5;
  section6 : option Section6;
  section7 : option Section7
}.

Record Message := {
  discipline : Z;
  edition : Z;
  totalLength : Z;
  sections : Sections
}.

Definition getFloat32 (view : list byte) (off : Z) : outcome num :=
  u ← getUint32 view off;
  Ok (ofFloat32Bits u).

(** ** decodeSimplePacking *)

Fixpoint simpleValues (n : nat) (view : list byte) (bitOffset nbits : Z)
    (R binaryScale decimalScale : num) : outcome (list num) :=
  match n with
  | O => Ok []
  | S n' =>
      packedValue ← readBits view bitOffset nbits;
      rest ← simpleValues n' view (bitOffset + nbits) nbits R binaryScale decimalScale;
      Ok (toFloat32 (nmul (nadd R (nmul (ofZ packedValue) binaryScale)) decimalScale) :: rest)
  end.

Definition decodeSimplePacking (view : list byte) (offset dataLength : Z)
    (t : Packing) (numberOfPoints : Z) : outcome (list num) :=
  if numberOfBits t =? 0 then
    (* new Array(numberOfPoints).fill(template.referenceValue) *)
    Ok (replicate (Z.to_nat numberOfPoints) (referenceValue t))
  else
    let R := referenceValue t in
    let E := binaryScaleFactor t in
    let D := decimalScaleFactor t in
    let decimalScale := Math_pow 10 (- D) in
    let binaryScale := Math_pow 2 E in
    simpleValues (Z.to_nat numberOfPoints) view (offset * 8) (numberOfBits t)
      R binaryScale decimalScale.

(** ** decodeComplexPacking *)

(** Step 1, the body shared by the branches for two and for one extra
    octet: h1, h2 when the order is 2, the sign bit, the magnitude. *)
Definition readDescriptors (view : list byte) (bitPos nbitsd order : Z)
    : outcome (Z * Z * Z * Z) :=
  h1 ← readBits view bitPos nbitsd;
  let bitPos := bitPos + nbitsd in
  '(h2, bitPos) ← (if order =? 2
                   then h2 ← readBits view bitPos nbitsd; Ok (h2, bitPos + nbitsd)
                   else Ok (0, bitPos));
  isign ← readBits view bitPos 1;
  let bitPos := bitPos + 1 in
  minsdMagnitude ← readBits view bitPos (nbitsd - 1);
  let bitPos := bitPos + (nbitsd - 1) in
  let overallMin := if isign =? 1 then - minsdMagnitude else minsdMagnitude in
  Ok (h1, h2, overallMin, bitPos).

(** Step 1: the result is (h1, h2, overallMin, bitOffset). *)
Definition readSpatialHeader (view : list byte) (offset order numExtraOctets : Z)
    : outcome (Z * Z * Z * Z) :=
  if (0 <? order) && (0 <? numExtraOctets) then
    let nbitsd := numExtraOctets * 8 in
    let bitPos := offset * 8 in
    if numExtraOctets =? 2 then readDescriptors view bitPos nbitsd order
    else if numExtraOctets =? 1 then readDescriptors view bitPos nbitsd order
    else Ok (0, 0, 0, bitPos)
  else Ok (0, 0, 0, offset * 8).

Fixpoint readValues (n : nat) (view : list byte) (bitOffset nbits : Z)
    : outcome (list Z) :=
  match n with
  | O => Ok []
  | S n' =>
      v ← readBits view bitOffset nbits;
      rest ← readValues n' view (bitOffset + nbits) nbits;
      Ok (v :: rest)
  end.

(** Steps 2 to 4 read an array of [numberOfGroups] fields of [nbits] bits
    and pad to a byte by the count of bits used; with [nbits = 0] the typed
    array keeps its zeros and the cursor stays. *)
Definition readGroupArray (view : list byte) (numberOfGroups bitOffset nbits : Z)
    : outcome (list Z * Z) :=
  if 0 <? nbits then
    vs ← readValues (Z.to_nat numberOfGroups) view bitOffset nbits;
    let bitOffset := bitOffset + numberOfGroups * nbits in
    let bitsUsed := numberOfGroups * nbits in
    Ok (vs, if negb (Z.rem bitsUsed 8 =? 0) then bitOffset + (8 - Z.rem bitsUsed 8)
            else bitOffset)
  else Ok (replicate (Z.to_nat numberOfGroups) 0, bitOffset).

(** The state of step 5: the Int32Array [ifld], the count [n] of values
    written, the bit cursor. *)
Definition unpackState : Type := list Z * Z * Z.

(** [while (n < numberOfPoints) ifld[n++] = 0]. *)
Definition zeroFill (ifld : list Z) (n numberOfPoints : Z) : list Z :=
  take (Z.to_nat n) ifld ++ replicate (Z.to_nat (numberOfPoints - n)) 0.

(** A group of non-zero width: [k] runs while [k < glen[j]] and
    [n < numberOfPoints]. *)
Fixpoint unpackWide (count : nat) (view : list byte) (gref gwidth maxBitOffset
    numberOfPoints : Z) (st : unpackState) : outcome unpackState :=
  let '(ifld, n, bitOffset) := st in
  match count with
  | O => Ok st
  | S count' =>
      if n <? numberOfPoints then
        if maxBitOffset <? bitOffset + gwidth then
          Ok (zeroFill ifld n numberOfPoints, numberOfPoints, bitOffset)
        else
          packedValue ← readBits view bitOffset gwidth;
          unpackWide count' view gref gwidth maxBitOffset numberOfPoints
            (<[Z.to_nat n := ToInt32 (gref + packedValue)]> ifld, n + 1, bitOffset + gwidth)
      else Ok st
  end.

(** A group of width 0: every value is the group reference. *)
Fixpoint unpackFlat (count : nat) (gref numberOfPoints : Z) (st : unpackState)
    : unpackState :=
  let '(ifld, n, bitOffset) := st in
  match count with
  | O => st
  | S count' =>
      if n <? numberOfPoints then
        unpackFlat count' gref numberOfPoints (<[Z.to_nat n := gref]> ifld, n + 1, bitOffset)
      else st
  end.

(** Step 5 over the groups (gref[j], gwidth[j], glen[j]). *)
Fixpoint unpackGroups (groups : list (Z * Z * Z)) (view : list byte)
    (maxBitOffset numberOfPoints : Z) (st : unpackState) : outcome unpackState :=
  match groups with
  | [] => Ok st
  | (gref, gwidth, glen) :: rest =>
      if negb (gwidth =? 0) then
        st' ← unpackWide (Z.to_nat glen) view gref gwidth maxBitOffset numberOfPoints st;
        if numberOfPoints <=? st'.1.2 then Ok st'
        else unpackGroups rest view maxBitOffset numberOfPoints st'
      else
        unpackGroups rest view maxBitOffset numberOfPoints
          (unpackFlat (Z.to_nat glen) gref numberOfPoints st)
  end.

(** Step 6, one turn of the first-order loop and of the second-order loop.
    Each assignment stores into the Int32Array. *)
Definition undiff1 (overallMin : Z) (ifld : list Z) (n : nat) : list Z :=
  let ifld := <[n := ToInt32 (ifld !!! n + overallMin)]> ifld in
  <[n := ToInt32 (ifld !!! n + ifld !!! (n - 1)%nat)]> ifld.

Definition undiff2 (overallMin : Z) (ifld : list Z) (n : nat) : list Z :=
  let ifld := <[n := ToInt32 (ifld !!! n + overallMin)]> ifld in
  <[n := ToInt32 (ifld !!! n + 2 * ifld !!! (n - 1)%nat - ifld !!! (n - 2)%nat)]> ifld.

Definition reverseSpatialDifferencing (order h1 h2 overallMin numberOfPoints : Z)
    (ifld : list Z) : list Z :=
  if 0 <? order then
    if order =? 1 then
      let ifld := <[0%nat := ToInt32 h1]> ifld in
      foldl (undiff1 overallMin) ifld (seq 1 (Z.to_nat numberOfPoints - 1)%nat)
    else if order =? 2 then
      let ifld := <[0%nat := ToInt32 h1]> ifld in
      let ifld := <[1%nat := ToInt32 h2]> ifld in
      foldl (undiff2 overallMin) ifld (seq 2 (Z.to_nat numberOfPoints - 2)%nat)
    else ifld
  else ifld.

(** Steps 2 to 5: the integer field after group unpacking.  [None] is the
    early return taken when there are no groups. *)
Definition unpackedField (view : list byte) (offset dataLength : Z) (p : Packing)
    (g : Groups) (numberOfPoints bitOffset : Z) : outcome (option (list Z)) :=
  let ifld := replicate (Z.to_nat numberOfPoints) 0 in
  let G := numberOfGroups g in
  let maxBitOffset := (offset + dataLength) * 8 in
  if G =? 0 then Ok None
  else
    '(gref, bitOffset) ← readGroupArray view G bitOffset (numberOfBits p);
    let gref := ToInt32 <$> gref in
    '(gwidth, bitOffset) ← readGroupArray view G bitOffset (numberOfBitsForGroupWidths g);
    let gwidth := ToUint8 <$> gwidth in
    let gwidth := (fun w => ToUint8 (w + referenceForGroupWidths g)) <$> gwidth in
    '(glen, bitOffset) ← readGroupArray view G bitOffset (numberOfBitsForScaledGroupLengths g);
    let glen := ToUint32 <$> glen in
    let glen := (fun l => ToUint32 (l * lengthIncrementForGroupLengths g
                                    + referenceForGroupLengths g)) <$> glen in
    let glen := <[Z.to_nat (G - 1) := ToUint32 (trueLengthOfLastGroup g)]> glen in
    st ← unpackGroups (zip (zip gref gwidth) glen) view maxBitOffset numberOfPoints
           (ifld, 0, bitOffset);
    Ok (Some st.1.1).

(** Steps 1 to 6: the integer field that step 7 scales. *)
Definition integerField (view : list byte) (offset dataLength : Z) (p : Packing)
    (g : Groups) (numberOfPoints : Z) : outcome (option (list Z)) :=
  let orderOfSpatialDiff := orderOfSpatialDifferencing g in
  let numExtraOctets := default 0 (numberOfOctetsExtraDescriptors g) in
  '(h1, h2, overallMin, bitOffset) ←
    readSpatialHeader view offset orderOfSpatialDiff numExtraOctets;
  unpacked ← unpackedField view offset dataLength p g numberOfPoints bitOffset;
  Ok (fmap (M := option)
        (reverseSpatialDifferencing orderOfSpatialDiff h1 h2 overallMin numberOfPoints)
        unpacked).

Definition decodeComplexPacking (view : list byte) (offset dataLength : Z)
    (p : Packing) (g : Groups) (numberOfPoints : Z) : outcome (list num) :=
  let R := referenceValue p in
  let E := binaryScaleFactor p in
  let D := decimalScaleFactor p in
  let decimalScale := Math_pow 10 (- D) in
  let binaryScale := Math_pow 2 E in
  match integerField view offset dataLength p g numberOfPoints with
  | Ok None =>
      (* no groups: data.fill(R * decimalScale) *)
      Ok (replicate (Z.to_nat numberOfPoints) (toFloat32 (nmul R decimalScale)))
  | Ok (Some ifld) =>
      Ok ((fun v => toFloat32 (nmul (nadd R (nmul (ofZ v) binaryScale)) decimalScale))
            <$> ifld)
  | Throw _ =>
      (* catch: an array of zeros *)
      Ok (replicate (Z.to_nat numberOfPoints) (ofZ 0))
  | OutOfFuel => OutOfFuel
  end.

(** ** The section parsers

    Each parser takes [this.offset] and returns the section with the new
    value of [this.offset]. *)

(** [None] is the [null] returned when fewer than 16 bytes are left. *)
Definition parseSection0 (view : list byte) (offset : Z)
    : outcome (option Section0 * Z) :=
  if byteLength view <? offset + 16 then Ok (None, offset)
  else
    signature ← fourBytes view offset;
    if negb (eqFour signature GRIB) then Throw InvalidSignature
    else
      discipline ← getUint8 view (offset + 6);
      edition ← getUint8 view (offset + 7);
      totalLength ← readUint64 view (offset + 8);
      Ok (Some {| discipline0 := discipline; edition0 := edition;
                  totalLength0 := totalLength |}, offset + 16).

Definition parseSection1 (view : list byte) (offset : Z) : outcome (Section1 * Z) :=
  length ← getUint32 view offset;
  sectionNumber ← getUint8 view (offset + 4);
  if negb (sectionNumber =? 1) then Throw ExpectedSection1
  else
    centreId ← getUint16 view (offset + 5);
    subCentreId ← getUint16 view (offset + 7);
    masterTableVersion ← getUint8 view (offset + 9);
    localTableVersion ← getUint8 view (offset + 10);
    significanceOfReferenceTime ← getUint8 view (offset + 11);
    year ← getUint16 view (offset + 12);
    month ← getUint8 view (offset + 14);
    day ← getUint8 view (offset + 15);
    hour ← getUint8 view (offset + 16);
    minute ← getUint8 view (offset + 17);
    second ← getUint8 view (offset + 18);
    productionStatus ← getUint8 view (offset + 19);
    typeOfData ← getUint8 view (offset + 20);
    Ok ({| length1 := length; centreId := centreId; subCentreId := subCentreId;
           masterTableVersion := masterTableVersion;
           localTableVersion := localTableVersion;
           significanceOfReferenceTime := significanceOfReferenceTime;
           year := year; month := month; day := day; hour := hour;
           minute := minute; second := second;
           productionStatus := productionStatus; typeOfData := typeOfData |},
        offset + length).

Definition parseSection2 (view : list byte) (offset : Z) : outcome (Section2 * Z) :=
  length ← getUint32 view offset;
  sectionNumber ← getUint8 view (offset + 4);
  localData ← subarray view (offset + 5) (length - 5);
  Ok ({| length2 := length; localData := localData |}, offset + length).

Definition parseGridTemplate0 (view : list byte) (offset : Z) : outcome GridTemplate0 :=
  ni ← getUint32 view (offset + 16);
  nj ← getUint32 view (offset + 20);
  latFirstRaw ← getInt32 view (offset + 32);
  let latFirst := ndiv (ofZ latFirstRaw) (ofZ 1000000) in
  lonFirstRaw ← getInt32 view (offset + 36);
  let lonFirst := ndiv (ofZ lonFirstRaw) (ofZ 1000000) in
  iIncrementRaw ← getUint32 view (offset + 49);
  let iIncrement := ndiv (ofZ iIncrementRaw) (ofZ 1000000) in
  jIncrementRaw ← getUint32 view (offset + 53);
  let jIncrement := ndiv (ofZ jIncrementRaw) (ofZ 1000000) in
  scanningMode ← getUint8 view (offset + 57);
  latLastRaw ← getInt32 view (offset + 41);
  let latLastFromFile := ndiv (ofZ latLastRaw) (ofZ 1000000) in
  lonLastRaw ← getInt32 view (offset + 45);
  let lonLastFromFile := ndiv (ofZ lonLastRaw) (ofZ 1000000) in
  let iScansPositively := js_and scanningMode 128 =? 0 in
  let jScansPositively := negb (js_and scanningMode 64 =? 0) in
  let lonLast := nadd lonFirst (nmul (nmul (nsub (ofZ ni) (ofZ 1)) iIncrement)
                                     (ofZ (if iScansPositively then 1 else -1))) in
  let latLast := nadd latFirst (nmul (nmul (nsub (ofZ nj) (ofZ 1)) jIncrement)
                                     (ofZ (if jScansPositively then 1 else -1))) in
  shapeOfEarth ← getUint8 view offset;
  scaleFactorOfRadius ← getUint8 view (offset + 1);
  scaledValueOfRadius ← getUint32 view (offset + 2);
  scaleFactorOfMajorAxis ← getUint8 view (offset + 6);
  scaledValueOfMajorAxis ← getUint32 view (offset + 7);
  scaleFactorOfMinorAxis ← getUint8 view (offset + 11);
  scaledValueOfMinorAxis ← getUint32 view (offset + 12);
  basicAngle ← getUint32 view (offset + 24);
  subdivisions ← getUint32 view (offset + 28);
  flags ← getUint8 view (offset + 40);
  Ok {| shapeOfEarth := shapeOfEarth;
        scaleFactorOfRadiusOfSphericalEarth := scaleFactorOfRadius;
        scaledValueOfRadiusOfSphericalEarth := scaledValueOfRadius;
        scaleFactorOfEarthMajorAxis := scaleFactorOfMajorAxis;
        scaledValueOfEarthMajorAxis := scaledValueOfMajorAxis;
        scaleFactorOfEarthMinorAxis := scaleFactorOfMinorAxis;
        scaledValueOfEarthMinorAxis := scaledValueOfMinorAxis;
        ni := ni;
        nj := nj;
        basicAngleOfInitialProductionDomain := basicAngle;
        subdivisionsOfBasicAngle := subdivisions;
        latitudeOfFirstGridPoint := latFirst;
        longitudeOfFirstGridPoint := lonFirst;
        resolutionAndComponentFlags := flags;
        latitudeOfLastGridPoint := latLast;
        longitudeOfLastGridPoint := lonLast;
        latitudeOfLastGridPointFromFile := latLastFromFile;
        longitudeOfLastGridPointFromFile := lonLastFromFile;
        iDirectionIncrement := iIncrement;
        jDirectionIncrement := jIncrement;
        scanningMode := scanningMode |}.

Definition parseSection3 (view : list byte) (offset : Z) : outcome (Section3 * Z) :=
  length ← getUint32 view offset;
  sectionNumber ← getUint8 view (offset + 4);
  source ← getUint8 view (offset + 5);
  numberOfDataPoints ← getUint32 view (offset + 6);
  numberOfOctetsForOptional ← getUint8 view (offset + 10);
  interpretationOfOptional ← getUint8 view (offset + 11);
  gridDefinitionTemplateNumber ← getUint16 view (offset + 12);
  gridTemplate ← (if gridDefinitionTemplateNumber =? 0
                  then gt ← parseGridTemplate0 view (offset + 14); Ok (Some gt)
                  else Ok None);
  Ok ({| length3 := length; source := source;
         numberOfDataPoints3 := numberOfDataPoints;
         numberOfOctetsForOptional := numberOfOctetsForOptional;
         interpretationOfOptional := interpretationOfOptional;
         gridDefinitionTemplateNumber := gridDefinitionTemplateNumber;
         gridTemplate := gridTemplate |}, offset + length).

Definition parseSection4 (view : list byte) (offset : Z) : outcome (Section4 * Z) :=
  length ← getUint32 view offset;
  sectionNumber ← getUint8 view (offset + 4);
  numberOfCoordinateValues ← getUint16 view (offset + 5);
  productDefinitionTemplateNumber ← getUint16 view (offset + 7);
  templateData ← subarray view (offset + 9) (length - 9);
  Ok ({| length4 := length; numberOfCoordinateValues := numberOfCoordinateValues;
         productDefinitionTemplateNumber := productDefinitionTemplateNumber;
         templateData := templateData |}, offset + length).

Definition parsePacking (view : list byte) (offset : Z) : outcome Packing :=
  referenceValue ← getFloat32 view (offset + 11);
  binaryScaleFactor ← getInt16 view (offset + 15);
  decimalScaleFactor ← getInt16 view (offset + 17);
  numberOfBits ← getUint8 view (offset + 19);
  typeOfOriginalFieldValues ← getUint8 view (offset + 20);
  Ok {| referenceValue := referenceValue; binaryScaleFactor := binaryScaleFactor;
        decimalScaleFactor := decimalScaleFactor; numberOfBits := numberOfBits;
        typeOfOriginalFieldValues := typeOfOriginalFieldValues |}.

(** The group fields of templates 5.2 and 5.3; [withOrder] tells template
    5.3, which alone reads the last two fields. *)
Definition parseGroups (view : list byte) (offset : Z) (withOrder : bool)
    : outcome Groups :=
  groupSplittingMethod ← getUint8 view (offset + 21);
  missingValueManagement ← getUint8 view (offset + 22);
  primaryMissingValue ← getFloat32 view (offset + 23);
  secondaryMissingValue ← getFloat32 view (offset + 27);
  numberOfGroups ← getUint32 view (offset + 31);
  referenceForGroupWidths ← getUint8 view (offset + 35);
  numberOfBitsForGroupWidths ← getUint8 view (offset + 36);
  referenceForGroupLengths ← getUint32 view (offset + 37);
  lengthIncrementForGroupLengths ← getUint8 view (offset + 41);
  trueLengthOfLastGroup ← getUint32 view (offset + 42);
  numberOfBitsForScaledGroupLengths ← getUint8 view (offset + 46);
  '(order, extra) ← (if withOrder
                     then o ← getUint8 view (offset + 47);
                          e ← getUint8 view (offset + 48);
                          Ok (o, Some e)
                     else Ok (0, None));
  Ok {| groupSplittingMethod := groupSplittingMethod;
        missingValueManagement := missingValueManagement;
        primaryMissingValue := primaryMissingValue;
        secondaryMissingValue := secondaryMissingValue;
        numberOfGroups := numberOfGroups;
        referenceForGroupWidths := referenceForGroupWidths;
        numberOfBitsForGroupWidths := numberOfBitsForGroupWidths;
        referenceForGroupLengths := referenceForGroupLengths;
        lengthIncrementForGroupLengths := lengthIncrementForGroupLengths;
        trueLengthOfLastGroup := trueLengthOfLastGroup;
        numberOfBitsForScaledGroupLengths := numberOfBitsForScaledGroupLengths;
        orderOfSpatialDifferencing := order;
        numberOfOctetsExtraDescriptors := extra |}.

Definition parseSection5 (view : list byte) (offset : Z) : outcome (Section5 * Z) :=
  length ← getUint32 view offset;
  sectionNumber ← getUint8 view (offset + 4);
  numberOfDataPoints ← getUint32 view (offset + 5);
  number ← getUint16 view (offset + 9);
  template ← (if number =? 0 then
                p ← parsePacking view offset; Ok (Some (SimplePacking p))
              else if number =? 2 then
                p ← parsePacking view offset;
                g ← parseGroups view offset false;
                Ok (Some (ComplexPacking p g))
              else if number =? 3 then
                p ← parsePacking view offset;
                g ← parseGroups view offset true;
                Ok (Some (ComplexPacking p g))
              else Ok None);
  Ok ({| length5 := length; numberOfDataPoints5 := numberOfDataPoints;
         dataRepresentationTemplateNumber := number; template := template |},
      offset + length).

Definition parseSection6 (view : list byte) (offset : Z) : outcome (Section6 * Z) :=
  length ← getUint32 view offset;
  sectionNumber ← getUint8 view (offset + 4);
  bitMapIndicator ← getUint8 view (offset + 5);
  bitmap ← (if bitMapIndicator =? 0
            then b ← subarray view (offset + 6) (length - 6); Ok (Some b)
            else Ok None);
  Ok ({| length6 := length; bitMapIndicator := bitMapIndicator; bitmap := bitmap |},
      offset + length).

(** [parseSection5] builds a simple template exactly for template number 0
    and a complex one exactly for 2 and 3, so the test on the number in
    the source is the test on the shape here. *)
Definition parseSection7 (view : list byte) (offset : Z) (section5 : option Section5)
    : outcome (Section7 * Z) :=
  length ← getUint32 view offset;
  sectionNumber ← getUint8 view (offset + 4);
  s7 ← match section5 ≫= (fun s5 => (fun t => (s5, t)) <$> template s5) with
        | Some (s5, SimplePacking p) =>
            d ← decodeSimplePacking view (offset + 5) (length - 5) p
                  (numberOfDataPoints5 s5);
            Ok {| length7 := length; data := Some d; rawData := None |}
        | Some (s5, ComplexPacking p g) =>
            d ← decodeComplexPacking view (offset + 5) (length - 5) p g
                  (numberOfDataPoints5 s5);
            Ok {| length7 := length; data := Some d; rawData := None |}
        | None =>
            raw ← subarray view (offset + 5) (length - 5);
            Ok {| length7 := length; data := None; rawData := Some raw |}
        end;
  Ok (s7, offset + length).

Definition parseSection8 (view : list byte) (offset : Z) : outcome Z :=
  endSignature ← fourBytes view offset;
  if negb (eqFour endSignature s7777) then Throw InvalidEndSection
  else Ok (offset + 4).

(** ** parseMessage and parse *)

Definition setSection2 (s : Sections) (x : Section2) : Sections :=
  {| section1 := section1 s; section2 := Some x; section3 := section3 s;
     section4 := section4 s; section5 := section5 s; section6 := section6 s;
     section7 := section7 s |}.
Definition setSection3 (s : Sections) (x : Section3) : Sections :=
  {| section1 := section1 s; section2 := section2 s; section3 := Some x;
     section4 := section4 s; section5 := section5 s; section6 := section6 s;
     section7 := section7 s |}.
Definition setSection4 (s : Sections) (x : Section4) : Sections :=
  {| section1 := section1 s; section2 := section2 s; section3 := section3 s;
     section4 := Some x; section5 := section5 s; section6 := section6 s;
     section7 := section7 s |}.
Definition setSection5 (s : Sections) (x : Section5) : Sections :=
  {| section1 := section1 s; section2 := section2 s; section3 := section3 s;
     section4 := section4 s; section5 := Some x; section6 := section6 s;
     section7 := section7 s |}.
Definition setSection6 (s : Sections) (x : Section6) : Sections :=
  {| section1 := section1 s; section2 := section2 s; section3 := section3 s;
     section4 := section4 s; section5 := section5 s; section6 := Some x;
     section7 := section7 s |}.
Definition setSection7 (s : Sections) (x : Section7) : Sections :=
  {| section1 := section1 s; section2 := section2 s; section3 := section3 s;
     section4 := section4 s; section5 := section5 s; section6 := section6 s;
     section7 := Some x |}.

(** The loop [while (this.offset < messageStart + section0.totalLength)]. *)
Fixpoint parseSections (fuel : nat) (view : list byte) (messageEnd offset : Z)
    (secs : Sections) : outcome (Sections * Z) :=
  if offset <? messageEnd then
    match fuel with
    | O => OutOfFuel
    | S fuel' =>
        next4Bytes ← fourBytes view offset;
        if eqFour next4Bytes s7777 then
          offset' ← parseSection8 view offset;
          Ok (secs, offset')
        else
          sectionNumber ← getUint8 view (offset + 4);
          if sectionNumber =? 2 then
            '(x, offset') ← parseSection2 view offset;
            parseSections fuel' view messageEnd offset' (setSection2 secs x)
          else if sectionNumber =? 3 then
            '(x, offset') ← parseSection3 view offset;
            parseSections fuel' view messageEnd offset' (setSection3 secs x)
          else if sectionNumber =? 4 then
            '(x, offset') ← parseSection4 view offset;
            parseSections fuel' view messageEnd offset' (setSection4 secs x)
          else if sectionNumber =? 5 then
            '(x, offset') ← parseSection5 view offset;
            parseSections fuel' view messageEnd offset' (setSection5 secs x)
          else if sectionNumber =? 6 then
            '(x, offset') ← parseSection6 view offset;
            parseSections fuel' view messageEnd offset' (setSection6 secs x)
          else if sectionNumber =? 7 then
            '(x, offset') ← parseSection7 view offset (section5 secs);
            parseSections fuel' view messageEnd offset' (setSection7 secs x)
          else Throw (UnknownSection sectionNumber offset)
    end
  else Ok (secs, offset).

(** [None] is the [null] of a buffer with fewer than 16 bytes left.  The
    end of the message, messageStart + totalLength, is exact here and a
    rounded sum in the source; the test [offset < end] comes out the
    same, as an offset stays below 2^53. *)
Definition parseMessage (fuel : nat) (view : list byte) (offset : Z)
    : outcome (option Message * Z) :=
  let messageStart := offset in
  '(s0, offset) ← parseSection0 view offset;
  match s0 with
  | None => Ok (None, offset)
  | Some section0 =>
      '(s1, offset) ← parseSection1 view offset;
      let secs := {| section1 := s1; section2 := None; section3 := None;
                     section4 := None; section5 := None; section6 := None;
                     section7 := None |} in
      '(secs, offset) ← parseSections fuel view (messageStart + totalLength0 section0)
                          offset secs;
      Ok (Some {| discipline := discipline0 section0; edition := edition0 section0;
                  totalLength := totalLength0 section0; sections := secs |}, offset)
  end.

(** The loop of [parse]: a message is pushed, a [null] is skipped, an
    exception ends the loop.  The result is [this.messages]. *)
Fixpoint parseLoop (fuel : nat) (view : list byte) (offset : Z)
    (messages : list Message) : outcome (list Message) :=
  if offset <? byteLength view then
    match fuel with
    | O => OutOfFuel
    | S fuel' =>
        match parseMessage fuel' view offset with
        | Ok (Some message, offset') => parseLoop fuel' view offset' (messages ++ [message])
        | Ok (None, offset') => parseLoop fuel' view offset' messages
        | Throw _ => Ok messages
        | OutOfFuel => OutOfFuel
        end
    end
  else Ok messages.

Definition parse (fuel : nat) (view : list byte) : outcome (list Message) :=
  parseLoop fuel view 0 [].

(** ** Level metadata: getInventory and getData *)

(** [templateData[i]]; [None] is [undefined]. *)
Definition tdAt (td : list byte) (i : nat) : option Z := byteZ <$> td !! i.

(** [(b0 << 24) | (b1 << 16) | (b2 << 8) | b3]; an [undefined] operand of a
    bitwise operator counts as 0. *)
Definition be32 (b0 b1 b2 b3 : option Z) : Z :=
  js_or (js_or (js_or (js_shl (default 0 b0) 24) (js_shl (default 0 b1) 16))
               (js_shl (default 0 b2) 8))
        (default 0 b3).

(** The arguments that [getInventory] passes to [getLevelDescription]:
    the level type and the scaled level value.  [None] when the template
    data is shorter than 19 bytes and the level stays 'unknown'. *)
Definition inventoryLevel (td : list byte) : option (Z * num) :=
  if 19 <=? Z.of_nat (length td) then
    let levelType := default 0 (tdAt td 13) in
    let scaleFactor := default 0 (tdAt td 14) in
    let scaledValue := be32 (tdAt td 15) (tdAt td 16) (tdAt td 17) (tdAt td 18) in
    let levelValue := ndiv (ofZ scaledValue) (Math_pow 10 scaleFactor) in
    Some (levelType, levelValue)
  else None.

(** The level type and level value that [getData] compares with its
    filters; [None] is 'unknown' for the type and [null] for the value. *)
Definition dataLevel (td : list byte) : option Z * option Z :=
  if 14 <=? Z.of_nat (length td) then
    (tdAt td 9, Some (be32 (tdAt td 11) (tdAt td 12) (tdAt td 13) (tdAt td 14)))
  else (None, None).

Inductive ParamName :=
| ugrd | vgrd | vwnd | uwnd | temp | spfh | rh | pres | pmsl
| param_ (category number : option Z).

#[global] Instance ParamName_eq_dec : EqDecision ParamName.
Proof. solve_decision. Defined.

Definition getParameterName (category number : option Z) : ParamName :=
  match category, number with
  | Some 2, Some 2 => ugrd
  | Some 2, Some 3 => vgrd
  | Some 2, Some 1 => vwnd
  | Some 2, Some 0 => uwnd
  | Some 0, Some 0 => temp
  | Some 1, Some 0 => spfh
  | Some 1, Some 1 => rh
  | Some 3, Some 0 => pres
  | Some 3, Some 1 => pmsl
  | _, _ => param_ category number
  end.

(** The three filters of [getData] on a message with template data [td]:
    [true] when the message is kept.  A filter that is [None] was not
    given ([null]). *)
Definition passesFilters (filterParameters : option (list ParamName))
    (filterLevelType filterLevelValue : option Z) (td : list byte) : bool :=
  let paramName := getParameterName (tdAt td 0) (tdAt td 1) in
  let '(levelType, levelValue) := dataLevel td in
  let skipByName := match filterParameters with
                    | Some ps => negb (bool_decide (paramName ∈ ps))
                    | None => false
                    end in
  let skipByType := match filterLevelType with
                    | Some ft => negb (bool_decide (levelType = Some ft))
                    | None => false
                    end in
  let skipByValue := match filterLevelValue with
                     | Some fv => negb (bool_decide (levelValue = Some fv))
                     | None => false
                     end in
  if skipByName then false
  else if skipByType then false
  else if skipByValue then false
  else true.

(** ** getData: coordinates, longitude format, bounding box *)

Inductive LongitudeFormat :=
| preserve            (* 'preserve', the default; any other string acts alike *)
| format_0_360        (* '0-360' *)
| format_180_180.     (* '-180-180' *)

(** [lat[idx]] and [lng[idx]] at row [j], column [i]; the store into the
    Float32Array rounds. *)
Definition latAt (grid : GridTemplate0) (j : Z) : num :=
  let jMultiplier := if negb (js_and (scanningMode grid) 64 =? 0) then 1 else -1 in
  toFloat32 (nadd (latitudeOfFirstGridPoint grid)
                  (nmul (nmul (ofZ j) (jDirectionIncrement grid)) (ofZ jMultiplier))).

Definition lngAt (grid : GridTemplate0) (i : Z) : num :=
  let iMultiplier := if js_and (scanningMode grid) 128 =? 0 then 1 else -1 in
  toFloat32 (nadd (longitudeOfFirstGridPoint grid)
                  (nmul (nmul (ofZ i) (iDirectionIncrement grid)) (ofZ iMultiplier))).

(** The two nested loops write index [j * ni + i] once each, rows first,
    so the arrays are the row-major lists.  (The size limit of a typed
    array is not modelled.) *)
Definition latArray (grid : GridTemplate0) : list num :=
  j ← seqZ 0 (nj grid); i ← seqZ 0 (ni grid); [latAt grid j].

Definition lngArray (grid : GridTemplate0) : list num :=
  j ← seqZ 0 (nj grid); i ← seqZ 0 (ni grid); [lngAt grid i].

(** [while (x >= 360) x -= 360] on an element of the Float32Array. *)
Fixpoint whileGe360 (fuel : nat) (x : num) : outcome num :=
  if nle (ofZ 360) x then
    match fuel with
    | O => OutOfFuel
    | S fuel' => whileGe360 fuel' (toFloat32 (nsub x (ofZ 360)))
    end
  else Ok x.

(** [while (x < 0) x += 360]. *)
Fixpoint whileLt0 (fuel : nat) (x : num) : outcome num :=
  if nlt x (ofZ 0) then
    match fuel with
    | O => OutOfFuel
    | S fuel' => whileLt0 fuel' (toFloat32 (nadd x (ofZ 360)))
    end
  else Ok x.

(** [while (x > 180) x -= 360]. *)
Fixpoint whileGt180 (fuel : nat) (x : num) : outcome num :=
  if nlt (ofZ 180) x then
    match fuel with
    | O => OutOfFuel
    | S fuel' => whileGt180 fuel' (toFloat32 (nsub x (ofZ 360)))
    end
  else Ok x.

(** [while (x <= -180) x += 360]. *)
Fixpoint whileLeM180 (fuel : nat) (x : num) : outcome num :=
  if nle x (ofZ (-180)) then
    match fuel with
    | O => OutOfFuel
    | S fuel' => whileLeM180 fuel' (toFloat32 (nadd x (ofZ 360)))
    end
  else Ok x.

Definition normalizeLongitude (fuel : nat) (format : LongitudeFormat) (x : num)
    : outcome num :=
  match format with
  | format_0_360 => x ← whileGe360 fuel x; whileLt0 fuel x
  | format_180_180 => x ← whileGt180 fuel x; whileLeM180 fuel x
  | preserve => Ok x
  end.

Definition normalizeLongitudes (fuel : nat) (format : LongitudeFormat)
    (lng : list num) : outcome (list num) :=
  mapM (normalizeLongitude fuel format) lng.

Definition scanMin (l : list num) : num :=
  foldl (fun m x => if nlt x m then x else m) Infinity l.

Definition scanMax (l : list num) : num :=
  foldl (fun m x => if nlt m x then x else m) (nneg Infinity) l.

(** [metadata.grid] of the result of [getData]. *)
Record GridMeta := {
  meta_ni : Z;
  meta_nj : Z;
  latMin : num;
  latMax : num;
  lngMin : num;
  lngMax : num;
  latIncrement : num;
  lngIncrement : num;
  meta_scanningMode : Z
}.

(** The part of the result of [getData] that the grid decides: [lat],
    [lng], [metadata.grid], [numPoints]. *)
Record Coordinates := {
  lat : list num;
  lng : list num;
  grid_meta : GridMeta;
  numPoints : Z
}.

Definition getDataCoordinates (fuel : nat) (format : LongitudeFormat)
    (grid : GridTemplate0) : outcome Coordinates :=
  let lat := latArray grid in
  lng ← normalizeLongitudes fuel format (lngArray grid);
  Ok {| lat := lat; lng := lng;
        grid_meta := {| meta_ni := ni grid; meta_nj := nj grid;
                        latMin := scanMin lat; latMax := scanMax lat;
                        lngMin := scanMin lng; lngMax := scanMax lng;
                        latIncrement := jDirectionIncrement grid;
                        lngIncrement := iDirectionIncrement grid;
                        meta_scanningMode := scanningMode grid |};
        numPoints := ni grid * nj grid |}.

(** ** getData: wind direction *)

(** [arr[i]] used in arithmetic: [undefined] turns into NaN there. *)
Definition element (arr : list num) (i : Z) : num :=
  if i <? 0 then NaN else default NaN (arr !! Z.to_nat i).

(** The host functions of the wind computation. *)
Class HostMath := {
  Math_PI : num;
  Math_atan2 : num -> num -> num
}.

(** The body of the loop that fills [wind_dir], at index [i]. *)
Definition windDirAt `{HostMath} (ugrd vgrd : list num) (i : Z) : num :=
  let u := element ugrd i in
  let v := element vgrd i in
  let dir := ndiv (nmul (Math_atan2 (nneg u) (nneg v)) (ofZ 180)) Math_PI in
  let dir := if nlt dir (ofZ 0) then nadd dir (ofZ 360) else dir in
  toFloat32 dir.

Definition windDirection `{HostMath} (numPoints : Z) (ugrd vgrd : list num) : list num :=
  windDirAt ugrd vgrd <$> seqZ 0 numPoints.

(** ** bilinearInterpolate *)

(** [arr[idx]] for a Number [idx]. *)
Definition elementAt (arr : list num) (idx : num) : num :=
  match toIndex idx with
  | Some z => element arr z
  | None => NaN
  end.

(** The value of [result[param]] for the array [arr = data[param]];
    [None] is the [null] of a target outside the bounding box. *)
Definition bilinearInterpolate (grid : GridMeta) (arr : list num)
    (targetLat targetLng : num) : option num :=
  let ni := ofZ (meta_ni grid) in
  let nj := ofZ (meta_nj grid) in
  let latInc := latIncrement grid in
  let lngInc := lngIncrement grid in
  if nlt targetLat (Math_min (latMin grid) (latMax grid))
     || nlt (Math_max (latMin grid) (latMax grid)) targetLat
     || nlt targetLng (lngMin grid)
     || nlt (lngMax grid) targetLng
  then None
  else
    let iFloat := ndiv (nsub targetLng (lngMin grid)) lngInc in
    let jFloat := ndiv (nsub targetLat (latMin grid)) latInc in
    let i0 := Math_floor iFloat in
    let i1 := Math_min (nadd i0 (ofZ 1)) (nsub ni (ofZ 1)) in
    let j0 := Math_floor jFloat in
    let j1 := Math_min (nadd j0 (ofZ 1)) (nsub nj (ofZ 1)) in
    let wx := nsub iFloat i0 in
    let wy := nsub jFloat j0 in
    let idx00 := nadd (nmul j0 ni) i0 in
    let idx10 := nadd (nmul j0 ni) i1 in
    let idx01 := nadd (nmul j1 ni) i0 in
    let idx11 := nadd (nmul j1 ni) i1 in
    let v00 := elementAt arr idx00 in
    let v10 := elementAt arr idx10 in
    let v01 := elementAt arr idx01 in
    let v11 := elementAt arr idx11 in
    let one := ofZ 1 in
    Some (nadd (nadd (nadd (nmul (nmul v00 (nsub one wx)) (nsub one wy))
                           (nmul (nmul v10 wx) (nsub one wy)))
                     (nmul (nmul v01 (nsub one wx)) wy))
               (nmul (nmul v11 wx) wy)).

End Reader.

Arguments Section0 : clear implicits.
Arguments Message num : clear implicits.
Arguments GridTemplate0 num : clear implicits.
Arguments GridMeta num : clear implicits.
Arguments Coordinates num : clear implicits.
Arguments Packing num : clear implicits.
Arguments Groups num : clear implicits.
Arguments HostMath num : clear implicits.

(** ** The instance IEEE: binary64 Numbers, float32 array elements *)

Module IEEE.

Definition b64 (m e : Z) (szero : bool) : spec_float :=
  binary_normalize 53 1024 m e szero.

Definition of_Z (z : Z) : spec_float := b64 z 0 false.

Definition of_float32_bits (u : Z) : spec_float :=
  let s := Z.testbit u 31 in
  let e := Z.land (Z.shiftr u 23) 255 in
  let m := Z.land u (2 ^ 23 - 1) in
  if e =? 255 then (if m =? 0 then S754_infinity s else S754_nan)
  else if e =? 0 then b64 (cond_Zopp s m) (-149) s
  else b64 (cond_Zopp s (m + 2 ^ 23)) (e - 150) s.

(** Round to float32 (nearest, ties to even) and keep the value as a
    binary64. *)
Definition to_float32 (x : spec_float) : spec_float :=
  match x with
  | S754_finite s m e =>
      match binary_normalize 24 128 (cond_Zopp s (Zpos m)) e s with
      | S754_finite s' m' e' => b64 (cond_Zopp s' (Zpos m')) e' s'
      | y => y
      end
  | _ => x
  end.

Definition min (a b : spec_float) : spec_float :=
  match a, b with
  | S754_nan, _ | _, S754_nan => S754_nan
  | S754_zero sa, S754_zero sb => S754_zero (sa || sb)
  | _, _ => if SFltb b a then b else a
  end.

Definition max (a b : spec_float) : spec_float :=
  match a, b with
  | S754_nan, _ | _, S754_nan => S754_nan
  | S754_zero sa, S754_zero sb => S754_zero (sa && sb)
  | _, _ => if SFltb a b then b else a
  end.

Definition floor (x : spec_float) : spec_float :=
  match x with
  | S754_finite s m e =>
      if 0 <=? e then x
      else b64 (cond_Zopp s (Zpos m) / 2 ^ (- e)) 0 s
  | _ => x
  end.

(** The correctly rounded value of [b ^ e] for [b > 0]; the source calls
    [Math.pow] with the bases 2 and 10 only. *)
Definition pow (b e : Z) : spec_float :=
  if b <=? 0 then S754_nan
  else if 0 <=? e then b64 (b ^ e) 0 false
  else
    let d := b ^ (- e) in
    let k := Z.log2_up d + 64 in
    let q := 2 ^ k / d in
    let sticky := if 2 ^ k mod d =? 0 then 0 else 1 in
    b64 (2 * q + sticky) (- (k + 1)) false.

(** An integral Number that is not negative is an index; -0 is index 0. *)
Definition to_index (x : spec_float) : option Z :=
  match x with
  | S754_zero _ => Some 0
  | S754_finite false m e =>
      if 0 <=? e then Some (Zpos m * 2 ^ e)
      else if Zpos m mod 2 ^ (- e) =? 0 then Some (Zpos m / 2 ^ (- e))
      else None
  | _ => None
  end.

#[global] Instance number : JSNumber spec_float := {|
  ofZ := of_Z;
  ofFloat32Bits := of_float32_bits;
  NaN := S754_nan;
  Infinity := S754_infinity false;
  nadd := SFadd 53 1024;
  nsub := SFsub 53 1024;
  nmul := SFmul 53 1024;
  ndiv := SFdiv 53 1024;
  nneg := SFopp;
  nlt := SFltb;
  nle := SFleb;
  Math_min := min;
  Math_max := max;
  Math_floor := floor;
  Math_pow := pow;
  toFloat32 := to_float32;
  toIndex := to_index
|}.

(** Math.PI and the multiples of it that [Math.atan2] returns. *)
Definition PI : spec_float := S754_finite false 7074237752028440 (-51).
Definition PI_2 : spec_float := S754_finite false 7074237752028440 (-52).
Definition PI_4 : spec_float := S754_finite false 7074237752028440 (-53).
Definition PI_3_4 : spec_float := S754_finite false 5305678314021330 (-51).

Definition withSign (s : bool) (x : spec_float) : spec_float :=
  if s then SFopp x else x.

(** [Math.atan2(y, x)] as ECMA-262 lays it out: the rows for NaN, the
    infinities and the zeros are fixed there; for two finite non-zero
    arguments the standard only asks for an approximation, which is the
    host's [approx]. *)
Definition atan2 (approx : spec_float -> spec_float -> spec_float)
    (y x : spec_float) : spec_float :=
  match y, x with
  | S754_nan, _ | _, S754_nan => S754_nan
  | S754_infinity sy, S754_infinity false => withSign sy PI_4
  | S754_infinity sy, S754_infinity true => withSign sy PI_3_4
  | S754_infinity sy, _ => withSign sy PI_2
  | S754_zero sy, S754_zero false => S754_zero sy
  | S754_zero sy, S754_finite false _ _ => S754_zero sy
  | S754_zero sy, S754_infinity false => S754_zero sy
  | S754_zero sy, _ => withSign sy PI
  | S754_finite sy _ _, S754_infinity false => S754_zero sy
  | S754_finite sy _ _, S754_infinity true => withSign sy PI
  | S754_finite sy _ _, S754_zero _ => withSign sy PI_2
  | S754_finite _ _ _, S754_finite _ _ _ => approx y x
  end.

Definition host (approx : spec_float -> spec_float -> spec_float)
    : HostMath spec_float :=
  {| Math_PI := PI; Math_atan2 := atan2 approx |}.

End IEEE.

(** ** The instance Exact: rationals with the infinities and NaN, no
    rounding and no signed zero *)

Module Exact.

Inductive xnum :=
| Fin (q : Qc)
| Inf (negative : bool)
| Nan.

Definition ofQ (q : Q) : xnum := Fin (Q2Qc q).

Definition of_Z (z : Z) : xnum := Fin (Qc_of_Z z).

Definition negative (q : Qc) : bool := bool_decide (q < 0)%Qc.

Definition of_float32_bits (u : Z) : xnum :=
  let s := Z.testbit u 31 in
  let e := Z.land (Z.shiftr u 23) 255 in
  let m := Z.land u (2 ^ 23 - 1) in
  if e =? 255 then (if m =? 0 then Inf s else Nan)
  else if e =? 0 then ofQ (inject_Z (cond_Zopp s m) * Qpower 2 (-149))
  else ofQ (inject_Z (cond_Zopp s (m + 2 ^ 23)) * Qpower 2 (e - 150)).

Definition add (a b : xnum) : xnum :=
  match a, b with
  | Nan, _ | _, Nan => Nan
  | Inf s, Inf t => if Bool.eqb s t then Inf s else Nan
  | Inf s, Fin _ | Fin _, Inf s => Inf s
  | Fin p, Fin q => Fin (p + q)
  end.

Definition neg (a : xnum) : xnum :=
  match a with
  | Nan => Nan
  | Inf s => Inf (negb s)
  | Fin p => Fin (- p)
  end.

Definition sub (a b : xnum) : xnum := add a (neg b).

Definition mul (a b : xnum) : xnum :=
  match a, b with
  | Nan, _ | _, Nan => Nan
  | Inf s, Inf t => Inf (xorb s t)
  | Inf s, Fin q | Fin q, Inf s =>
      if bool_decide (q = 0)%Qc then Nan else Inf (xorb s (negative q))
  | Fin p, Fin q => Fin (p * q)
  end.

Definition div (a b : xnum) : xnum :=
  match a, b with
  | Nan, _ | _, Nan => Nan
  | Inf _, Inf _ => Nan
  | Inf s, Fin q => Inf (xorb s (negative q))
  | Fin _, Inf _ => Fin 0
  | Fin p, Fin q =>
      if bool_decide (q = 0)%Qc
      then (if bool_decide (p = 0)%Qc then Nan else Inf (negative p))
      else Fin (p / q)
  end.

Definition lt (a b : xnum) : bool :=
  match a, b with
  | Nan, _ | _, Nan => false
  | Inf s, Inf t => s && negb t
  | Inf s, Fin _ => s
  | Fin _, Inf t => negb t
  | Fin p, Fin q => bool_decide (p < q)%Qc
  end.

Definition le (a b : xnum) : bool :=
  match a, b with
  | Nan, _ | _, Nan => false
  | Inf s, Inf t => s || negb t
  | Inf s, Fin _ => s
  | Fin _, Inf t => negb t
  | Fin p, Fin q => bool_decide (p <= q)%Qc
  end.

Definition min (a b : xnum) : xnum :=
  match a, b with
  | Nan, _ | _, Nan => Nan
  | _, _ => if lt b a then b else a
  end.

Definition max (a b : xnum) : xnum :=
  match a, b with
  | Nan, _ | _, Nan => Nan
  | _, _ => if lt a b then b else a
  end.

Definition floor (a : xnum) : xnum :=
  match a with
  | Fin q => of_Z (Qfloor q)
  | _ => a
  end.

Definition pow (b e : Z) : xnum :=
  if b <=? 0 then Nan else ofQ (Qpower (inject_Z b) e).

Definition to_index (a : xnum) : option Z :=
  match a with
  | Fin q => if (Zpos (Qden q) =? 1) && (0 <=? Qnum q) then Some (Qnum q) else None
  | _ => None
  end.

#[global] Instance number : JSNumber xnum := {|
  ofZ := of_Z;
  ofFloat32Bits := of_float32_bits;
  NaN := Nan;
  Infinity := Inf false;
  nadd := add;
  nsub := sub;
  nmul := mul;
  ndiv := div;
  nneg := neg;
  nlt := lt;
  nle := le;
  Math_min := min;
  Math_max := max;
  Math_floor := floor;
  Math_pow := pow;
  toFloat32 := fun x => x;
  toIndex := to_index
|}.

End Exact.

(** ** Concrete inputs *)

Module Inputs.

(** The four bytes of an unsigned 32-bit integer, big-endian. *)
Definition u32 (z : Z) : list Z :=
  [z / 2 ^ 24 mod 256; z / 2 ^ 16 mod 256; z / 2 ^ 8 mod 256; z mod 256].

(** Four bytes, all bits set. *)
Definition ones : list byte := bytesOf [255; 255; 255; 255].

(** A buffer of a single byte. *)
Definition oneByte : list byte := bytesOf [0].

(** A whole message of 41 bytes with the edition byte 1: section 0,
    section 1 (21 bytes, reference time 2025-10-13 12:00:00), '7777'. *)
Definition editionOne : list byte :=
  bytesOf (GRIB ++ [0; 0; 0; 1] ++ u32 0 ++ u32 41
           ++ u32 21 ++ [1; 0; 7; 0; 0; 2; 1; 1; 7; 233; 10; 13; 12; 0; 0; 0; 1]
           ++ s7777).

(** A grid definition section of 72 bytes with template 3.0. *)
Definition section3Bytes (ni nj latFirst lonFirst flags latLast lonLast
    iInc jInc scanningMode : Z) : list byte :=
  bytesOf (u32 72 ++ [3; 0] ++ u32 (ni * nj) ++ [0; 0; 0; 0]
           ++ [6; 0] ++ u32 0 ++ [0] ++ u32 0 ++ [0] ++ u32 0
           ++ u32 ni ++ u32 nj ++ u32 0 ++ u32 0
           ++ u32 latFirst ++ u32 lonFirst ++ [flags]
           ++ u32 latLast ++ u32 lonLast ++ u32 iInc ++ u32 jInc
           ++ [scanningMode]).

(** 86 x 47 points from 42.75N 351.75E, step 0.25, scanned west to east
    and south to north. *)
Definition europe : list byte :=
  section3Bytes 86 47 42750000 351750000 48 54250000 13000000 250000 250000 64.

(** One point at longitude -0.000001. *)
Definition justWestOfGreenwich : list byte :=
  section3Bytes 1 1 0 (2 ^ 32 - 1) 48 0 (2 ^ 32 - 1) 0 0 0.

(** One column of two points at 1N and 0N, scanned north to south. *)
Definition northToSouth : list byte :=
  section3Bytes 1 2 1000000 0 48 0 0 1000000 1000000 0.

(** Two columns and two rows from 0N 0E, step 0.5, scanned west to east
    and south to north. *)
Definition southToNorth : list byte :=
  section3Bytes 2 2 0 0 48 500000 500000 500000 500000 64.

(** The grid template of a grid definition section at offset 0. *)
Definition gridOf {num} `{JSNumber num} (view : list byte) : option (GridTemplate0 num) :=
  match parseSection3 view 0 with
  | Ok (s3, _) => gridTemplate s3
  | _ => None
  end.

(** Simple packing of a constant field: R = 1, E = 0, D = -1, no bits. *)
Definition constantField : Packing spec_float :=
  {| referenceValue := IEEE.of_float32_bits 1065353216;
     binaryScaleFactor := 0; decimalScaleFactor := -1; numberOfBits := 0;
     typeOfOriginalFieldValues := 0 |}.

(** Complex packing, first-order differences, one group of two values of
    width 0 whose reference takes 31 bits; two extra octets. *)
Definition wideReference : Packing spec_float :=
  {| referenceValue := IEEE.of_float32_bits 0;
     binaryScaleFactor := 0; decimalScaleFactor := 0; numberOfBits := 31;
     typeOfOriginalFieldValues := 0 |}.

Definition oneGroup (order extra : Z) : Groups spec_float :=
  {| groupSplittingMethod := 1; missingValueManagement := 0;
     primaryMissingValue := IEEE.of_float32_bits 0;
     secondaryMissingValue := IEEE.of_float32_bits 0;
     numberOfGroups := 1; referenceForGroupWidths := 0;
     numberOfBitsForGroupWidths := 0; referenceForGroupLengths := 0;
     lengthIncrementForGroupLengths := 0; trueLengthOfLastGroup := 2;
     numberOfBitsForScaledGroupLengths := 0;
     orderOfSpatialDifferencing := order;
     numberOfOctetsExtraDescriptors := Some extra |}.

(** The data of section 7 for [wideReference]: h1 = 1, minimum +0, then
    the group reference 2^31 - 1 and one bit of padding. *)
Definition wideReferenceData : list byte :=
  bytesOf [0; 1; 0; 0; 255; 255; 255; 254].

(** Template data of a product definition: type of first fixed surface
    103 at byte 13, scale 0, value 10 ('10 m above ground'); bytes 8 to
    12 are the forecast time, 33 hours. *)
Definition tenMetres : list byte :=
  bytesOf [2; 2; 2; 0; 96; 0; 0; 0; 1; 0; 0; 0; 33; 103; 0; 0; 0; 0; 10].

(** A whole message of 184 bytes: sections 0 and 1, a grid of 3 x 3
    points, the product definition of [tenMetres], simple packing of
    nine values of four bits with R = 0, E = 0, D = 0, no bitmap, the
    packed values 0 to 8, and the end section. *)
Definition gradientMessage : list byte :=
  bytesOf (GRIB ++ [0; 0; 0; 2] ++ u32 0 ++ u32 184
           ++ u32 21 ++ [1; 0; 7; 0; 0; 2; 1; 1; 7; 233; 10; 13; 12; 0; 0; 0; 1])
  ++ section3Bytes 3 3 0 0 48 2000000 2000000 1000000 1000000 64
  ++ bytesOf (u32 34 ++ [4; 0; 0; 0; 0]) ++ tenMetres ++ bytesOf [255; 0; 0; 0; 0; 0]
  ++ bytesOf (u32 21 ++ [5] ++ u32 9 ++ [0; 0] ++ u32 0 ++ [0; 0; 0; 0; 4; 0]
              ++ u32 6 ++ [6; 255]
              ++ u32 10 ++ [7; 1; 35; 69; 103; 128]
              ++ s7777).

(** Complex packing with first-order differences and one extra octet:
    two groups with reference 4, the first of three values of width 2,
    the second of two values of width 0. *)
Definition firstOrder : Packing spec_float :=
  {| referenceValue := IEEE.of_float32_bits 0;
     binaryScaleFactor := 0; decimalScaleFactor := 0; numberOfBits := 8;
     typeOfOriginalFieldValues := 0 |}.

Definition twoGroups : Groups spec_float :=
  {| groupSplittingMethod := 1; missingValueManagement := 0;
     primaryMissingValue := IEEE.of_float32_bits 0;
     secondaryMissingValue := IEEE.of_float32_bits 0;
     numberOfGroups := 2; referenceForGroupWidths := 0;
     numberOfBitsForGroupWidths := 4; referenceForGroupLengths := 0;
     lengthIncrementForGroupLengths := 1; trueLengthOfLastGroup := 2;
     numberOfBitsForScaledGroupLengths := 4;
     orderOfSpatialDifferencing := 1;
     numberOfOctetsExtraDescriptors := Some 1 |}.

(** h1 = 100; sign 1, magnitude 2; references 4, 4; widths 2, 0;
    lengths 3, (2); three packed values 0. *)
Definition firstOrderData : list byte :=
  bytesOf [100; 130; 4; 4; 32; 48; 0].

End Inputs.

(** ** The value that the specification gives to readBits *)

Definition byteAt (view : list byte) (i : Z) : Z :=
  default 0 (byteZ <$> view !! Z.to_nat i).

(** Bit [p] of the buffer, counted from the most significant bit of byte 0. *)
Definition bitAt (view : list byte) (p : Z) : Z :=
  (byteAt view (p / 8) / 2 ^ (7 - p mod 8)) mod 2.

(** The [n] bits from bit [off] on, most significant first, as an
    unsigned integer. *)
Fixpoint unsignedBits (view : list byte) (off : Z) (n : nat) : Z :=
  match n with
  | O => 0
  | S n' => 2 * unsignedBits view off n' + bitAt view (off + Z.of_nat n')
  end.

(** ** The accessors on the parsed messages

    [getSummary], [getGrid], [getInventory] and [getData] work on
    [this.messages].  They throw the errors below; [TypeError] is what
    the engine throws when a property is read on [undefined]. *)

Inductive accessError :=
| NoMessagesParsed                    (* 'No messages parsed. Call parse() first.' *)
| MessageIndexOutOfRange (i n : Z)    (* 'Message index i out of range (0-n)' *)
| NoGridDefinitionSection             (* 'No grid definition section found' *)
| NoGridTemplateFound                 (* 'No grid template found' *)
| WindDataRequired                    (* 'UGRD and VGRD data required for wind calculation' *)
| TypeError.

Inductive result (A : Type) :=
| Returns (a : A)
| Raises (e : accessError).
Arguments Returns {A} a.
Arguments Raises {A} e.

#[global] Instance result_ret : MRet result := fun A a => Returns a.
#[global] Instance result_bind : MBind result := fun A B f m =>
  match m with
  | Returns a => f a
  | Raises e => Raises e
  end.

(** [this.messages[i]] for an integer [i]; [None] is [undefined]. *)
Definition messageAt {A : Type} (messages : list A) (i : Z) : option A :=
  if i <? 0 then None else messages !! Z.to_nat i.

(** [s.padStart(targetLength, padString)] for a [padString] of one
    character. *)
Definition padStart (targetLength : nat) (padString s : string) : string :=
  foldr String.append s (replicate (targetLength - String.length s) padString).

(** [String(n).padStart(2, '0')] for an integer [n]. *)
Definition pad2 (n : Z) : string := padStart 2 "0" (pretty n).

(** [getTimeUnitDescription] (code table 4.4). *)
Definition getTimeUnitDescription (timeUnit : Z) : string :=
  if timeUnit =? 0 then "minute"
  else if timeUnit =? 1 then "hour"
  else if timeUnit =? 2 then "day"
  else if timeUnit =? 3 then "month"
  else if timeUnit =? 4 then "year"
  else if timeUnit =? 5 then "decade"
  else if timeUnit =? 6 then "normal (30 years)"
  else if timeUnit =? 7 then "century"
  else if timeUnit =? 10 then "3 hour"
  else if timeUnit =? 11 then "6 hour"
  else if timeUnit =? 12 then "12 hour"
  else if timeUnit =? 13 then "second"
  else "unit " +:+ pretty timeUnit.

(** The forecast time of [getInventory]: the unit at byte 8 and the value
    at bytes 9 to 12 of the template data; [None] when the template data
    is shorter than 13 bytes and the forecast time stays 'unknown'. *)
Definition inventoryForecast (td : list byte) : option (Z * Z) :=
  if 13 <=? Z.of_nat (length td) then
    let timeUnit := default 0 (tdAt td 8) in
    let forecastTimeValue := be32 (tdAt td 9) (tdAt td 10) (tdAt td 11) (tdAt td 12) in
    Some (timeUnit, forecastTimeValue)
  else None.

(** The string [forecastTime] of an inventory entry. *)
Definition forecastTime (td : list byte) : string :=
  match inventoryForecast td with
  | Some (timeUnit, forecastTimeValue) =>
      pretty forecastTimeValue +:+ " " +:+ getTimeUnitDescription timeUnit +:+ " fcst"
  | None => "unknown"
  end.

Section Accessors.
Context {num : Type} `{JSNumber num}.

(** *** getSummary *)

Record Summary := {
  summary_messageIndex : Z;
  summary_date : string;
  summary_discipline : Z;
  summary_gridPoints : Z;
  summary_gridTemplate : Z;
  summary_dataPoints : Z;
  summary_gridDimensions : string
}.

(** 'YYYY-MM-DD hh:mm:ss' of the reference time. *)
Definition summaryDate (s1 : Section1) : string :=
  pretty (year s1) +:+ "-" +:+ pad2 (month s1) +:+ "-" +:+ pad2 (day s1) +:+ " "
  +:+ pad2 (hour s1) +:+ ":" +:+ pad2 (minute s1) +:+ ":" +:+ pad2 (second s1).

(** The callback of [this.messages.map]: [s3] and [s5] are read without
    a test, so a message without section 3 or section 5 throws. *)
Definition summaryOf (index : Z) (msg : Message num) : result Summary :=
  let s1 := section1 (sections msg) in
  match section3 (sections msg) with
  | None => Raises TypeError
  | Some s3 =>
      match section5 (sections msg) with
      | None => Raises TypeError
      | Some s5 =>
          Returns {| summary_messageIndex := index;
                     summary_date := summaryDate s1;
                     summary_discipline := discipline msg;
                     summary_gridPoints := numberOfDataPoints3 s3;
                     summary_gridTemplate := gridDefinitionTemplateNumber s3;
                     summary_dataPoints := numberOfDataPoints5 s5;
                     summary_gridDimensions :=
                       match gridTemplate s3 with
                       | Some gt => pretty (ni gt) +:+ "x" +:+ pretty (nj gt)
                       | None => "N/A"
                       end |}
      end
  end.

Fixpoint summariesFrom (index : Z) (messages : list (Message num))
    : result (list Summary) :=
  match messages with
  | [] => Returns []
  | msg :: rest =>
      s ← summaryOf index msg;
      ss ← summariesFrom (index + 1) rest;
      Returns (s :: ss)
  end.

Definition getSummary (messages : list (Message num)) : result (list Summary) :=
  summariesFrom 0 messages.

(** *** getGrid *)

Record GridInfo := {
  info_gridTemplate : Z;
  info_gridType : string;
  info_winds : string;
  info_dimensions : Z * Z;                       (* ni, nj *)
  info_totalPoints : Z;
  info_latitude : num * num * num;               (* first, last, increment *)
  info_longitude : num * num * num;
  info_scanningMode : Z;
  info_inputOrder : string;
  info_outputOrder : string;
  info_resolution : Z;
  info_units : string
}.

Definition getGrid (messages : list (Message num)) (messageIndex : Z)
    : result GridInfo :=
  if Z.of_nat (length messages) =? 0 then Raises NoMessagesParsed
  else if Z.of_nat (length messages) <=? messageIndex then
    Raises (MessageIndexOutOfRange messageIndex (Z.of_nat (length messages) - 1))
  else
    match messageAt messages messageIndex with
    | None => Raises TypeError
    | Some message =>
        match section3 (sections message) with
        | None => Raises NoGridDefinitionSection
        | Some section3 =>
            match gridTemplate section3 with
            | None => Raises NoGridTemplateFound
            | Some gridTemplate =>
                let gridTemplateNumber := gridDefinitionTemplateNumber section3 in
                let resolutionFlags := resolutionAndComponentFlags gridTemplate in
                let isGridRelative := negb (js_and resolutionFlags 8 =? 0) in
                let windConvention : string :=
                  if isGridRelative then "grid relative" else "earth relative" in
                let scanningMode := scanningMode gridTemplate in
                let iScansPositively := js_and scanningMode 128 =? 0 in
                let jScansPositively := negb (js_and scanningMode 64 =? 0) in
                let iDirection : string := if iScansPositively then "WE" else "EW" in
                let jDirection : string := if jScansPositively then "SN" else "NS" in
                let scanOrder := iDirection +:+ ":" +:+ jDirection in
                let gridType : string :=
                  if gridTemplateNumber =? 0 then "lat-lon grid"
                  else if gridTemplateNumber =? 30 then "Lambert Conformal"
                  else if gridTemplateNumber =? 20 then "Polar Stereographic"
                  else "unknown" in
                Returns {| info_gridTemplate := gridTemplateNumber;
                           info_gridType := gridType;
                           info_winds := windConvention;
                           info_dimensions := (ni gridTemplate, nj gridTemplate);
                           info_totalPoints := numberOfDataPoints3 section3;
                           info_latitude := (latitudeOfFirstGridPoint gridTemplate,
                                             latitudeOfLastGridPoint gridTemplate,
                                             jDirectionIncrement gridTemplate);
                           info_longitude := (longitudeOfFirstGridPoint gridTemplate,
                                              longitudeOfLastGridPoint gridTemplate,
                                              iDirectionIncrement gridTemplate);
                           info_scanningMode := scanningMode;
                           info_inputOrder := scanOrder;
                           info_outputOrder := scanOrder;
                           info_resolution := resolutionFlags;
                           info_units := "1e-06" |}
            end
        end
    end.

End Accessors.

Arguments Summary : clear implicits.
Arguments GridInfo num : clear implicits.

(** *** getData: the loop over the messages *)

(** A JavaScript object used as a map from parameter names: the keys
    stand in the order in which they were first set. *)
Fixpoint getProperty {A : Type} (key : ParamName) (object : list (ParamName * A))
    : option A :=
  match object with
  | [] => None
  | (k, v) :: rest => if decide (key = k) then Some v else getProperty key rest
  end.

Fixpoint setProperty {A : Type} (key : ParamName) (value : A)
    (object : list (ParamName * A)) : list (ParamName * A) :=
  match object with
  | [] => [(key, value)]
  | (k, v) :: rest =>
      if decide (key = k) then (key, value) :: rest
      else (k, v) :: setProperty key value rest
  end.

Section GetDataMessages.
Context {num : Type} `{JSNumber num}.

(** An element of [result.levels]. *)
Record LevelEntry := {
  level_messageIndex : Z;
  level_parameter : ParamName;
  level_category : option Z;
  level_number : option Z;
  level_levelType : option Z;             (* [None] is 'unknown' *)
  level_levelValue : option Z;            (* [None] is [null] *)
  level_data : list num
}.

(** What the callback of [this.messages.forEach] works on, when it does
    not return early: the message has a section 4 and decoded data, and
    passes the three filters. *)
Definition selectMessage (filterParameters : option (list ParamName))
    (filterLevelType filterLevelValue : option Z) (idx : Z) (msg : Message num)
    : option LevelEntry :=
  match section4 (sections msg), section7 (sections msg) with
  | Some s4, Some s7 =>
      match data s7 with
      | Some d =>
          let td := templateData s4 in
          let category := tdAt td 0 in
          let number := tdAt td 1 in
          if passesFilters filterParameters filterLevelType filterLevelValue td then
            Some {| level_messageIndex := idx;
                    level_parameter := getParameterName category number;
                    level_category := category;
                    level_number := number;
                    level_levelType := (dataLevel td).1;
                    level_levelValue := (dataLevel td).2;
                    level_data := d |}
          else None
      | None => None
      end
  | _, _ => None
  end.

(** The part of the state that the loop writes: the parameter arrays of
    [result], [paramCounts] and [result.levels]. *)
Record Collected := {
  parameters : list (ParamName * list num);
  paramCounts : list (ParamName * Z);
  levels : list LevelEntry
}.

(** The body of the callback after the filters. *)
Definition collectEntry (multiLevel firstParameterOnly : bool) (st : Collected)
    (e : LevelEntry) : Collected :=
  let paramName := level_parameter e in
  if multiLevel then
    {| parameters := parameters st; paramCounts := paramCounts st;
       levels := levels st ++ [e] |}
  else if firstParameterOnly then
    (* if (!paramCounts[paramName]) { paramCounts[paramName] = 0; result[paramName] = data } *)
    let fresh := bool_decide (default 0 (getProperty paramName (paramCounts st)) = 0) in
    let counts := if fresh then setProperty paramName 0 (paramCounts st)
                  else paramCounts st in
    let params := if fresh then setProperty paramName (level_data e) (parameters st)
                  else parameters st in
    (* paramCounts[paramName]++ *)
    {| parameters := params;
       paramCounts := setProperty paramName
                        (default 0 (getProperty paramName counts) + 1) counts;
       levels := levels st |}
  else
    {| parameters := setProperty paramName (level_data e) (parameters st);
       paramCounts := setProperty paramName
                        (default 0 (getProperty paramName (paramCounts st)) + 1)
                        (paramCounts st);
       levels := levels st |}.

Definition collectMessage (multiLevel firstParameterOnly : bool)
    (filterParameters : option (list ParamName))
    (filterLevelType filterLevelValue : option Z)
    (st : Collected) (idx : Z) (msg : Message num) : Collected :=
  match selectMessage filterParameters filterLevelType filterLevelValue idx msg with
  | Some e => collectEntry multiLevel firstParameterOnly st e
  | None => st
  end.

Fixpoint collectFrom (multiLevel firstParameterOnly : bool)
    (filterParameters : option (list ParamName))
    (filterLevelType filterLevelValue : option Z)
    (idx : Z) (messages : list (Message num)) (st : Collected) : Collected :=
  match messages with
  | [] => st
  | msg :: rest =>
      collectFrom multiLevel firstParameterOnly filterParameters filterLevelType
        filterLevelValue (idx + 1) rest
        (collectMessage multiLevel firstParameterOnly filterParameters filterLevelType
           filterLevelValue st idx msg)
  end.

(** The loop of [getData] over all messages, without the option [match]. *)
Definition collectMessages (multiLevel firstParameterOnly : bool)
    (filterParameters : option (list ParamName))
    (filterLevelType filterLevelValue : option Z)
    (messages : list (Message num)) : Collected :=
  collectFrom multiLevel firstParameterOnly filterParameters filterLevelType
    filterLevelValue 0 messages
    {| parameters := []; paramCounts := []; levels := [] |}.

(** [duplicates] of [result._warnings]: the parameters counted more than
    once; the warning is set when the list is not empty. *)
Definition duplicates (st : Collected) : list (ParamName * Z) :=
  filter (fun entry => 1 < entry.2) (paramCounts st).

End GetDataMessages.

Arguments LevelEntry num : clear implicits.
Arguments Collected num : clear implicits.

(** *** calculateWind, and the wind speed of getData *)

Class HostSqrt (num : Type) := {
  Math_sqrt : num -> num
}.

Section WindSpeed.
Context {num : Type} `{JSNumber num} `{HostMath num} `{HostSqrt num}.

(** An element of the array that [calculateWind] returns; [u] and [v]
    are the array elements as they are, [None] for [undefined]. *)
Record Wind := {
  speed : num;
  direction : num;
  wind_u : option num;
  wind_v : option num
}.

Definition windAt (ugrd vgrd : list num) (i : Z) : Wind :=
  let u := element ugrd i in
  let v := element vgrd i in
  let speed := Math_sqrt (nadd (nmul u u) (nmul v v)) in
  let direction := ndiv (nmul (Math_atan2 (nneg u) (nneg v)) (ofZ 180)) Math_PI in
  let direction := if nlt direction (ofZ 0) then nadd direction (ofZ 360)
                   else direction in
  {| speed := speed; direction := direction;
     wind_u := ugrd !! Z.to_nat i; wind_v := vgrd !! Z.to_nat i |}.

(** [calculateWind(data)]; [None] for an array is a missing property. *)
Definition calculateWind (ugrd vgrd : option (list num)) : result (list Wind) :=
  match ugrd, vgrd with
  | Some us, Some vs =>
      let numPoints := Z.of_nat (length us) in
      Returns (windAt us vs <$> seqZ 0 numPoints)
  | _, _ => Raises WindDataRequired
  end.

(** The body of the loop that fills [wind_speed] in getData. *)
Definition windSpeedAt (ugrd vgrd : list num) (i : Z) : num :=
  let u := element ugrd i in
  let v := element vgrd i in
  toFloat32 (Math_sqrt (nadd (nmul u u) (nmul v v))).

Definition windSpeed (numPoints : Z) (ugrd vgrd : list num) : list num :=
  windSpeedAt ugrd vgrd <$> seqZ 0 numPoints.

End WindSpeed.

Arguments Wind num : clear implicits.

(** [Math.sqrt] of the binary64 instance: the correctly rounded root. *)
Definition IEEE_sqrt : HostSqrt spec_float :=
  {| Math_sqrt := SFsqrt 53 1024 |}.

(** *** regridBilinear *)

Class HostRound (num : Type) := {
  Math_round : num -> num
}.

Section Regrid.
Context {num : Type} `{JSNumber num} `{HostRound num}.

(** The argument [newGrid]. *)
Record NewGrid := {
  new_latMin : num;
  new_latMax : num;
  new_lngMin : num;
  new_lngMax : num;
  latStep : num;
  lngStep : num
}.

(** The length of [new Float32Array(n)] for a Number [n]: NaN counts as
    0, a fraction is cut off, and a negative or infinite length throws a
    RangeError.  (The size limit of a typed array is not modelled.) *)
Definition typedArrayLength (n : num) : outcome Z :=
  if negb (nle n n) then Ok 0
  else if nlt (ofZ (-1)) n && nlt n (ofZ 1) then Ok 0
  else match toIndex (Math_floor n) with
       | Some z => Ok z
       | None => Throw RangeError
       end.

(** The bounds test of bilinearInterpolate: [true] when it returns [null]. *)
Definition outsideGrid (grid : GridMeta num) (targetLat targetLng : num) : bool :=
  nlt targetLat (Math_min (latMin grid) (latMax grid))
  || nlt (Math_max (latMin grid) (latMax grid)) targetLat
  || nlt targetLng (lngMin grid)
  || nlt (lngMax grid) targetLng.

(** [array[idx] = v] on a Float32Array; a store past the end does nothing. *)
Definition storeFloat32 (array : list num) (idx : Z) (v : num) : list num :=
  <[Z.to_nat idx := toFloat32 v]> array.

(** What the loops write: [newLat], [newLng], the array of each of the
    [parameters], and [idx]. *)
Record RegridState := {
  rs_lat : list num;
  rs_lng : list num;
  rs_values : list (list num);
  rs_idx : Z
}.

(** The body of the inner loop.  [sources] holds [data[param]] for each
    of the [parameters], [None] where [data] has no such property: then
    [interpolated[param]] is [undefined] and nothing is stored inside the
    grid. *)
Definition regridPoint (grid : GridMeta num) (sources : list (option (list num)))
    (g : NewGrid) (j i : Z) (st : RegridState) : RegridState :=
  let targetLat := nadd (new_latMin g) (nmul (ofZ j) (latStep g)) in
  let targetLng := nadd (new_lngMin g) (nmul (ofZ i) (lngStep g)) in
  let idx := rs_idx st in
  {| rs_lat := storeFloat32 (rs_lat st) idx targetLat;
     rs_lng := storeFloat32 (rs_lng st) idx targetLng;
     rs_values :=
       zip_with (fun source array =>
                   match source with
                   | Some arr =>
                       match bilinearInterpolate grid arr targetLat targetLng with
                       | Some v => storeFloat32 array idx v
                       | None => storeFloat32 array idx NaN
                       end
                   | None =>
                       if outsideGrid grid targetLat targetLng
                       then storeFloat32 array idx NaN
                       else array
                   end)
                sources (rs_values st);
     rs_idx := idx + 1 |}.

(** [for (let i = 0; i < newNi; i++)], from [i] on. *)
Fixpoint regridRow (fuel : nat) (grid : GridMeta num)
    (sources : list (option (list num))) (g : NewGrid) (newNi : num) (j i : Z)
    (st : RegridState) : outcome RegridState :=
  if nlt (ofZ i) newNi then
    match fuel with
    | O => OutOfFuel
    | S fuel' =>
        regridRow fuel' grid sources g newNi j (i + 1) (regridPoint grid sources g j i st)
    end
  else Ok st.

(** [for (let j = 0; j < newNj; j++)], from [j] on; every row gets the
    fuel [inner]. *)
Fixpoint regridRows (fuel inner : nat) (grid : GridMeta num)
    (sources : list (option (list num))) (g : NewGrid) (newNi newNj : num) (j : Z)
    (st : RegridState) : outcome RegridState :=
  if nlt (ofZ j) newNj then
    match fuel with
    | O => OutOfFuel
    | S fuel' =>
        st' ← regridRow inner grid sources g newNi j 0 st;
        regridRows fuel' inner grid sources g newNi newNj (j + 1) st'
    end
  else Ok st.

(** The arrays and the dimensions of the result. *)
Record Regridded := {
  newLat : list num;
  newLng : list num;
  newNumPoints : num;
  newNi : num;
  newNj : num;
  newValues : list (list num)
}.

Definition regridBilinear (fuel : nat) (grid : GridMeta num)
    (sources : list (option (list num))) (g : NewGrid) : outcome Regridded :=
  let newNi := nadd (Math_round (ndiv (nsub (new_lngMax g) (new_lngMin g)) (lngStep g)))
                    (ofZ 1) in
  let newNj := nadd (Math_round (ndiv (nsub (new_latMax g) (new_latMin g)) (latStep g)))
                    (ofZ 1) in
  let newNumPoints := nmul newNi newNj in
  n ← typedArrayLength newNumPoints;
  let zeros := replicate (Z.to_nat n) (ofZ 0) in
  st ← regridRows fuel fuel grid sources g newNi newNj 0
         {| rs_lat := zeros; rs_lng := zeros;
            rs_values := (fun _ => zeros) <$> sources; rs_idx := 0 |};
  Ok {| newLat := rs_lat st; newLng := rs_lng st; newNumPoints := newNumPoints;
        newNi := newNi; newNj := newNj; newValues := rs_values st |}.

End Regrid.

Arguments NewGrid num : clear implicits.
Arguments RegridState num : clear implicits.
Arguments Regridded num : clear implicits.

(** [Math.round] of the binary64 instance: floor(x + 1/2), computed
    without rounding the sum; a result of zero keeps the sign of [x]. *)
Definition IEEE_round : HostRound spec_float :=
  {| Math_round := fun x =>
       match x with
       | S754_finite s m e =>
           if 0 <=? e then x
           else IEEE.b64 ((2 * cond_Zopp s (Zpos m) + 2 ^ (- e)) / 2 ^ (- e + 1)) 0 s
       | _ => x
       end |}.

(** ** More concrete inputs *)

Module Samples.

(** Sixteen bytes that do not start with 'GRIB'. *)
Definition noSignature : list byte := bytesOf (replicate 16 0).

(** Sections 0 and 1 of a message of declared length 200, followed by a
    grid definition section whose length field is 0. *)
Definition zeroLengthSection : list byte :=
  bytesOf (GRIB ++ [0; 0; 0; 2] ++ Inputs.u32 0 ++ Inputs.u32 200
           ++ Inputs.u32 21 ++ [1; 0; 7; 0; 0; 2; 1; 1; 7; 233; 10; 13; 12; 0; 0; 0; 1]
           ++ Inputs.u32 0 ++ [3] ++ replicate 67 0).

(** The reference time 2025-10-13 12:00:00 of the sample messages. *)
Definition referenceTime : Section1 :=
  {| length1 := 21; centreId := 7; subCentreId := 0; masterTableVersion := 2;
     localTableVersion := 1; significanceOfReferenceTime := 1;
     year := 2025; month := 10; day := 13; hour := 12; minute := 0; second := 0;
     productionStatus := 0; typeOfData := 1 |}.

End Samples.

(** ** Definitions used to state the theorems *)

Section Statements.
Context {num : Type} `{JSNumber num}.

(** parseSection3 sets [gridTemplate] exactly for template number 0. *)
Definition templateZeroOnly (secs : Sections (num := num)) : Prop :=
  forall s3, section3 secs = Some s3 ->
    (is_Some (gridTemplate s3) <-> gridDefinitionTemplateNumber s3 = 0).

(** The buffer with another edition byte, the byte at offset 7 of the
    section 0 that starts at [offset]. *)
Definition setEdition (view : list byte) (offset : Z) (b : byte) : list byte :=
  <[Z.to_nat (offset + 7) := b]> view.

(** The message with another edition. *)
Definition withEdition (e : Z) (m : Message num) : Message num :=
  {| discipline := discipline m; edition := e; totalLength := totalLength m;
     sections := sections m |}.

(** The count of groups of a parsed template is an unsigned field. *)
Definition groupsCounted (section5 : option (Section5 (num := num))) : Prop :=
  forall s5 p g, section5 = Some s5 -> template s5 = Some (ComplexPacking p g) ->
    0 <= numberOfGroups g.

(** The messages that the loop of getData does not skip, in their order,
    numbered from [idx]. *)
Fixpoint selectedFrom (filterParameters : option (list ParamName))
    (filterLevelType filterLevelValue : option Z)
    (idx : Z) (messages : list (Message num)) : list (LevelEntry num) :=
  match messages with
  | [] => []
  | msg :: rest =>
      match selectMessage filterParameters filterLevelType filterLevelValue idx msg with
      | Some e =>
          e :: selectedFrom filterParameters filterLevelType filterLevelValue (idx + 1) rest
      | None =>
          selectedFrom filterParameters filterLevelType filterLevelValue (idx + 1) rest
      end
  end.

(** [true] when the loops of the longitude format leave [x] as it is:
    each of their tests is false at [x]. *)
Definition withinFormat (format : LongitudeFormat) (x : num) : bool :=
  match format with
  | format_0_360 => negb (nle (ofZ 360) x) && negb (nlt x (ofZ 0))
  | format_180_180 => negb (nlt (ofZ 180) x) && negb (nle x (ofZ (-180)))
  | preserve => true
  end.

(** The entries for one parameter name. *)
Definition entriesOf (p : ParamName) (es : list (LevelEntry num)) : list (LevelEntry num) :=
  filter (fun e => level_parameter e = p) es.

End Statements.

(** The time unit codes below [n] have descriptions that differ. *)
Definition distinctDescriptions (n : Z) : bool :=
  forallb (fun a =>
    forallb (fun b =>
      implb (String.eqb (getTimeUnitDescription a) (getTimeUnitDescription b)) (a =? b))
      (seqZ 0 n))
    (seqZ 0 n).

(** Every integer of [from .. from + count - 1] prints in [width] characters. *)
Definition printedWidth (print : Z -> string) (width : nat) (from count : Z) : bool :=
  forallb (fun n => Nat.eqb (String.length (print n)) width) (seqZ from count).

Section RegridStatement.
Context {num : Type} `{JSNumber num}.

(** What regridBilinear stores for one parameter at row [j], column [i]
    of the new grid; [None] when it stores nothing there. *)
Definition regridValue (grid : GridMeta num) (g : NewGrid num)
    (source : option (list num)) (j i : Z) : option num :=
  let targetLat := nadd (new_latMin g) (nmul (ofZ j) (latStep g)) in
  let targetLng := nadd (new_lngMin g) (nmul (ofZ i) (lngStep g)) in
  match source with
  | Some arr =>
      match bilinearInterpolate grid arr targetLat targetLng with
      | Some v => Some (toFloat32 v)
      | None => Some (toFloat32 NaN)
      end
  | None =>
      if outsideGrid grid targetLat targetLng then Some (toFloat32 NaN) else None
  end.

End RegridStatement.

(** Values of the binary64 instance, for the statements on ranges. *)

(** The value m * 2^e as a rational. *)
Definition F2Q (m e : Z) : Q := (inject_Z m * 2 ^ e)%Q.

(** The value of a finite Number; [None] for NaN and the infinities. *)
Definition valueOf (x : spec_float) : option Q :=
  match x with
  | S754_zero _ => Some 0%Q
  | S754_finite s m e => Some (F2Q (cond_Zopp s (Z.pos m)) e)
  | _ => None
  end.

(** [x] is a number from 0 to [B]. *)
Definition atMost (B : Q) (x : spec_float) : Prop :=
  match x with
  | S754_zero _ => (0 <= B)%Q
  | S754_finite false m e => (F2Q (Z.pos m) e <= B)%Q
  | _ => False
  end.

(** * Theorems *)

(** ** Integers *)

Lemma ToInt32_small (z : Z) : - 2 ^ 31 <= z < 2 ^ 31 -> ToInt32 z = z.
Proof.
  intros Hz. unfold ToInt32.
  rewrite Z.mod_small; lia.
Qed.

Lemma ToInt32_range (z : Z) : - 2 ^ 31 <= ToInt32 z < 2 ^ 31.
Proof.
  unfold ToInt32.
  pose proof (Z.mod_pos_bound (z + 2 ^ 31) (2 ^ 32) ltac:(lia)). lia.
Qed.

Lemma ToInt32_add_l (a b : Z) : ToInt32 (ToInt32 a + b) = ToInt32 (a + b).
Proof.
  unfold ToInt32. f_equal.
  replace ((a + 2 ^ 31) mod 2 ^ 32 - 2 ^ 31 + b + 2 ^ 31)
    with ((a + 2 ^ 31) mod 2 ^ 32 + b) by lia.
  rewrite Zplus_mod_idemp_l. f_equal. lia.
Qed.

Lemma byteZ_range (b : byte) : 0 <= byteZ b < 256.
Proof.
  unfold byteZ. pose proof (Byte.to_N_bounded b). lia.
Qed.

Lemma getUint8_Ok (view : list byte) (off v : Z) :
  getUint8 view off = Ok v ->
  0 <= off < byteLength view /\ v = byteAt view off /\ 0 <= v < 256.
Proof.
  unfold getUint8, byteAt, byteLength.
  destruct (off <? 0) eqn:Hneg; [discriminate|].
  destruct (view !! Z.to_nat off) as [b|] eqn:Hb; [|discriminate].
  intros [= <-]. apply lookup_lt_Some in Hb.
  split; [lia|]. split; [reflexivity|apply byteZ_range].
Qed.

Lemma getUint8_in_range (view : list byte) (off : Z) :
  0 <= off < byteLength view -> getUint8 view off = Ok (byteAt view off).
Proof.
  unfold getUint8, byteAt, byteLength. intros Hoff.
  destruct (off <? 0) eqn:Hneg; [lia|].
  destruct (lookup_lt_is_Some_2 view (Z.to_nat off) ltac:(lia)) as [b ->].
  reflexivity.
Qed.

(** ** readBits *)

Lemma bitAt_range (view : list byte) (p : Z) : 0 <= bitAt view p < 2.
Proof. unfold bitAt. apply Z.mod_pos_bound. lia. Qed.

Lemma unsignedBits_range (view : list byte) (off : Z) (n : nat) :
  0 <= unsignedBits view off n < 2 ^ Z.of_nat n.
Proof.
  induction n as [|n IH]; [simpl; lia|].
  rewrite Nat2Z.inj_succ, Z.pow_succ_r by lia. simpl unsignedBits.
  pose proof (bitAt_range view (off + Z.of_nat n)). lia.
Qed.

Lemma unsignedBits_app (view : list byte) (off : Z) (r k : nat) :
  unsignedBits view off (r + k) =
  unsignedBits view off r * 2 ^ Z.of_nat k + unsignedBits view (off + Z.of_nat r) k.
Proof.
  induction k as [|k IH].
  - rewrite Nat.add_0_r. simpl. lia.
  - replace (r + S k)%nat with (S (r + k)) by lia. simpl unsignedBits.
    rewrite IH, Nat2Z.inj_succ, Z.pow_succ_r, Nat2Z.inj_add by lia.
    replace (off + (Z.of_nat r + Z.of_nat k)) with (off + Z.of_nat r + Z.of_nat k) by lia.
    lia.
Qed.

(** Bits that lie within one byte are a field of that byte. *)
Lemma unsignedBits_in_byte (view : list byte) (p : Z) (k : nat) :
  0 <= p -> p mod 8 + Z.of_nat k <= 8 ->
  unsignedBits view p k =
  (byteAt view (p / 8) / 2 ^ (8 - p mod 8 - Z.of_nat k)) mod 2 ^ Z.of_nat k.
Proof.
  intros Hp. induction k as [|k IH]; intros Hk.
  - simpl. rewrite Z.mod_1_r. reflexivity.
  - simpl unsignedBits. rewrite IH by lia. unfold bitAt.
    pose proof (Z.mod_pos_bound p 8 ltac:(lia)) as Ht.
    assert (Hq : (p + Z.of_nat k) / 8 = p / 8).
    { symmetry. apply (Z.div_unique _ 8 _ (p mod 8 + Z.of_nat k)); [lia|].
      pose proof (Z.div_mod p 8 ltac:(lia)). lia. }
    assert (Hm : (p + Z.of_nat k) mod 8 = p mod 8 + Z.of_nat k).
    { symmetry. apply (Z.mod_unique _ 8 (p / 8)); [lia|].
      pose proof (Z.div_mod p 8 ltac:(lia)). lia. }
    rewrite Hq, Hm.
    set (b := byteAt view (p / 8)).
    set (s := 7 - (p mod 8 + Z.of_nat k)).
    replace (8 - p mod 8 - Z.of_nat k) with (s + 1) by (unfold s; lia).
    replace (8 - p mod 8 - Z.of_nat (S k)) with s by (unfold s; lia).
    assert (Hs : 0 <= s) by (unfold s; lia).
    rewrite Z.pow_add_r, Z.pow_1_r by lia.
    rewrite <- Z.div_div by lia.
    rewrite Nat2Z.inj_succ, Z.pow_succ_r by lia.
    rewrite (Z.rem_mul_r (b / 2 ^ s) 2 (2 ^ Z.of_nat k)) by lia.
    lia.
Qed.

Lemma lor_shifted (a c k : Z) :
  0 <= k -> 0 <= c < 2 ^ k -> Z.lor (a * 2 ^ k) c = a * 2 ^ k + c.
Proof.
  intros Hk Hc. symmetry. apply Z.add_nocarry_lor.
  apply Z.bits_inj'. intros n Hn.
  rewrite Z.land_spec, Z.bits_0, <- Z.shiftl_mul_pow2 by lia.
  destruct (Z.lt_ge_cases n k) as [Hlt|Hge].
  - rewrite Z.shiftl_spec_low by lia. reflexivity.
  - destruct (Z.eq_dec c 0) as [->|Hc0]; [rewrite Z.bits_0; apply andb_false_r|].
    rewrite (Z.bits_above_log2 c n); [apply andb_false_r|lia|].
    apply Z.log2_lt_pow2; [lia|].
    apply Z.lt_le_trans with (2 ^ k); [lia|].
    apply Z.pow_le_mono_r; lia.
Qed.

(** One turn of the loop appends the next [bitsToRead] bits, as long as
    the value stays below 2^31. *)
Lemma readBits_loop_correct (view : list byte) (bitOffset numberOfBits : Z) (fuel : nat)
    (bitsRead : Z) :
  0 <= bitOffset -> numberOfBits <= 31 ->
  (bitOffset + numberOfBits - 1) / 8 < byteLength view ->
  0 <= bitsRead <= numberOfBits ->
  numberOfBits - bitsRead <= Z.of_nat fuel ->
  readBits_loop fuel view (bitOffset / 8) (Z.rem bitOffset 8) numberOfBits
    (unsignedBits view bitOffset (Z.to_nat bitsRead)) bitsRead
  = Ok (unsignedBits view bitOffset (Z.to_nat numberOfBits)).
Proof.
  intros Hoff Hn Hlast. rewrite (Z.rem_mod_nonneg bitOffset 8) by lia.
  revert bitsRead.
  induction fuel as [|fuel IH]; intros r Hr Hfuel.
  - simpl. assert (r = numberOfBits) as -> by lia.
    rewrite Z.ltb_irrefl. reflexivity.
  - cbn [readBits_loop].
    destruct (r <? numberOfBits) eqn:Hlt; [|do 2 f_equal; lia].
    apply Z.ltb_lt in Hlt.
    pose proof (Z.mod_pos_bound bitOffset 8 ltac:(lia)) as Ht.
    rewrite Z.rem_mod_nonneg by lia.
    pose proof (Z.div_mod bitOffset 8 ltac:(lia)) as Hdm.
    set (p := bitOffset + r).
    assert (Hp8 : bitOffset / 8 + (bitOffset mod 8 + r) / 8 = p / 8).
    { unfold p. replace (bitOffset + r) with ((bitOffset mod 8 + r) + bitOffset / 8 * 8) by lia.
      rewrite Z.div_add by lia. lia. }
    assert (Hpm : (bitOffset mod 8 + r) mod 8 = p mod 8).
    { unfold p. replace (bitOffset + r) with ((bitOffset mod 8 + r) + bitOffset / 8 * 8) by lia.
      rewrite Z.mod_add by lia. reflexivity. }
    rewrite Hp8, Hpm.
    pose proof (Z.mod_pos_bound p 8 ltac:(lia)) as Hpt.
    assert (Hple : p / 8 <= (bitOffset + numberOfBits - 1) / 8)
      by (apply Z.div_le_mono; unfold p; lia).
    assert (Hp0 : 0 <= p / 8) by (apply Z.div_pos; unfold p; lia).
    rewrite getUint8_in_range by lia. cbn [mbind outcome_bind].
    set (k := Z.min (numberOfBits - r) (8 - p mod 8)).
    assert (Hk : 1 <= k <= 8) by (unfold k; lia).
    set (b := byteAt view (p / 8)).
    assert (Hb : 0 <= b < 256).
    { destruct (getUint8_Ok view (p / 8) b (getUint8_in_range view (p / 8) ltac:(lia)))
        as (_ & _ & Hb). exact Hb. }
    assert (Hmask : js_shl 1 k - 1 = Z.ones k).
    { unfold js_shl. rewrite (ToInt32_small 1) by lia.
      rewrite (Z.mod_small k 32) by lia.
      rewrite Z.shiftl_mul_pow2, Z.mul_1_l by lia.
      rewrite Z.ones_equiv, ToInt32_small; [lia|].
      assert (2 ^ k <= 2 ^ 8) by (apply Z.pow_le_mono_r; lia). lia. }
    rewrite Hmask.
    set (sh := 8 - p mod 8 - k).
    assert (Hsh : 0 <= sh <= 7) by (unfold sh; lia).
    assert (Hchunk : js_and (js_shr b sh) (Z.ones k) = (b / 2 ^ sh) mod 2 ^ k).
    { unfold js_and, js_shr. rewrite (ToInt32_small b) by lia.
      rewrite (Z.mod_small sh 32) by lia.
      rewrite Z.shiftr_div_pow2 by lia.
      assert (0 <= b / 2 ^ sh <= b).
      { split; [apply Z.div_pos; lia|].
        apply Z.div_le_upper_bound; [lia|]. nia. }
      rewrite (ToInt32_small (b / 2 ^ sh)) by lia.
      rewrite ToInt32_small, Z.land_ones; [reflexivity|lia|].
      rewrite Z.ones_equiv.
      assert (2 ^ k <= 2 ^ 8) by (apply Z.pow_le_mono_r; lia). lia. }
    rewrite Hchunk.
    pose proof (unsignedBits_range view bitOffset (Z.to_nat r)) as Hv.
    rewrite Z2Nat.id in Hv by lia.
    set (v := unsignedBits view bitOffset (Z.to_nat r)) in *.
    assert (Hpow : 2 ^ r * 2 ^ k <= 2 ^ 31).
    { rewrite <- Z.pow_add_r by lia. apply Z.pow_le_mono_r; unfold k; lia. }
    assert (Hk1 : 1 <= 2 ^ k) by (apply (Z.pow_le_mono_r 2 0 k); lia).
    assert (Hr31 : 2 ^ r <= 2 ^ 31) by nia.
    assert (Hshl : js_shl v k = v * 2 ^ k).
    { unfold js_shl. rewrite (ToInt32_small v) by lia.
      rewrite (Z.mod_small k 32) by lia.
      rewrite Z.shiftl_mul_pow2 by lia.
      apply ToInt32_small. nia. }
    rewrite Hshl.
    pose proof (Z.mod_pos_bound (b / 2 ^ sh) (2 ^ k) ltac:(lia)) as Hc.
    unfold js_or.
    rewrite (ToInt32_small (v * 2 ^ k)) by nia.
    rewrite (ToInt32_small ((b / 2 ^ sh) mod 2 ^ k)).
    2:{ assert (2 ^ k <= 2 ^ 8) by (apply Z.pow_le_mono_r; lia). lia. }
    rewrite lor_shifted by lia.
    replace (v * 2 ^ k + (b / 2 ^ sh) mod 2 ^ k)
      with (unsignedBits view bitOffset (Z.to_nat (r + k))).
    + apply IH; unfold k; lia.
    + rewrite Z2Nat.inj_add, unsignedBits_app, !Z2Nat.id by lia.
      fold v. f_equal.
      change (bitOffset + r) with p.
      assert (Hk0 : 0 <= k) by lia.
      rewrite unsignedBits_in_byte; rewrite ?Z2Nat.id by exact Hk0;
        [reflexivity|unfold p; lia|lia].
Qed.

Lemma lastByte_bound (bitOffset numberOfBits len : Z) :
  (len <=? (bitOffset + numberOfBits - 1) / 8) = true <-> 8 * len < bitOffset + numberOfBits.
Proof.
  rewrite Z.leb_le. split; intros Hle.
  - pose proof (Z.mul_div_le (bitOffset + numberOfBits - 1) 8 ltac:(lia)). lia.
  - apply Z.div_le_lower_bound; lia.
Qed.

(** For up to 31 bits within the buffer, readBits returns the unsigned
    big-endian value of the bits, which lies in [0, 2^n). *)
Lemma readBits_unsigned (view : list byte) (bitOffset numberOfBits : Z) :
  0 <= bitOffset -> 0 <= numberOfBits <= 31 ->
  bitOffset + numberOfBits <= 8 * byteLength view ->
  readBits view bitOffset numberOfBits
  = Ok (unsignedBits view bitOffset (Z.to_nat numberOfBits))
  /\ 0 <= unsignedBits view bitOffset (Z.to_nat numberOfBits) < 2 ^ numberOfBits.
Proof.
  intros Hoff Hn Hin. split.
  - unfold readBits.
    destruct (byteLength view <=? (bitOffset + numberOfBits - 1) / 8) eqn:Hchk.
    + apply lastByte_bound in Hchk. lia.
    + apply Z.leb_gt in Hchk.
      apply (readBits_loop_correct view bitOffset numberOfBits
               (Z.to_nat numberOfBits) 0); lia.
  - pose proof (unsignedBits_range view bitOffset (Z.to_nat numberOfBits)) as Hr.
    rewrite Z2Nat.id in Hr by lia. exact Hr.
Qed.

Lemma readBits_loop_not_OutOfBounds (fuel : nat) (view : list byte)
    (byteOffset bitShift numberOfBits value bitsRead : Z) :
  readBits_loop fuel view byteOffset bitShift numberOfBits value bitsRead
  <> Throw OutOfBounds.
Proof.
  revert value bitsRead. induction fuel as [|fuel IH]; intros value r; cbn [readBits_loop].
  - destruct (r <? numberOfBits); discriminate.
  - destruct (r <? numberOfBits); [|discriminate].
    unfold getUint8.
    destruct (_ <? 0); [discriminate|].
    destruct (view !! _); [|discriminate].
    cbn [mbind outcome_bind]. apply IH.
Qed.

(** readBits throws its out-of-bounds error exactly when the bits end
    beyond the buffer. *)
Lemma readBits_throws_iff (view : list byte) (bitOffset numberOfBits : Z) :
  readBits view bitOffset numberOfBits = Throw OutOfBounds
  <-> 8 * byteLength view < bitOffset + numberOfBits.
Proof.
  unfold readBits.
  destruct (byteLength view <=? (bitOffset + numberOfBits - 1) / 8) eqn:Hchk.
  - apply lastByte_bound in Hchk. tauto.
  - split.
    + intros Hthrow. exfalso. revert Hthrow. apply readBits_loop_not_OutOfBounds.
    + intros Hlt. apply lastByte_bound in Hlt. congruence.
Qed.

(** C8 (code defect).  The claim asks of readBits, for every width n up
    to 32, the unsigned big-endian value of the n bits, a number in
    [0, 2^n).  The code builds the value with the 32-bit operators [<<]
    and [|]: on four bytes 0xFF it returns -1 for n = 32, where the
    unsigned value is 4294967295.  (Up to 31 bits the claim holds, see
    [readBits_unsigned]; the out-of-bounds condition holds for every n,
    see [readBits_throws_iff].) *)
Theorem readBits_32_bits_negative :
  readBits Inputs.ones 0 32 = Ok (-1)
  /\ unsignedBits Inputs.ones 0 32 = 4294967295
  /\ 0 + 32 <= 8 * byteLength Inputs.ones.
Proof. vm_compute. repeat split; discriminate. Qed.

(** ** decodeSimplePacking *)

Section Decoders.
Context {num : Type} `{JSNumber num}.

(** With no bits per value the result is [numberOfPoints] copies of the
    reference value itself. *)
Lemma decodeSimplePacking_no_bits (view : list byte) (offset dataLength : Z)
    (t : Packing num) (numberOfPoints : Z) :
  numberOfBits t = 0 ->
  decodeSimplePacking view offset dataLength t numberOfPoints
  = Ok (replicate (Z.to_nat numberOfPoints) (referenceValue t)).
Proof. intros Hbits. unfold decodeSimplePacking. rewrite Hbits. reflexivity. Qed.

End Decoders.

(** C3 (code defect).  The claim gives a constant field the value
    R x 10^(-D).  With bits-per-value 0 decodeSimplePacking fills the
    array with R and never applies the decimal scale: for R = 1, D = -1
    and nine points it returns nine times 1, where R x 10^(-D) is 10.
    (For D = 0 the two agree, as in the claim's example.) *)
Theorem decodeSimplePacking_constant_ignores_D :
  decodeSimplePacking Inputs.ones 0 4 Inputs.constantField 9
  = Ok (replicate 9 (IEEE.of_Z 1))
  /\ nmul (referenceValue Inputs.constantField)
          (Math_pow 10 (- decimalScaleFactor Inputs.constantField))
     = IEEE.of_Z 10.
Proof. vm_compute. split; reflexivity. Qed.

(** ** parse *)

Section Parse.
Context {num : Type} `{JSNumber num}.

(** With fewer than 16 bytes left, parseSection0 returns null without
    moving the offset, parseMessage passes the null on, and the loop of
    parse comes back to the same state: it never ends. *)
Lemma parseLoop_short_tail (fuel : nat) (view : list byte) (offset : Z)
    (messages : list (Message num)) :
  offset < byteLength view < offset + 16 ->
  parseLoop fuel view offset messages = OutOfFuel.
Proof.
  intros [Hlo Hhi]. induction fuel as [|fuel IH]; cbn [parseLoop].
  - destruct (offset <? byteLength view) eqn:E; [reflexivity|].
    apply Z.ltb_ge in E. lia.
  - destruct (offset <? byteLength view) eqn:E; [|apply Z.ltb_ge in E; lia].
    unfold parseMessage, parseSection0.
    destruct (byteLength view <? offset + 16) eqn:E16; [|apply Z.ltb_ge in E16; lia].
    cbn [mbind outcome_bind]. exact IH.
Qed.

End Parse.

(** C4 (code defect).  The claim says that parse terminates on every
    buffer, also on a tail of fewer than 16 bytes.  On a buffer of a
    single byte the loop of parse never ends: no amount of fuel gets a
    result out of it. *)
Theorem parse_one_byte_never_returns (fuel : nat) :
  parse (num := spec_float) fuel Inputs.oneByte = OutOfFuel.
Proof. apply parseLoop_short_tail. vm_compute. split; reflexivity. Qed.

(** C7, counterexample.  A message of 41 bytes whose edition byte is 1
    parses without an error, and the message keeps edition 1. *)
Lemma parse_accepts_edition_1 :
  exists m : Message spec_float,
    parse 3 Inputs.editionOne = Ok [m] /\ edition m = 1 /\ edition m <> 2.
Proof. eexists. vm_compute. repeat split. discriminate. Qed.

(** C10 (code defect).  The claim says getData filters on the level type
    and value that getInventory shows.  For the template data of a
    '10 m above ground' field, getInventory takes the type from byte 13
    (103) and the value from bytes 14 to 18 (10); getData takes the type
    from byte 9 (0) and the value from bytes 11 to 14 (2189056), so the
    filter levelType = 103 drops the message. *)
Theorem level_filter_disagrees_with_inventory :
  inventoryLevel Inputs.tenMetres = Some (103, IEEE.of_Z 10)
  /\ dataLevel Inputs.tenMetres = (Some 0, Some 2189056)
  /\ passesFilters None (Some 103) None Inputs.tenMetres = false
  /\ 19 <= Z.of_nat (length Inputs.tenMetres).
Proof. vm_compute. repeat split; discriminate. Qed.

(** C1, counterexample.  In the grid section [Inputs.europe] (86 x 47
    points), parseSection3 at offset 0 finds ni = 86, read at byte 30 of
    the section; at template base + 30, that is byte 14 + 30 of the
    section, the buffer holds 652. *)
Lemma ni_not_read_at_template_base_plus_30 :
  exists (s3 : Section3 (num := spec_float)) (gt : GridTemplate0 spec_float) (offset' : Z),
    parseSection3 Inputs.europe 0 = Ok (s3, offset')
    /\ gridDefinitionTemplateNumber s3 = 0
    /\ gridTemplate s3 = Some gt
    /\ ni gt = 86
    /\ getUint32 Inputs.europe (0 + 14 + 30) = Ok 652
    /\ getUint32 Inputs.europe (0 + 14 + 30) <> Ok (ni gt).
Proof. do 3 eexists. vm_compute. repeat split. discriminate. Qed.

(** C2, counterexample.  First-order differences, two extra octets,
    h1 = 1, minimum 0, one group of two values with reference 2^31 - 1:
    group unpacking leaves I = [2147483647; 2147483647], and the decoder
    ends with I[1] = -2147483648, not I[1] + g_min + I[0] = 2147483648:
    the working array is an Int32Array. *)
Lemma first_order_sum_wraps :
  readSpatialHeader Inputs.wideReferenceData 0 1 2 = Ok (1, 0, 0, 32)
  /\ unpackedField Inputs.wideReferenceData 0 8 Inputs.wideReference
       (Inputs.oneGroup 1 2) 2 32 = Ok (Some [2147483647; 2147483647])
  /\ integerField Inputs.wideReferenceData 0 8 Inputs.wideReference
       (Inputs.oneGroup 1 2) 2 = Ok (Some [1; -2147483648])
  /\ -2147483648 <> 2147483647 + 0 + 1.
Proof. vm_compute. repeat split; discriminate. Qed.

(** C5 (code defect).  The claim asks that interpolation at the
    coordinates of a grid node return the value of that node, in any
    scanning mode.  bilinearInterpolate counts rows from latMin upwards
    and never looks at the scanning mode that getData used to lay out the
    rows.  A column of two points scanned north to south (scanning mode
    0) has lat = [1; 0]; for the field [10; 20], interpolation at the
    first node (lat[0], lng[0]) returns 20, the value of the other
    node. *)
Theorem bilinear_north_to_south_swaps_rows :
  exists (grid : GridTemplate0 spec_float) (d : Coordinates spec_float),
    Inputs.gridOf Inputs.northToSouth = Some grid
    /\ scanningMode grid = 0
    /\ getDataCoordinates 0 preserve grid = Ok d
    /\ lat d = [IEEE.of_Z 1; IEEE.of_Z 0]
    /\ bilinearInterpolate (grid_meta d) [IEEE.of_Z 10; IEEE.of_Z 20]
         (element (lat d) 0) (element (lng d) 0) = Some (IEEE.of_Z 20)
    /\ element [IEEE.of_Z 10; IEEE.of_Z 20] 0 = IEEE.of_Z 10.
Proof.
  do 2 eexists.
  split; [vm_compute; reflexivity|].
  split; [vm_compute; reflexivity|].
  split; [vm_compute; reflexivity|].
  vm_compute. repeat split.
Qed.

(** C6, counterexample.  For a calm point, ugrd = +0 and vgrd = +0, the
    arguments of atan2 are -0 and -0, atan2 is -pi and the direction is
    180, whatever the host's approximation of atan2 elsewhere. *)
Lemma calm_wind_direction_is_180 :
  ~ (exists approx : spec_float -> spec_float -> spec_float,
       windDirection (H0 := IEEE.host approx) 1 [IEEE.of_Z 0] [IEEE.of_Z 0]
       = [IEEE.of_Z 0]).
Proof. intros [approx Hdir]. vm_compute in Hdir. discriminate. Qed.

(** ** Longitude format *)

Section Longitudes.
Context {num : Type} `{JSNumber num}.

Lemma whileGe360_done (fuel : nat) (x : num) :
  nle (ofZ 360) x = false -> whileGe360 fuel x = Ok x.
Proof. intros Hx. destruct fuel; cbn [whileGe360]; rewrite Hx; reflexivity. Qed.

Lemma whileLt0_done (fuel : nat) (x : num) :
  nlt x (ofZ 0) = false -> whileLt0 fuel x = Ok x.
Proof. intros Hx. destruct fuel; cbn [whileLt0]; rewrite Hx; reflexivity. Qed.

Lemma whileLt0_step (fuel : nat) (x : num) :
  nlt x (ofZ 0) = true ->
  whileLt0 (S fuel) x = whileLt0 fuel (toFloat32 (nadd x (ofZ 360))).
Proof. intros Hx. cbn [whileLt0]. rewrite Hx. reflexivity. Qed.

(** In the format 'preserve' the longitudes stay as computed. *)
Lemma normalizeLongitudes_preserve (fuel : nat) (lng : list num) :
  normalizeLongitudes fuel preserve lng = Ok lng.
Proof.
  unfold normalizeLongitudes. induction lng as [|x lng IH]; [reflexivity|].
  cbn [mapM normalizeLongitude mbind outcome_bind] in *. rewrite IH. reflexivity.
Qed.

End Longitudes.

(** The float32 nearest to -0.000001 goes to 360 in the format '0-360'. *)
Lemma normalizeLongitude_just_below_0 (fuel : nat) :
  normalizeLongitude (S fuel) format_0_360
    (IEEE.to_float32 (SFdiv 53 1024 (IEEE.of_Z (-1)) (IEEE.of_Z 1000000)))
  = Ok (IEEE.of_Z 360).
Proof.
  unfold normalizeLongitude.
  rewrite whileGe360_done by (vm_compute; reflexivity).
  cbn [mbind outcome_bind].
  rewrite whileLt0_step by (vm_compute; reflexivity).
  replace (toFloat32 (nadd (IEEE.to_float32 (SFdiv 53 1024 (IEEE.of_Z (-1))
             (IEEE.of_Z 1000000))) (ofZ 360)))
    with (IEEE.of_Z 360) by (vm_compute; reflexivity).
  apply whileLt0_done. vm_compute. reflexivity.
Qed.

(** C9 (code defect).  The claim puts every longitude in [0, 360) under
    the format '0-360'.  For the one-point grid at longitude -0.000001
    the loop adds 360 once and the store into the Float32Array rounds
    359.999999 to 360: the array ends as [360], and 360 < 360 is false. *)
Theorem longitude_0_360_reaches_360 (fuel : nat) :
  exists (grid : GridTemplate0 spec_float) (d : Coordinates spec_float),
    Inputs.gridOf Inputs.justWestOfGreenwich = Some grid
    /\ getDataCoordinates (S fuel) format_0_360 grid = Ok d
    /\ lng d = [IEEE.of_Z 360]
    /\ nlt (IEEE.of_Z 360) (IEEE.of_Z 360) = false.
Proof.
  do 2 eexists.
  split; [vm_compute; reflexivity|].
  split.
  - unfold getDataCoordinates, normalizeLongitudes.
    match goal with
    | |- context [lngArray ?g] =>
        replace (lngArray g)
          with [IEEE.to_float32 (SFdiv 53 1024 (IEEE.of_Z (-1)) (IEEE.of_Z 1000000))]
          by (vm_compute; reflexivity)
    end.
    cbn [mapM mbind outcome_bind]. rewrite normalizeLongitude_just_below_0.
    cbn [mbind outcome_bind mret outcome_ret]. reflexivity.
  - split; reflexivity.
Qed.

(** ** Inversion of a sequence of calls that ended well *)

Ltac bind_inv H :=
  repeat match type of H with
  | mbind _ ?m = Ok _ =>
      let E := fresh "E" in
      destruct m eqn:E; cbn [mbind outcome_bind] in H;
      [|discriminate H|discriminate H]
  | (let '(_, _) := ?x in _) = Ok _ => destruct x
  end.

(** ** Section 0 and the edition *)

Lemma fourBytes_in_range (view : list byte) (offset : Z) :
  0 <= offset -> offset + 4 <= byteLength view ->
  exists s, fourBytes view offset = Ok s.
Proof.
  intros Hlo Hhi. unfold fourBytes.
  rewrite !getUint8_in_range by lia. cbn [mbind outcome_bind]. eauto.
Qed.

Lemma getUint32_in_range (view : list byte) (offset : Z) :
  0 <= offset -> offset + 4 <= byteLength view ->
  exists v, getUint32 view offset = Ok v.
Proof.
  intros Hlo Hhi. unfold getUint32.
  rewrite !getUint8_in_range by lia. cbn [mbind outcome_bind]. eauto.
Qed.

(** ** Section 3 and grid template 3.0 *)

Section Grid.
Context {num : Type} `{JSNumber num}.

(** Where parseGridTemplate0 reads its fields, counted from its argument
    (the template base). *)
Lemma parseGridTemplate0_reads (view : list byte) (base : Z) (gt : GridTemplate0 num) :
  parseGridTemplate0 view base = Ok gt ->
  exists latFirst lonFirst iInc jInc : Z,
    getUint32 view (base + 16) = Ok (ni gt)
    /\ getUint32 view (base + 20) = Ok (nj gt)
    /\ getInt32 view (base + 32) = Ok latFirst
    /\ latitudeOfFirstGridPoint gt = ndiv (ofZ latFirst) (ofZ 1000000)
    /\ getInt32 view (base + 36) = Ok lonFirst
    /\ longitudeOfFirstGridPoint gt = ndiv (ofZ lonFirst) (ofZ 1000000)
    /\ getUint8 view (base + 40) = Ok (resolutionAndComponentFlags gt)
    /\ getUint32 view (base + 49) = Ok iInc
    /\ iDirectionIncrement gt = ndiv (ofZ iInc) (ofZ 1000000)
    /\ getUint32 view (base + 53) = Ok jInc
    /\ jDirectionIncrement gt = ndiv (ofZ jInc) (ofZ 1000000)
    /\ getUint8 view (base + 57) = Ok (scanningMode gt).
Proof.
  intros Hgt. unfold parseGridTemplate0 in Hgt.
  bind_inv Hgt. injection Hgt as <-. cbn.
  do 4 eexists. repeat split; eassumption.
Qed.

(** C1, amended.  For a section 3 with template number 0 the fields are
    read at these offsets from the start of the section (the template
    base is the section offset + 14, and the offsets from the base are
    16, 20, 32, 36, 40, 49, 53, 57): ni at +30, nj at +34, lat_first at
    +46, lon_first at +50, the resolution and component flags at +54,
    i_increment at +63, j_increment at +67, the scanning mode at +71.
    lat_first and lon_first are signed 32-bit integers divided by 1e6,
    the increments unsigned ones divided by 1e6. *)
Theorem parseSection3_template0_offsets (view : list byte) (offset offset' : Z)
    (s3 : Section3) :
  parseSection3 view offset = Ok (s3, offset') ->
  gridDefinitionTemplateNumber s3 = 0 ->
  exists (gt : GridTemplate0 num) (latFirst lonFirst iInc jInc : Z),
    gridTemplate s3 = Some gt
    /\ getUint32 view (offset + 30) = Ok (ni gt)
    /\ getUint32 view (offset + 34) = Ok (nj gt)
    /\ getInt32 view (offset + 46) = Ok latFirst
    /\ latitudeOfFirstGridPoint gt = ndiv (ofZ latFirst) (ofZ 1000000)
    /\ getInt32 view (offset + 50) = Ok lonFirst
    /\ longitudeOfFirstGridPoint gt = ndiv (ofZ lonFirst) (ofZ 1000000)
    /\ getUint8 view (offset + 54) = Ok (resolutionAndComponentFlags gt)
    /\ getUint32 view (offset + 63) = Ok iInc
    /\ iDirectionIncrement gt = ndiv (ofZ iInc) (ofZ 1000000)
    /\ getUint32 view (offset + 67) = Ok jInc
    /\ jDirectionIncrement gt = ndiv (ofZ jInc) (ofZ 1000000)
    /\ getUint8 view (offset + 71) = Ok (scanningMode gt).
Proof.
  intros Hs3 Hnumber. unfold parseSection3 in Hs3.
  bind_inv Hs3. injection Hs3 as Hrec Hoff. subst s3 offset'. cbn in Hnumber |- *. subst.
  match goal with
  | Ht : (if 0 =? 0 then _ else _) = Ok _ |- _ =>
      cbn [Z.eqb] in Ht; bind_inv Ht; injection Ht as <-
  end.
  match goal with
  | Ht : parseGridTemplate0 _ _ = Ok _ |- _ =>
      destruct (parseGridTemplate0_reads _ _ _ Ht)
        as (latFirst & lonFirst & iInc & jInc & Hr)
  end.
  eexists _, latFirst, lonFirst, iInc, jInc.
  replace (offset + 30) with (offset + 14 + 16) by lia.
  replace (offset + 34) with (offset + 14 + 20) by lia.
  replace (offset + 46) with (offset + 14 + 32) by lia.
  replace (offset + 50) with (offset + 14 + 36) by lia.
  replace (offset + 54) with (offset + 14 + 40) by lia.
  replace (offset + 63) with (offset + 14 + 49) by lia.
  replace (offset + 67) with (offset + 14 + 53) by lia.
  replace (offset + 71) with (offset + 14 + 57) by lia.
  split; [reflexivity|exact Hr].
Qed.

End Grid.

Lemma parseSection3_template0_offsets_witness :
  exists (s3 : Section3 (num := spec_float)) (offset' : Z) (gt : GridTemplate0 spec_float),
    parseSection3 Inputs.europe 0 = Ok (s3, offset')
    /\ gridDefinitionTemplateNumber s3 = 0
    /\ gridTemplate s3 = Some gt
    /\ getUint32 Inputs.europe (0 + 30) = Ok (ni gt)
    /\ getUint32 Inputs.europe (0 + 34) = Ok (nj gt)
    /\ getUint8 Inputs.europe (0 + 54) = Ok (resolutionAndComponentFlags gt)
    /\ getUint8 Inputs.europe (0 + 71) = Ok (scanningMode gt).
Proof.
  destruct (parseSection3 (num := spec_float) Inputs.europe 0)
    as [[s3 offset']| |] eqn:Hs3; [|vm_compute in Hs3; discriminate..].
  assert (Hnumber : gridDefinitionTemplateNumber s3 = 0).
  { vm_compute in Hs3. injection Hs3 as <- _. reflexivity. }
  destruct (parseSection3_template0_offsets Inputs.europe 0 offset' s3 Hs3 Hnumber)
    as (gt & latFirst & lonFirst & iInc & jInc & Hgt & Hni & Hnj & _ & _ & _ & _
        & Hflags & _ & _ & _ & _ & Hmode).
  exists s3, offset', gt. repeat split; assumption.
Defined.

(** ** Complex packing: the reversal of spatial differencing *)

Lemma ToInt32_add_twice (a m b : Z) :
  ToInt32 (ToInt32 (a + m) + b) = ToInt32 (a + m + b).
Proof. apply ToInt32_add_l. Qed.

Lemma ToInt32_add_sub (a m b c : Z) :
  ToInt32 (ToInt32 (a + m) + 2 * b - c) = ToInt32 (a + m + 2 * b - c).
Proof.
  replace (ToInt32 (a + m) + 2 * b - c) with (ToInt32 (a + m) + (2 * b - c)) by lia.
  rewrite ToInt32_add_l. f_equal. lia.
Qed.

(** The first-order loop after [k] turns: the entries up to [k] obey the
    recurrence, the entries beyond are untouched. *)
Lemma undiff1_loop (m : Z) (U : list Z) (k : nat) :
  (k < length U)%nat ->
  let R := foldl (undiff1 m) U (seq 1 k) in
  length R = length U
  /\ R !!! 0%nat = U !!! 0%nat
  /\ (forall i : nat, (1 <= i <= k)%nat ->
        R !!! i = ToInt32 (U !!! i + m + R !!! (i - 1)%nat))
  /\ (forall i : nat, (k < i)%nat -> R !!! i = U !!! i).
Proof.
  induction k as [|k IH]; intros Hk; cbn zeta.
  - cbn. repeat split; intros; try lia; reflexivity.
  - rewrite seq_S, foldl_snoc. cbn [Nat.add].
    destruct (IH ltac:(lia)) as (Hlen & H0 & Hrec & Hrest). clear IH.
    set (R := foldl (undiff1 m) U (seq 1 k)) in *.
    unfold undiff1.
    set (a := <[S k := ToInt32 (R !!! S k + m)]> R).
    assert (Hlena : length a = length U) by (unfold a; rewrite length_insert; exact Hlen).
    assert (Ha : a !!! S k = ToInt32 (U !!! S k + m)).
    { unfold a. rewrite list_lookup_total_insert_eq by lia. rewrite Hrest by lia. reflexivity. }
    assert (Hother : forall i : nat, i <> S k -> a !!! i = R !!! i).
    { intros i Hi. unfold a. apply list_lookup_total_insert_ne. congruence. }
    assert (Hnew : forall i : nat, i <> S k ->
              <[S k := ToInt32 (a !!! S k + a !!! (S k - 1)%nat)]> a !!! i = R !!! i).
    { intros i Hi. rewrite list_lookup_total_insert_ne by congruence. apply Hother, Hi. }
    split; [rewrite length_insert; exact Hlena|].
    split; [rewrite Hnew by lia; exact H0|].
    split.
    + intros i Hi. destruct (decide (i = S k)) as [->|Hne].
      * rewrite list_lookup_total_insert_eq by lia.
        rewrite Hnew by lia. rewrite Ha, (Hother (S k - 1)%nat) by lia.
        apply ToInt32_add_twice.
      * rewrite !Hnew by lia. apply Hrec. lia.
    + intros i Hi. rewrite Hnew by lia. apply Hrest. lia.
Qed.

(** The second-order loop after [k] turns, which start at index 2. *)
Lemma undiff2_loop (m : Z) (U : list Z) (k : nat) :
  (S k < length U)%nat ->
  let R := foldl (undiff2 m) U (seq 2 k) in
  length R = length U
  /\ R !!! 0%nat = U !!! 0%nat
  /\ R !!! 1%nat = U !!! 1%nat
  /\ (forall i : nat, (2 <= i <= S k)%nat ->
        R !!! i = ToInt32 (U !!! i + m + 2 * R !!! (i - 1)%nat - R !!! (i - 2)%nat))
  /\ (forall i : nat, (S k < i)%nat -> R !!! i = U !!! i).
Proof.
  induction k as [|k IH]; intros Hk; cbn zeta.
  - cbn. repeat split; intros; try lia; reflexivity.
  - rewrite seq_S, foldl_snoc. cbn [Nat.add].
    destruct (IH ltac:(lia)) as (Hlen & H0 & H1 & Hrec & Hrest). clear IH.
    set (R := foldl (undiff2 m) U (seq 2 k)) in *.
    unfold undiff2.
    set (n := S (S k)).
    set (a := <[n := ToInt32 (R !!! n + m)]> R).
    assert (Hlena : length a = length U) by (unfold a; rewrite length_insert; exact Hlen).
    assert (Ha : a !!! n = ToInt32 (U !!! n + m)).
    { unfold a. rewrite list_lookup_total_insert_eq by lia.
      rewrite Hrest by (unfold n; lia). reflexivity. }
    assert (Hother : forall i : nat, i <> n -> a !!! i = R !!! i).
    { intros i Hi. unfold a. apply list_lookup_total_insert_ne. congruence. }
    assert (Hnew : forall i : nat, i <> n ->
              <[n := ToInt32 (a !!! n + 2 * a !!! (n - 1)%nat - a !!! (n - 2)%nat)]> a !!! i
              = R !!! i).
    { intros i Hi. rewrite list_lookup_total_insert_ne by congruence. apply Hother, Hi. }
    split; [rewrite length_insert; exact Hlena|].
    split; [rewrite Hnew by (unfold n; lia); exact H0|].
    split; [rewrite Hnew by (unfold n; lia); exact H1|].
    split.
    + intros i Hi. destruct (decide (i = n)) as [->|Hne].
      * rewrite list_lookup_total_insert_eq by lia.
        rewrite !Hnew by (unfold n; lia).
        rewrite Ha, (Hother (n - 1)%nat), (Hother (n - 2)%nat) by (unfold n; lia).
        apply ToInt32_add_sub.
      * rewrite !Hnew by (unfold n in *; lia). apply Hrec. unfold n in *. lia.
    + intros i Hi. rewrite Hnew by (unfold n; lia). apply Hrest. lia.
Qed.

(** Group unpacking keeps the length of the working array. *)
Lemma unpackWide_length (count : nat) (view : list byte)
    (gref gwidth maxBitOffset N : Z) (st st' : unpackState) :
  length st.1.1 = Z.to_nat N -> 0 <= st.1.2 ->
  unpackWide count view gref gwidth maxBitOffset N st = Ok st' ->
  length st'.1.1 = Z.to_nat N /\ 0 <= st'.1.2.
Proof.
  revert st. induction count as [|count IH]; intros [[ifld n] bitOffset];
    cbn [unpackWide fst snd]; intros Hlen Hn Hst.
  - injection Hst as <-. auto.
  - destruct (n <? N) eqn:HnN; [|injection Hst as <-; auto].
    apply Z.ltb_lt in HnN.
    destruct (maxBitOffset <? bitOffset + gwidth).
    + injection Hst as <-. cbn [fst snd]. split; [|lia].
      unfold zeroFill. rewrite length_app, length_take, length_replicate. lia.
    + destruct (readBits view bitOffset gwidth) as [v| |];
        cbn [mbind outcome_bind] in Hst; try discriminate.
      apply IH in Hst; [exact Hst| |]; cbn [fst snd].
      * rewrite length_insert. exact Hlen.
      * lia.
Qed.

Lemma unpackFlat_length (count : nat) (gref N : Z) (st : unpackState) :
  length st.1.1 = Z.to_nat N -> 0 <= st.1.2 ->
  length (unpackFlat count gref N st).1.1 = Z.to_nat N
  /\ 0 <= (unpackFlat count gref N st).1.2.
Proof.
  revert st. induction count as [|count IH]; intros [[ifld n] bitOffset];
    cbn [unpackFlat fst snd]; intros Hlen Hn; [auto|].
  destruct (n <? N); [|auto].
  apply IH; cbn [fst snd]; [rewrite length_insert; exact Hlen|lia].
Qed.

Lemma unpackGroups_length (groups : list (Z * Z * Z)) (view : list byte)
    (maxBitOffset N : Z) (st st' : unpackState) :
  length st.1.1 = Z.to_nat N -> 0 <= st.1.2 ->
  unpackGroups groups view maxBitOffset N st = Ok st' ->
  length st'.1.1 = Z.to_nat N.
Proof.
  revert st. induction groups as [|[[gref gwidth] glen] groups IH];
    intros st Hlen Hn Hst; cbn [unpackGroups] in Hst.
  - injection Hst as <-. exact Hlen.
  - destruct (negb (gwidth =? 0)).
    + destruct (unpackWide _ view gref gwidth maxBitOffset N st) as [st1| |] eqn:Hw;
        cbn [mbind outcome_bind] in Hst; try discriminate.
      destruct (unpackWide_length _ _ _ _ _ _ _ _ Hlen Hn Hw) as [Hlen1 Hn1].
      destruct (N <=? st1.1.2); [injection Hst as <-; exact Hlen1|].
      exact (IH _ Hlen1 Hn1 Hst).
    + destruct (unpackFlat_length (Z.to_nat glen) gref N st Hlen Hn) as [Hlen1 Hn1].
      exact (IH _ Hlen1 Hn1 Hst).
Qed.

Section Complex.
Context {num : Type} `{JSNumber num}.

Lemma unpackedField_length (view : list byte) (offset dataLength : Z)
    (p : Packing num) (g : Groups num) (N bitOffset : Z) (U : list Z) :
  unpackedField view offset dataLength p g N bitOffset = Ok (Some U) ->
  length U = Z.to_nat N.
Proof.
  unfold unpackedField. intros HU.
  destruct (numberOfGroups g =? 0); [discriminate|].
  bind_inv HU. injection HU as <-.
  match goal with
  | Hg : unpackGroups _ _ _ _ _ = Ok _ |- _ =>
      apply (unpackGroups_length _ _ _ _ _ _) in Hg; [exact Hg| |]
  end; cbn [fst snd]; [apply length_replicate|lia].
Qed.

End Complex.

(** The array after step 6, for the first order and for the second. *)
Lemma reverse_first_order (h1 h2 m N : Z) (U : list Z) :
  length U = Z.to_nat N ->
  let I := reverseSpatialDifferencing 1 h1 h2 m N U in
  length I = length U
  /\ (0 < N -> I !! 0%nat = Some (ToInt32 h1))
  /\ (forall n : Z, 1 <= n < N ->
        I !! Z.to_nat n
        = Some (ToInt32 (U !!! Z.to_nat n + m + I !!! Z.to_nat (n - 1)))).
Proof.
  intros Hlen. unfold reverseSpatialDifferencing. cbn [Z.ltb Z.eqb Z.compare Pos.eqb].
  cbn zeta.
  destruct (Z.to_nat N) as [|k] eqn:HN.
  - cbn. rewrite length_insert. repeat split; intros; lia.
  - replace (S k - 1)%nat with k by lia.
    set (U0 := <[0%nat := ToInt32 h1]> U).
    assert (Hlen0 : length U0 = S k) by (unfold U0; rewrite length_insert; exact Hlen).
    destruct (undiff1_loop m U0 k ltac:(lia)) as (HlenR & H0 & Hrec & _).
    set (R := foldl (undiff1 m) U0 (seq 1 k)) in *.
    split; [lia|]. split.
    + intros _. rewrite list_lookup_lookup_total_lt by lia.
      rewrite H0. unfold U0. rewrite list_lookup_total_insert_eq by lia. reflexivity.
    + intros n Hn. rewrite list_lookup_lookup_total_lt by lia.
      rewrite Hrec by lia.
      replace (Z.to_nat n - 1)%nat with (Z.to_nat (n - 1)) by lia.
      unfold U0. rewrite list_lookup_total_insert_ne by lia. reflexivity.
Qed.

Lemma reverse_second_order (h1 h2 m N : Z) (U : list Z) :
  length U = Z.to_nat N ->
  let I := reverseSpatialDifferencing 2 h1 h2 m N U in
  length I = length U
  /\ (0 < N -> I !! 0%nat = Some (ToInt32 h1))
  /\ (1 < N -> I !! 1%nat = Some (ToInt32 h2))
  /\ (forall n : Z, 2 <= n < N ->
        I !! Z.to_nat n
        = Some (ToInt32 (U !!! Z.to_nat n + m + 2 * I !!! Z.to_nat (n - 1)
                         - I !!! Z.to_nat (n - 2)))).
Proof.
  intros Hlen. unfold reverseSpatialDifferencing. cbn [Z.ltb Z.eqb Z.compare Pos.eqb].
  cbn zeta.
  set (U0 := <[1%nat := ToInt32 h2]> (<[0%nat := ToInt32 h1]> U)).
  assert (Hlen0 : length U0 = length U) by (unfold U0; rewrite !length_insert; reflexivity).
  destruct (Z.to_nat N) as [|[|k]] eqn:HN.
  - cbn. split; [exact Hlen0|]. repeat split; intros; lia.
  - cbn [Nat.sub seq foldl]. split; [exact Hlen0|].
    split; [|split; intros; lia].
    intros _. unfold U0. rewrite list_lookup_insert_ne by lia.
    apply list_lookup_insert_eq. lia.
  - replace (S (S k) - 2)%nat with k by lia.
    destruct (undiff2_loop m U0 k ltac:(lia)) as (HlenR & H0 & H1 & Hrec & _).
    set (R := foldl (undiff2 m) U0 (seq 2 k)) in *.
    split; [lia|]. split; [|split].
    + intros _. rewrite list_lookup_lookup_total_lt by lia.
      rewrite H0. unfold U0.
      rewrite list_lookup_total_insert_ne, list_lookup_total_insert_eq by lia.
      reflexivity.
    + intros _. rewrite list_lookup_lookup_total_lt by lia.
      rewrite H1. unfold U0.
      rewrite list_lookup_total_insert_eq by (rewrite length_insert; lia).
      reflexivity.
    + intros n Hn. rewrite list_lookup_lookup_total_lt by lia.
      rewrite Hrec by lia.
      replace (Z.to_nat n - 1)%nat with (Z.to_nat (n - 1)) by lia.
      replace (Z.to_nat n - 2)%nat with (Z.to_nat (n - 2)) by lia.
      unfold U0. rewrite !list_lookup_total_insert_ne by lia. reflexivity.
Qed.

Lemma readBits_Ok_range (view : list byte) (bitOffset numberOfBits v : Z) :
  0 <= bitOffset -> 0 <= numberOfBits <= 31 ->
  readBits view bitOffset numberOfBits = Ok v ->
  0 <= v < 2 ^ numberOfBits.
Proof.
  intros Hoff Hn Hv.
  destruct (Z_lt_le_dec (8 * byteLength view) (bitOffset + numberOfBits)) as [Hout|Hin].
  - apply readBits_throws_iff in Hout. congruence.
  - destruct (readBits_unsigned view bitOffset numberOfBits Hoff Hn Hin) as [Heq Hr].
    rewrite Heq in Hv. injection Hv as <-. exact Hr.
Qed.

Section Reversal.
Context {num : Type} `{JSNumber num}.

(** C2, amended.  For a field packed with spatial differencing of order 1
    or 2 and one or two extra octets (nbitsd = 8 or 16), whenever the
    integer phase of the decoder completes: h1 (and h2 for order 2) are
    the first nbitsd-bit fields of the data, g_min is the sign bit and
    the magnitude of nbitsd - 1 bits that follow, negated when the sign
    bit is 1, and group unpacking starts right after with no padding.
    With U the field after group unpacking and I the final one:
    I[0] = h1; for order 1 and n >= 1, I[n] is U[n] + g_min + I[n-1]
    stored in the Int32Array, that is wrapped to 32 bits; for order 2,
    I[1] = h2 and for n >= 2, I[n] is U[n] + g_min + 2 I[n-1] - I[n-2],
    wrapped alike. *)
Theorem spatial_differencing_reversal (view : list byte) (offset dataLength N : Z)
    (p : Packing num) (g : Groups num) (I : list Z) :
  0 <= offset ->
  orderOfSpatialDifferencing g = 1 \/ orderOfSpatialDifferencing g = 2 ->
  numberOfOctetsExtraDescriptors g = Some 1 \/ numberOfOctetsExtraDescriptors g = Some 2 ->
  integerField view offset dataLength p g N = Ok (Some I) ->
  exists (h1 h2 sign magnitude : Z) (U : list Z),
    let order := orderOfSpatialDifferencing g in
    let nbitsd := default 0 (numberOfOctetsExtraDescriptors g) * 8 in
    let afterH := offset * 8 + (if order =? 2 then 2 * nbitsd else nbitsd) in
    let g_min := if sign =? 1 then - magnitude else magnitude in
    readBits view (offset * 8) nbitsd = Ok h1
    /\ (order = 2 -> readBits view (offset * 8 + nbitsd) nbitsd = Ok h2)
    /\ readBits view afterH 1 = Ok sign
    /\ readBits view (afterH + 1) (nbitsd - 1) = Ok magnitude
    /\ 0 <= magnitude < 2 ^ (nbitsd - 1)
    /\ unpackedField view offset dataLength p g N (afterH + nbitsd) = Ok (Some U)
    /\ length U = Z.to_nat N
    /\ length I = Z.to_nat N
    /\ (0 < N -> I !! 0%nat = Some h1)
    /\ (order = 1 ->
        forall n : Z, 1 <= n < N ->
          I !! Z.to_nat n
          = Some (ToInt32 (U !!! Z.to_nat n + g_min + I !!! Z.to_nat (n - 1))))
    /\ (order = 2 ->
        (1 < N -> I !! 1%nat = Some h2)
        /\ forall n : Z, 2 <= n < N ->
             I !! Z.to_nat n
             = Some (ToInt32 (U !!! Z.to_nat n + g_min + 2 * I !!! Z.to_nat (n - 1)
                              - I !!! Z.to_nat (n - 2)))).
Proof.
  intros Hoff Horder Hextra HI. unfold integerField in HI.
  assert (Hhead : exists nbitsd, (nbitsd = 8 \/ nbitsd = 16)
            /\ default 0 (numberOfOctetsExtraDescriptors g) * 8 = nbitsd
            /\ readSpatialHeader view offset (orderOfSpatialDifferencing g)
                 (default 0 (numberOfOctetsExtraDescriptors g))
               = readDescriptors view (offset * 8) nbitsd (orderOfSpatialDifferencing g)).
  { unfold readSpatialHeader.
    destruct Horder as [->| ->], Hextra as [->| ->]; cbn; eauto. }
  destruct Hhead as (nbitsd & Hnbitsd & Hdef & Hhead).
  rewrite Hhead in HI. clear Hhead. rewrite Hdef. clear Hdef.
  set (order := orderOfSpatialDifferencing g) in *.
  unfold readDescriptors in HI.
  destruct (readBits view (offset * 8) nbitsd) as [h1| |] eqn:Hh1;
    cbn [mbind outcome_bind] in HI; try discriminate.
  assert (Hh1r : 0 <= h1 < 2 ^ nbitsd) by (eapply readBits_Ok_range; [| |exact Hh1]; lia).
  assert (H16 : 2 ^ nbitsd <= 2 ^ 16) by (apply Z.pow_le_mono_r; lia).
  assert (Hsecond : exists h2,
            (order = 2 -> readBits view (offset * 8 + nbitsd) nbitsd = Ok h2
                          /\ 0 <= h2 < 2 ^ nbitsd)
            /\ (if order =? 2
                then readBits view (offset * 8 + nbitsd) nbitsd
                     ≫= (fun h2 => Ok (h2, offset * 8 + nbitsd + nbitsd))
                else Ok (0, offset * 8 + nbitsd))
               = Ok (h2, offset * 8 + (if order =? 2 then 2 * nbitsd else nbitsd))).
  { destruct (order =? 2) eqn:Ho.
    - apply Z.eqb_eq in Ho.
      destruct (readBits view (offset * 8 + nbitsd) nbitsd) as [h2| |] eqn:Hh2;
        cbn [mbind outcome_bind] in HI |- *; try discriminate.
      exists h2. split.
      + intros _. split; [reflexivity|].
        eapply readBits_Ok_range; [| |exact Hh2]; lia.
      + do 2 f_equal. lia.
    - apply Z.eqb_neq in Ho. exists 0. split; [intros; contradiction|reflexivity]. }
  destruct Hsecond as (h2 & Hh2 & Hsecond).
  rewrite Hsecond in HI. clear Hsecond. cbn [mbind outcome_bind] in HI.
  set (afterH := offset * 8 + (if order =? 2 then 2 * nbitsd else nbitsd)) in *.
  destruct (readBits view afterH 1) as [sign| |] eqn:Hsign;
    cbn [mbind outcome_bind] in HI; try discriminate.
  destruct (readBits view (afterH + 1) (nbitsd - 1)) as [magnitude| |] eqn:Hmag;
    cbn [mbind outcome_bind] in HI; try discriminate.
  assert (HafterH : 0 <= afterH) by (unfold afterH; destruct (order =? 2); lia).
  assert (Hmagr : 0 <= magnitude < 2 ^ (nbitsd - 1))
    by (eapply readBits_Ok_range; [| |exact Hmag]; lia).
  replace (afterH + 1 + (nbitsd - 1)) with (afterH + nbitsd) in HI by lia.
  destruct (unpackedField view offset dataLength p g N (afterH + nbitsd))
    as [[U|]| |] eqn:HU; cbn [mbind outcome_bind fmap option_fmap option_map] in HI;
    try discriminate.
  injection HI as <-.
  pose proof (unpackedField_length _ _ _ _ _ _ _ _ HU) as HlenU.
  exists h1, h2, sign, magnitude, U. cbn zeta.
  set (g_min := if sign =? 1 then - magnitude else magnitude).
  split; [exact Hh1|]. split; [intros Ho; apply Hh2, Ho|].
  split; [exact Hsign|]. split; [exact Hmag|]. split; [exact Hmagr|].
  split; [exact HU|]. split; [exact HlenU|].
  destruct Horder as [Ho|Ho]; fold order in Ho; rewrite Ho.
  - destruct (reverse_first_order h1 h2 g_min N U HlenU) as (HlenI & H0 & Hrec).
    split; [lia|]. split.
    + intros HN. rewrite (H0 HN), ToInt32_small by lia. reflexivity.
    + split; [intros _; exact Hrec|intros; lia].
  - destruct (reverse_second_order h1 h2 g_min N U HlenU) as (HlenI & H0 & H1 & Hrec).
    destruct (Hh2 Ho) as [_ Hh2r].
    split; [lia|]. split.
    + intros HN. rewrite (H0 HN), ToInt32_small by lia. reflexivity.
    + split; [intros; lia|]. intros _. split; [|exact Hrec].
      intros HN. rewrite (H1 HN), ToInt32_small by lia. reflexivity.
Qed.

End Reversal.

Lemma spatial_differencing_reversal_witness :
  0 <= 0
  /\ orderOfSpatialDifferencing (Inputs.oneGroup 1 2) = 1
  /\ numberOfOctetsExtraDescriptors (Inputs.oneGroup 1 2) = Some 2
  /\ integerField Inputs.wideReferenceData 0 8 Inputs.wideReference
       (Inputs.oneGroup 1 2) 2 = Ok (Some [1; -2147483648])
  /\ exists (h1 sign magnitude : Z) (U : list Z),
       readBits Inputs.wideReferenceData (0 * 8) 16 = Ok h1
       /\ readBits Inputs.wideReferenceData (0 * 8 + 16) 1 = Ok sign
       /\ readBits Inputs.wideReferenceData (0 * 8 + 16 + 1) 15 = Ok magnitude
       /\ [1; -2147483648] !! 0%nat = Some h1
       /\ [1; -2147483648] !! 1%nat
          = Some (ToInt32 (U !!! 1%nat + (if sign =? 1 then - magnitude else magnitude)
                           + [1; -2147483648] !!! 0%nat)).
Proof.
  assert (Hi : integerField Inputs.wideReferenceData 0 8 Inputs.wideReference
                 (Inputs.oneGroup 1 2) 2 = Ok (Some [1; -2147483648]))
    by (vm_compute; reflexivity).
  split; [lia|]. split; [reflexivity|]. split; [reflexivity|]. split; [exact Hi|].
  pose proof (spatial_differencing_reversal Inputs.wideReferenceData 0 8 2
                Inputs.wideReference (Inputs.oneGroup 1 2) [1; -2147483648]
                ltac:(lia) (or_introl eq_refl) (or_intror eq_refl) Hi) as Hw.
  destruct Hw as (h1 & h2 & sign & magnitude & U & Hw). cbn zeta in Hw.
  destruct Hw as (Hh1 & _ & Hsign & Hmag & _ & _ & _ & _ & H0 & H1 & _).
  exists h1, sign, magnitude, U.
  split; [exact Hh1|]. split; [exact Hsign|]. split; [exact Hmag|].
  split; [apply H0; lia|]. apply (H1 eq_refl 1). lia.
Defined.

(** ** Wind direction *)

Section Wind.
Context {num : Type} `{JSNumber num} `{HostMath num}.

Lemma windDirection_lookup (numPoints : Z) (ugrd vgrd : list num) (i : Z) :
  0 <= i < numPoints ->
  windDirection numPoints ugrd vgrd !! Z.to_nat i = Some (windDirAt ugrd vgrd i).
Proof.
  intros Hi. unfold windDirection.
  rewrite list_lookup_fmap, lookup_seqZ_lt by lia.
  cbn. do 2 f_equal. lia.
Qed.

End Wind.

(** The half-open range can be missed: when the host returns the
    correctly rounded atan2(-2^-60, 1) = -2^-60, the direction for
    u = 2^-60, v = -1 is stored as 360. *)
Lemma wind_direction_rounds_to_360 (approx : spec_float -> spec_float -> spec_float) :
  approx (S754_finite true 4503599627370496 (-112)) (IEEE.of_Z 1)
  = S754_finite true 4503599627370496 (-112) ->
  windDirection (H0 := IEEE.host approx) 1
    [S754_finite false 4503599627370496 (-112)] [IEEE.of_Z (-1)]
  = [IEEE.of_Z 360].
Proof.
  intros Happrox. unfold windDirection, windDirAt. cbn [seqZ].
  change (seqZ 0 1) with [0]. cbn [fmap list_fmap].
  change (element [S754_finite false 4503599627370496 (-112)] 0)
    with (S754_finite false 4503599627370496 (-112)).
  change (element [IEEE.of_Z (-1)] 0) with (IEEE.of_Z (-1)).
  change (Math_atan2 (nneg (S754_finite false 4503599627370496 (-112)))
            (nneg (IEEE.of_Z (-1))))
    with (approx (S754_finite true 4503599627370496 (-112)) (IEEE.of_Z 1)).
  rewrite Happrox. vm_compute. reflexivity.
Qed.

(** ** The coordinate arrays *)

Section RowMajor.
Context {A : Type}.

Lemma bind_singleton (f : Z -> A) (l : list Z) : (i ← l; [f i]) = f <$> l.
Proof.
  induction l as [|x l IH]; [reflexivity|].
  rewrite bind_cons, IH. reflexivity.
Qed.

Lemma row_length (f : Z -> A) (ni : Z) :
  length (i ← seqZ 0 ni; [f i]) = Z.to_nat ni.
Proof. rewrite bind_singleton, length_fmap. apply length_seqZ. Qed.

Lemma rows_length (f : Z -> Z -> A) (ni : Z) (n : nat) :
  length (j ← seqZ 0 (Z.of_nat n); i ← seqZ 0 ni; [f j i]) = (n * Z.to_nat ni)%nat.
Proof.
  induction n as [|n IH]; [reflexivity|].
  rewrite seqZ_S, bind_app, length_app, IH.
  rewrite bind_cons, length_app, row_length. cbn. lia.
Qed.

Lemma row_lookup (f : Z -> A) (ni i : Z) :
  0 <= i < ni -> (i' ← seqZ 0 ni; [f i']) !! Z.to_nat i = Some (f i).
Proof.
  intros Hi.
  rewrite bind_singleton, list_lookup_fmap, lookup_seqZ_lt by lia.
  cbn. do 2 f_equal. lia.
Qed.

(** Index [j * ni + i] of the row-major array holds the value of row [j],
    column [i]. *)
Lemma rows_lookup (f : Z -> Z -> A) (ni nj i j : Z) :
  0 <= i < ni -> 0 <= j < nj ->
  (j' ← seqZ 0 nj; i' ← seqZ 0 ni; [f j' i']) !! Z.to_nat (j * ni + i) = Some (f j i).
Proof.
  intros Hi Hj.
  assert (exists n : nat, nj = Z.of_nat n) as [n ->] by (exists (Z.to_nat nj); lia).
  induction n as [|n IH]; [lia|].
  rewrite seqZ_S, bind_app.
  destruct (decide (j = Z.of_nat n)) as [->|Hne].
  - rewrite lookup_app_r; rewrite rows_length; [|nia].
    replace (Z.to_nat (Z.of_nat n * ni + i) - n * Z.to_nat ni)%nat with (Z.to_nat i) by nia.
    rewrite bind_cons. cbn [Z.add].
    rewrite lookup_app_l by (rewrite row_length; lia).
    apply (row_lookup (f (Z.of_nat n))). exact Hi.
  - rewrite lookup_app_l by (rewrite rows_length; nia).
    apply IH. lia.
Qed.

Lemma rows_elem_of (f : Z -> Z -> A) (ni nj : Z) (x : A) :
  x ∈ (j' ← seqZ 0 nj; i' ← seqZ 0 ni; [f j' i']) ->
  exists i j, 0 <= i < ni /\ 0 <= j < nj /\ x = f j i.
Proof.
  intros Hx. apply list_elem_of_bind in Hx as (j & Hx & Hj).
  apply list_elem_of_bind in Hx as (i & Hx & Hi).
  apply elem_of_seqZ in Hj, Hi. apply list_elem_of_singleton in Hx.
  exists i, j. repeat split; try lia. exact Hx.
Qed.

End RowMajor.

(** ** The instance Exact *)

Lemma Exact_lt_Fin (p q : Qc) :
  Exact.lt (Exact.Fin p) (Exact.Fin q) = bool_decide (p < q)%Qc.
Proof. reflexivity. Qed.

Lemma Exact_div_Fin (p q : Qc) :
  q <> 0%Qc -> Exact.div (Exact.Fin p) (Exact.Fin q) = Exact.Fin (p / q)%Qc.
Proof. intros Hq. cbn [Exact.div]. rewrite bool_decide_eq_false_2 by exact Hq. reflexivity. Qed.

Lemma Exact_floor_Z (z : Z) :
  Exact.floor (Exact.Fin (Qc_of_Z z)) = Exact.Fin (Qc_of_Z z).
Proof.
  cbn [Exact.floor]. unfold Exact.of_Z.
  change (this (Qc_of_Z z)) with (inject_Z z). rewrite Qfloor_Z. reflexivity.
Qed.

Lemma Exact_to_index_Z (z : Z) :
  0 <= z -> Exact.to_index (Exact.Fin (Qc_of_Z z)) = Some z.
Proof.
  intros Hz. cbn [Exact.to_index]. change (this (Qc_of_Z z)) with (inject_Z z).
  cbn [inject_Z Qden Qnum Z.eqb Pos.eqb andb].
  destruct (0 <=? z) eqn:E; [reflexivity|]. apply Z.leb_gt in E. lia.
Qed.

Lemma Exact_min_Z (a b : Z) :
  Exact.min (Exact.Fin (Qc_of_Z a)) (Exact.Fin (Qc_of_Z b))
  = Exact.Fin (Qc_of_Z (Z.min a b)).
Proof.
  cbn [Exact.min]. rewrite Exact_lt_Fin. case_bool_decide as Hlt.
  - apply (proj2 (Z2Qc_inj_lt b a)) in Hlt. rewrite Z.min_r by lia. reflexivity.
  - assert (~ b < a) by (intros Hba; apply Hlt, (proj1 (Z2Qc_inj_lt b a)), Hba).
    rewrite Z.min_l by lia. reflexivity.
Qed.

(** The scan for the minimum, started on a finite value. *)
Lemma scanMin_from (a : Qc) (l : list Exact.xnum) :
  (forall x, x ∈ l -> exists q, x = Exact.Fin q) ->
  exists m : Qc,
    foldl (fun m x => if nlt x m then x else m) (Exact.Fin a) l = Exact.Fin m
    /\ (m <= a)%Qc
    /\ (forall q, Exact.Fin q ∈ l -> (m <= q)%Qc)
    /\ (m = a \/ Exact.Fin m ∈ l).
Proof.
  revert a. induction l as [|x l IH]; intros a Hfin.
  - exists a. cbn. repeat split; [apply Qcle_refl| |left; reflexivity].
    intros q Hq. inversion Hq.
  - destruct (Hfin x ltac:(left)) as [q ->].
    cbn [foldl]. change (nlt (Exact.Fin q) (Exact.Fin a)) with (bool_decide (q < a)%Qc).
    case_bool_decide as Hlt.
    + destruct (IH q) as (m & Hm & Hle & Hlow & Hin).
      { intros y Hy. apply Hfin. right. exact Hy. }
      exists m. split; [exact Hm|]. split.
      { apply Qcle_trans with q; [exact Hle|apply Qclt_le_weak, Hlt]. }
      split.
      * intros r Hr. apply elem_of_cons in Hr as [[= ->]|Hr]; [exact Hle|apply Hlow, Hr].
      * right. destruct Hin as [->|Hin]; [left|right; exact Hin].
    + apply Qcnot_lt_le in Hlt.
      destruct (IH a) as (m & Hm & Hle & Hlow & Hin).
      { intros y Hy. apply Hfin. right. exact Hy. }
      exists m. split; [exact Hm|]. split; [exact Hle|]. split.
      * intros r Hr. apply elem_of_cons in Hr as [[= ->]|Hr].
        -- apply Qcle_trans with a; assumption.
        -- apply Hlow, Hr.
      * destruct Hin as [->|Hin]; [left; reflexivity|right; right; exact Hin].
Qed.

Lemma scanMax_from (a : Qc) (l : list Exact.xnum) :
  (forall x, x ∈ l -> exists q, x = Exact.Fin q) ->
  exists m : Qc,
    foldl (fun m x => if nlt m x then x else m) (Exact.Fin a) l = Exact.Fin m
    /\ (a <= m)%Qc
    /\ (forall q, Exact.Fin q ∈ l -> (q <= m)%Qc).
Proof.
  revert a. induction l as [|x l IH]; intros a Hfin.
  - exists a. cbn. repeat split; [apply Qcle_refl|].
    intros q Hq. inversion Hq.
  - destruct (Hfin x ltac:(left)) as [q ->].
    cbn [foldl]. change (nlt (Exact.Fin a) (Exact.Fin q)) with (bool_decide (a < q)%Qc).
    case_bool_decide as Hlt.
    + destruct (IH q) as (m & Hm & Hle & Hup).
      { intros y Hy. apply Hfin. right. exact Hy. }
      exists m. split; [exact Hm|]. split.
      { apply Qcle_trans with q; [apply Qclt_le_weak, Hlt|exact Hle]. }
      intros r Hr. apply elem_of_cons in Hr as [[= ->]|Hr]; [exact Hle|apply Hup, Hr].
    + apply Qcnot_lt_le in Hlt.
      destruct (IH a) as (m & Hm & Hle & Hup).
      { intros y Hy. apply Hfin. right. exact Hy. }
      exists m. split; [exact Hm|]. split; [exact Hle|].
      intros r Hr. apply elem_of_cons in Hr as [[= ->]|Hr].
      * apply Qcle_trans with a; assumption.
      * apply Hup, Hr.
Qed.

(** On an array of finite values that holds its least value [q0],
    the scan for the minimum returns [q0]. *)
Lemma scanMin_least (q0 : Qc) (l : list Exact.xnum) :
  Exact.Fin q0 ∈ l ->
  (forall x, x ∈ l -> exists q, x = Exact.Fin q /\ (q0 <= q)%Qc) ->
  scanMin l = Exact.Fin q0.
Proof.
  intros Hin Hall. unfold scanMin.
  destruct l as [|x l]; [inversion Hin|].
  destruct (Hall x ltac:(left)) as (q & -> & Hq).
  cbn [foldl]. change (nlt (Exact.Fin q) Infinity) with true. cbn iota.
  destruct (scanMin_from q l) as (m & Hm & Hle & Hlow & Hmem).
  { intros y Hy. destruct (Hall y ltac:(right; exact Hy)) as (r & -> & _). eauto. }
  rewrite Hm. f_equal. apply Qcle_antisym.
  - apply elem_of_cons in Hin as [[= ->]|Hin]; [exact Hle|apply Hlow, Hin].
  - destruct Hmem as [->|Hmem]; [exact Hq|].
    destruct (Hall _ ltac:(right; exact Hmem)) as (r & [= ->] & Hr). exact Hr.
Qed.

(** On a non-empty array of finite values, the scan for the maximum
    returns a finite upper bound. *)
Lemma scanMax_upper (l : list Exact.xnum) :
  l <> [] ->
  (forall x, x ∈ l -> exists q, x = Exact.Fin q) ->
  exists m : Qc, scanMax l = Exact.Fin m /\ forall q, Exact.Fin q ∈ l -> (q <= m)%Qc.
Proof.
  intros Hne Hall. unfold scanMax.
  destruct l as [|x l]; [contradiction|].
  destruct (Hall x ltac:(left)) as (q & ->).
  cbn [foldl]. change (nlt (nneg Infinity) (Exact.Fin q)) with true. cbn iota.
  destruct (scanMax_from q l) as (m & Hm & Hle & Hup).
  { intros y Hy. apply Hall. right. exact Hy. }
  exists m. split; [exact Hm|].
  intros r Hr. apply elem_of_cons in Hr as [[= ->]|Hr]; [exact Hle|apply Hup, Hr].
Qed.

Lemma Exact_add_Z (a b : Z) :
  Exact.add (Exact.of_Z a) (Exact.of_Z b) = Exact.of_Z (a + b).
Proof. unfold Exact.of_Z. cbn [Exact.add]. rewrite Z2Qc_inj_add. reflexivity. Qed.

Lemma Exact_sub_Z (a b : Z) :
  Exact.sub (Exact.of_Z a) (Exact.of_Z b) = Exact.of_Z (a - b).
Proof.
  unfold Exact.of_Z, Exact.sub. cbn [Exact.add Exact.neg].
  rewrite Z2Qc_inj_sub. reflexivity.
Qed.

Lemma Exact_mul_Z (a b : Z) :
  Exact.mul (Exact.of_Z a) (Exact.of_Z b) = Exact.of_Z (a * b).
Proof. unfold Exact.of_Z. cbn [Exact.mul]. rewrite Z2Qc_inj_mul. reflexivity. Qed.

Lemma Qc_of_Z_nonneg (z : Z) : 0 <= z -> (0 <= Qc_of_Z z)%Qc.
Proof. intros Hz. rewrite <- Z2Qc_inj_0. exact (proj1 (Z2Qc_inj_le 0 z) Hz). Qed.

Lemma Qc_step_nonneg (a d : Qc) (z : Z) :
  0 <= z -> (0 < d)%Qc -> (a <= a + Qc_of_Z z * d)%Qc.
Proof.
  intros Hz Hd.
  rewrite <- (Qcplus_0_r a) at 1. apply Qcplus_le_mono_l.
  apply Qcmult_nonneg_nonneg; [apply Qc_of_Z_nonneg, Hz|apply Qclt_le_weak, Hd].
Qed.

Lemma element_in_range {num : Type} `{JSNumber num} (arr : list num) (z : Z) :
  0 <= z < Z.of_nat (length arr) -> arr !! Z.to_nat z = Some (element arr z).
Proof.
  intros Hz. unfold element.
  destruct (z <? 0) eqn:E; [apply Z.ltb_lt in E; lia|].
  destruct (lookup_lt_is_Some_2 arr (Z.to_nat z) ltac:(lia)) as [x ->]. reflexivity.
Qed.

(** Interpolation at a node of a grid whose bounding box starts at the
    node of row 0 and column 0. *)
Lemma bilinear_at_node (grid : GridMeta Exact.xnum) (arr : list Exact.xnum)
    (la lo di dj mla mlo : Qc) (i j : Z) :
  latMin grid = Exact.Fin la -> latMax grid = Exact.Fin mla ->
  lngMin grid = Exact.Fin lo -> lngMax grid = Exact.Fin mlo ->
  latIncrement grid = Exact.Fin dj -> lngIncrement grid = Exact.Fin di ->
  (0 < di)%Qc -> (0 < dj)%Qc ->
  0 <= i < meta_ni grid -> 0 <= j < meta_nj grid ->
  (la + Qc_of_Z j * dj <= mla)%Qc -> (lo + Qc_of_Z i * di <= mlo)%Qc ->
  length arr = Z.to_nat (meta_ni grid * meta_nj grid) ->
  (forall x, x ∈ arr -> exists q, x = Exact.Fin q) ->
  bilinearInterpolate grid arr (Exact.Fin (la + Qc_of_Z j * dj))
    (Exact.Fin (lo + Qc_of_Z i * di))
  = Some (element arr (j * meta_ni grid + i)).
Proof.
  intros HlatMin HlatMax HlngMin HlngMax HlatInc HlngInc Hdi Hdj Hi Hj Hmla Hmlo
    Hlen Hfin.
  set (ni := meta_ni grid) in *. set (nj := meta_nj grid) in *.
  pose proof (Qc_step_nonneg la dj j ltac:(lia) Hdj) as Hla.
  pose proof (Qc_step_nonneg lo di i ltac:(lia) Hdi) as Hlo.
  set (t := (la + Qc_of_Z j * dj)%Qc) in *.
  set (s := (lo + Qc_of_Z i * di)%Qc) in *.
  unfold bilinearInterpolate.
  rewrite HlatMin, HlatMax, HlngMin, HlngMax, HlatInc, HlngInc.
  fold ni nj.
  cbn [nlt nsub nadd nmul ndiv Math_min Math_max Math_floor ofZ Exact.number].
  (* the target is inside the bounding box *)
  assert (Hb1 : Exact.lt (Exact.Fin t) (Exact.min (Exact.Fin la) (Exact.Fin mla)) = false).
  { cbn [Exact.min]. rewrite Exact_lt_Fin.
    rewrite (bool_decide_eq_false_2 (mla < la)%Qc).
    - rewrite Exact_lt_Fin. apply bool_decide_eq_false_2, Qcle_not_lt, Hla.
    - apply Qcle_not_lt. apply Qcle_trans with t; assumption. }
  assert (Hb2 : Exact.lt (Exact.max (Exact.Fin la) (Exact.Fin mla)) (Exact.Fin t) = false).
  { cbn [Exact.max]. rewrite Exact_lt_Fin. case_bool_decide as Hlt.
    - rewrite Exact_lt_Fin. apply bool_decide_eq_false_2, Qcle_not_lt, Hmla.
    - rewrite Exact_lt_Fin. apply bool_decide_eq_false_2, Qcle_not_lt.
      apply Qcle_trans with mla; [exact Hmla|apply Qcnot_lt_le, Hlt]. }
  assert (Hb3 : Exact.lt (Exact.Fin s) (Exact.Fin lo) = false).
  { rewrite Exact_lt_Fin. apply bool_decide_eq_false_2, Qcle_not_lt, Hlo. }
  assert (Hb4 : Exact.lt (Exact.Fin mlo) (Exact.Fin s) = false).
  { rewrite Exact_lt_Fin. apply bool_decide_eq_false_2, Qcle_not_lt, Hmlo. }
  rewrite Hb1, Hb2, Hb3, Hb4. cbn [orb].
  (* the fractional indices are the indices of the node *)
  assert (Hdi0 : di <> 0%Qc) by (apply not_eq_sym, Qclt_not_eq, Hdi).
  assert (Hdj0 : dj <> 0%Qc) by (apply not_eq_sym, Qclt_not_eq, Hdj).
  assert (HiF : Exact.div (Exact.sub (Exact.Fin s) (Exact.Fin lo)) (Exact.Fin di)
                = Exact.of_Z i).
  { unfold Exact.sub. cbn [Exact.add Exact.neg]. rewrite Exact_div_Fin by exact Hdi0.
    unfold Exact.of_Z. f_equal. unfold s. field. exact Hdi0. }
  assert (HjF : Exact.div (Exact.sub (Exact.Fin t) (Exact.Fin la)) (Exact.Fin dj)
                = Exact.of_Z j).
  { unfold Exact.sub. cbn [Exact.add Exact.neg]. rewrite Exact_div_Fin by exact Hdj0.
    unfold Exact.of_Z. f_equal. unfold t. field. exact Hdj0. }
  rewrite HiF, HjF.
  assert (Hfloor : forall z, Exact.floor (Exact.of_Z z) = Exact.of_Z z)
    by (intros z; apply Exact_floor_Z).
  rewrite !Hfloor, !Exact_add_Z, !Exact_sub_Z.
  assert (Hmin : forall a b, Exact.min (Exact.of_Z a) (Exact.of_Z b) = Exact.of_Z (Z.min a b))
    by (intros a b; apply Exact_min_Z).
  rewrite !Hmin, !Exact_mul_Z, !Exact_add_Z.
  rewrite !Z.sub_diag.
  (* the four corners are elements of the array *)
  assert (Hcorner : forall z, 0 <= z < ni * nj ->
            exists q, elementAt arr (Exact.of_Z z) = Exact.Fin q
                      /\ element arr z = Exact.Fin q).
  { intros z Hz. unfold elementAt.
    change (toIndex (Exact.of_Z z)) with (Exact.to_index (Exact.Fin (Qc_of_Z z))).
    rewrite Exact_to_index_Z by lia.
    pose proof (element_in_range arr z ltac:(lia)) as Hel.
    destruct (Hfin (element arr z)) as [q Hq]; [eapply list_elem_of_lookup_2, Hel|].
    exists q. split; exact Hq. }
  destruct (Hcorner (j * ni + i) ltac:(nia)) as (a & -> & ->).
  destruct (Hcorner (j * ni + Z.min (i + 1) (ni - 1)) ltac:(nia)) as (b & -> & _).
  destruct (Hcorner (Z.min (j + 1) (nj - 1) * ni + i) ltac:(nia)) as (c & -> & _).
  destruct (Hcorner (Z.min (j + 1) (nj - 1) * ni + Z.min (i + 1) (ni - 1)) ltac:(nia))
    as (d & -> & _).
  unfold Exact.of_Z. cbn [Exact.add Exact.mul].
  do 2 f_equal. change (1 - 0) with 1. rewrite Z2Qc_inj_0, Z2Qc_inj_1. ring.
Qed.

Section SouthWestOrigin.
Variable grid : GridTemplate0 Exact.xnum.
Variables la lo di dj : Qc.
Hypothesis Hwest_to_east : js_and (scanningMode grid) 128 = 0.
Hypothesis Hsouth_to_north : js_and (scanningMode grid) 64 <> 0.
Hypothesis HlatFirst : latitudeOfFirstGridPoint grid = Exact.Fin la.
Hypothesis HlonFirst : longitudeOfFirstGridPoint grid = Exact.Fin lo.
Hypothesis HiInc : iDirectionIncrement grid = Exact.Fin di.
Hypothesis HjInc : jDirectionIncrement grid = Exact.Fin dj.
Hypothesis Hdi : (0 < di)%Qc.
Hypothesis Hdj : (0 < dj)%Qc.

Lemma latAt_exact (j : Z) : latAt grid j = Exact.Fin (la + Qc_of_Z j * dj).
Proof.
  unfold latAt. rewrite HlatFirst, HjInc.
  destruct (js_and (scanningMode grid) 64 =? 0) eqn:E;
    [apply Z.eqb_eq in E; contradiction|].
  cbn [negb toFloat32 nadd nmul ofZ Exact.number Exact.add Exact.mul Exact.of_Z].
  f_equal. rewrite Z2Qc_inj_1. ring.
Qed.

Lemma lngAt_exact (i : Z) : lngAt grid i = Exact.Fin (lo + Qc_of_Z i * di).
Proof.
  unfold lngAt. rewrite HlonFirst, HiInc, Hwest_to_east.
  cbn [Z.eqb toFloat32 nadd nmul ofZ Exact.number Exact.add Exact.mul Exact.of_Z].
  f_equal. rewrite Z2Qc_inj_1. ring.
Qed.

Lemma latArray_bounds (i j : Z) :
  0 <= i < ni grid -> 0 <= j < nj grid ->
  scanMin (latArray grid) = Exact.Fin la
  /\ exists m, scanMax (latArray grid) = Exact.Fin m /\ (la + Qc_of_Z j * dj <= m)%Qc.
Proof.
  intros Hi Hj.
  assert (Hfin : forall x, x ∈ latArray grid ->
            exists q, x = Exact.Fin q /\ (la <= q)%Qc).
  { intros x Hx. apply rows_elem_of in Hx as (i' & j' & Hi' & Hj' & ->).
    rewrite latAt_exact. eexists. split; [reflexivity|].
    apply Qc_step_nonneg; [lia|exact Hdj]. }
  assert (Hmem : forall j', 0 <= j' < nj grid -> latAt grid j' ∈ latArray grid).
  { intros j' Hj'. eapply list_elem_of_lookup_2.
    apply (rows_lookup (fun j _ => latAt grid j) (ni grid) (nj grid) i j' Hi Hj'). }
  split.
  - apply scanMin_least; [|exact Hfin].
    rewrite <- (Qcplus_0_r la) at 1.
    replace 0%Qc with (Qc_of_Z 0 * dj)%Qc by (rewrite Z2Qc_inj_0; ring).
    rewrite <- latAt_exact. apply Hmem. lia.
  - destruct (scanMax_upper (latArray grid)) as (m & Hm & Hup).
    + intros Hnil. specialize (Hmem j Hj). rewrite Hnil in Hmem. inversion Hmem.
    + intros x Hx. destruct (Hfin x Hx) as (q & -> & _). eauto.
    + exists m. split; [exact Hm|]. apply Hup. rewrite <- latAt_exact. apply Hmem, Hj.
Qed.

Lemma lngArray_bounds (i j : Z) :
  0 <= i < ni grid -> 0 <= j < nj grid ->
  scanMin (lngArray grid) = Exact.Fin lo
  /\ exists m, scanMax (lngArray grid) = Exact.Fin m /\ (lo + Qc_of_Z i * di <= m)%Qc.
Proof.
  intros Hi Hj.
  assert (Hfin : forall x, x ∈ lngArray grid ->
            exists q, x = Exact.Fin q /\ (lo <= q)%Qc).
  { intros x Hx. apply rows_elem_of in Hx as (i' & j' & Hi' & Hj' & ->).
    rewrite lngAt_exact. eexists. split; [reflexivity|].
    apply Qc_step_nonneg; [lia|exact Hdi]. }
  assert (Hmem : forall i', 0 <= i' < ni grid -> lngAt grid i' ∈ lngArray grid).
  { intros i' Hi'. eapply list_elem_of_lookup_2.
    apply (rows_lookup (fun _ i => lngAt grid i) (ni grid) (nj grid) i' j Hi' Hj). }
  split.
  - apply scanMin_least; [|exact Hfin].
    rewrite <- (Qcplus_0_r lo) at 1.
    replace 0%Qc with (Qc_of_Z 0 * di)%Qc by (rewrite Z2Qc_inj_0; ring).
    rewrite <- lngAt_exact. apply Hmem. lia.
  - destruct (scanMax_upper (lngArray grid)) as (m & Hm & Hup).
    + intros Hnil. specialize (Hmem i Hi). rewrite Hnil in Hmem. inversion Hmem.
    + intros x Hx. destruct (Hfin x Hx) as (q & -> & _). eauto.
    + exists m. split; [exact Hm|]. apply Hup. rewrite <- lngAt_exact. apply Hmem, Hi.
Qed.

End SouthWestOrigin.

(** Where the identity at the nodes does hold.  For a template-0 grid
    scanned west to east and south to north (scanning mode bit 0x80
    clear, bit 0x40 set) with positive increments, the longitude format
    'preserve', and a parameter array of ni x nj finite values: in exact
    arithmetic (no rounding in the coordinates or in the interpolation),
    bilinearInterpolate at the coordinates of grid index k returns the
    value of the array at k. *)
Theorem bilinear_identity_south_west_origin (fuel : nat)
    (grid : GridTemplate0 Exact.xnum) (d : Coordinates Exact.xnum)
    (arr : list Exact.xnum) (la lo di dj : Qc) (i j : Z) :
  js_and (scanningMode grid) 128 = 0 ->
  js_and (scanningMode grid) 64 <> 0 ->
  latitudeOfFirstGridPoint grid = Exact.Fin la ->
  longitudeOfFirstGridPoint grid = Exact.Fin lo ->
  iDirectionIncrement grid = Exact.Fin di -> (0 < di)%Qc ->
  jDirectionIncrement grid = Exact.Fin dj -> (0 < dj)%Qc ->
  0 <= i < ni grid -> 0 <= j < nj grid ->
  length arr = Z.to_nat (ni grid * nj grid) ->
  (forall x, x ∈ arr -> exists q, x = Exact.Fin q) ->
  getDataCoordinates fuel preserve grid = Ok d ->
  let k := j * ni grid + i in
  bilinearInterpolate (grid_meta d) arr (element (lat d) k) (element (lng d) k)
  = Some (element arr k).
Proof.
  intros Hwe Hsn Hla Hlo HiInc Hdi HjInc Hdj Hi Hj Hlen Hfin Hd k.
  unfold getDataCoordinates in Hd. rewrite normalizeLongitudes_preserve in Hd.
  cbn [mbind outcome_bind] in Hd. injection Hd as <-. cbn [lat lng grid_meta].
  assert (Hlat : element (latArray grid) k = Exact.Fin (la + Qc_of_Z j * dj)).
  { unfold element, k. destruct (j * ni grid + i <? 0) eqn:E; [apply Z.ltb_lt in E; nia|].
    unfold latArray.
    rewrite (rows_lookup (fun j _ => latAt grid j) (ni grid) (nj grid) i j Hi Hj).
    apply (latAt_exact grid la dj Hsn Hla HjInc). }
  assert (Hlng : element (lngArray grid) k = Exact.Fin (lo + Qc_of_Z i * di)).
  { unfold element, k. destruct (j * ni grid + i <? 0) eqn:E; [apply Z.ltb_lt in E; nia|].
    unfold lngArray.
    rewrite (rows_lookup (fun _ i => lngAt grid i) (ni grid) (nj grid) i j Hi Hj).
    apply (lngAt_exact grid lo di Hwe Hlo HiInc). }
  rewrite Hlat, Hlng.
  destruct (latArray_bounds grid la dj Hsn Hla HjInc Hdj i j Hi Hj)
    as (HlatMin & mla & HlatMax & Hmla).
  destruct (lngArray_bounds grid lo di Hwe Hlo HiInc Hdi i j Hi Hj)
    as (HlngMin & mlo & HlngMax & Hmlo).
  match goal with
  | |- bilinearInterpolate ?meta _ _ _ = _ =>
      exact (bilinear_at_node meta arr la lo di dj mla mlo i j HlatMin HlatMax HlngMin
               HlngMax HjInc HiInc Hdi Hdj Hi Hj Hmla Hmlo Hlen Hfin)
  end.
Qed.

Example bilinear_identity_two_by_two :
  exists (grid : GridTemplate0 Exact.xnum) (d : Coordinates Exact.xnum),
    let arr := [Exact.of_Z 10; Exact.of_Z 20; Exact.of_Z 30; Exact.of_Z 40] in
    Inputs.gridOf Inputs.southToNorth = Some grid
    /\ js_and (scanningMode grid) 128 = 0
    /\ js_and (scanningMode grid) 64 <> 0
    /\ latitudeOfFirstGridPoint grid = Exact.Fin 0%Qc
    /\ longitudeOfFirstGridPoint grid = Exact.Fin 0%Qc
    /\ iDirectionIncrement grid = Exact.Fin (Q2Qc (1 # 2))
    /\ jDirectionIncrement grid = Exact.Fin (Q2Qc (1 # 2))
    /\ (0 < Q2Qc (1 # 2))%Qc
    /\ 0 <= 1 < ni grid /\ 0 <= 1 < nj grid
    /\ length arr = Z.to_nat (ni grid * nj grid)
    /\ getDataCoordinates 0 preserve grid = Ok d
    /\ bilinearInterpolate (grid_meta d) arr
         (element (lat d) (1 * ni grid + 1)) (element (lng d) (1 * ni grid + 1))
       = Some (element arr (1 * ni grid + 1)).
Proof.
  destruct (Inputs.gridOf (num := Exact.xnum) Inputs.southToNorth) as [grid|] eqn:Hgrid;
    [|vm_compute in Hgrid; discriminate].
  destruct (getDataCoordinates 0 preserve grid) as [d| |] eqn:Hd;
    [|unfold getDataCoordinates in Hd; rewrite normalizeLongitudes_preserve in Hd;
      discriminate..].
  exists grid, d. cbn zeta.
  vm_compute in Hgrid. injection Hgrid as Hgrid.
  assert (Hmode : scanningMode grid = 64) by (rewrite <- Hgrid; reflexivity).
  assert (Hni : ni grid = 2) by (rewrite <- Hgrid; reflexivity).
  assert (Hnj : nj grid = 2) by (rewrite <- Hgrid; reflexivity).
  assert (Hla : latitudeOfFirstGridPoint grid = Exact.Fin 0%Qc).
  { rewrite <- Hgrid. cbn [latitudeOfFirstGridPoint]. f_equal. apply Qc_is_canon. reflexivity. }
  assert (Hlo : longitudeOfFirstGridPoint grid = Exact.Fin 0%Qc).
  { rewrite <- Hgrid. cbn [longitudeOfFirstGridPoint]. f_equal. apply Qc_is_canon. reflexivity. }
  assert (Hdi : iDirectionIncrement grid = Exact.Fin (Q2Qc (1 # 2))).
  { rewrite <- Hgrid. cbn [iDirectionIncrement]. f_equal. apply Qc_is_canon. reflexivity. }
  assert (Hdj : jDirectionIncrement grid = Exact.Fin (Q2Qc (1 # 2))).
  { rewrite <- Hgrid. cbn [jDirectionIncrement]. f_equal. apply Qc_is_canon. reflexivity. }
  assert (Hpos : (0 < Q2Qc (1 # 2))%Qc) by reflexivity.
  assert (Hwe : js_and (scanningMode grid) 128 = 0) by (rewrite Hmode; reflexivity).
  assert (Hsn : js_and (scanningMode grid) 64 <> 0) by (rewrite Hmode; discriminate).
  assert (Hlen : length [Exact.of_Z 10; Exact.of_Z 20; Exact.of_Z 30; Exact.of_Z 40]
                 = Z.to_nat (ni grid * nj grid)) by (rewrite Hni, Hnj; reflexivity).
  repeat (split; [first [reflexivity | assumption | lia]|]).
  apply (bilinear_identity_south_west_origin 0 grid d _ 0%Qc 0%Qc
           (Q2Qc (1 # 2)) (Q2Qc (1 # 2)) 1 1); try assumption; try lia.
  intros x Hx. unfold Exact.of_Z in Hx.
  repeat (apply elem_of_cons in Hx as [->|Hx]; [eauto|]). inversion Hx.
Qed.

(** ** The model on whole inputs *)

(** A message with simple packing parses into one message of edition 2
    whose data are the packed values 0 to 8 and whose level is 10 m above
    ground. *)
Example parse_gradient_message :
  exists m : Message spec_float,
    parse 9 Inputs.gradientMessage = Ok [m]
    /\ edition m = 2
    /\ totalLength m = byteLength Inputs.gradientMessage
    /\ section7 (sections m) ≫= data = Some (IEEE.of_Z <$> [0; 1; 2; 3; 4; 5; 6; 7; 8])
    /\ inventoryLevel <$> (templateData <$> section4 (sections m))
       = Some (Some (103, IEEE.of_Z 10)).
Proof.
  eexists. split; [vm_compute; reflexivity|]. vm_compute. repeat split.
Qed.

(** First-order differences with h1 = 100 and minimum -2 over the
    unpacked field 4, 4, 4, 4, 4 give 100, 102, 104, 106, 108. *)
Example decode_first_order :
  unpackedField Inputs.firstOrderData 0 7 Inputs.firstOrder Inputs.twoGroups 5 16
  = Ok (Some [4; 4; 4; 4; 4])
  /\ decodeComplexPacking Inputs.firstOrderData 0 7 Inputs.firstOrder Inputs.twoGroups 5
     = Ok (IEEE.of_Z <$> [100; 102; 104; 106; 108]).
Proof. vm_compute. split; reflexivity. Qed.

(** ** Two facts behind the model *)

Section Shapes.
Context {num : Type} `{JSNumber num}.

(** The template that parseSection5 builds has the shape that
    parseSection7 expects from the template number. *)
Lemma parseSection5_shape (view : list byte) (offset offset' : Z) (s5 : Section5) :
  parseSection5 view offset = Ok (s5, offset') ->
  match template s5 with
  | Some (SimplePacking _) => dataRepresentationTemplateNumber s5 = 0
  | Some (ComplexPacking _ g) =>
      (dataRepresentationTemplateNumber s5 = 2
       /\ orderOfSpatialDifferencing g = 0
       /\ numberOfOctetsExtraDescriptors g = None)
      \/ dataRepresentationTemplateNumber s5 = 3
  | None =>
      dataRepresentationTemplateNumber s5 <> 0
      /\ dataRepresentationTemplateNumber s5 <> 2
      /\ dataRepresentationTemplateNumber s5 <> 3
  end.
Proof.
  intros Hs5. unfold parseSection5 in Hs5. bind_inv Hs5.
  injection Hs5 as Hrec Hoff. subst s5. cbn [template dataRepresentationTemplateNumber].
  match goal with
  | Ht : (if ?n =? 0 then _ else _) = Ok _ |- _ =>
      destruct (n =? 0) eqn:K0;
        [|destruct (n =? 2) eqn:K2; [|destruct (n =? 3) eqn:K3]];
        bind_inv Ht; injection Ht as <-
  end.
  - apply Z.eqb_eq in K0. exact K0.
  - apply Z.eqb_eq in K2. left. split; [exact K2|].
    match goal with
    | Hg : parseGroups _ _ false = Ok ?g |- _ =>
        unfold parseGroups in Hg; bind_inv Hg; injection Hg as <-
    end.
    split; reflexivity.
  - apply Z.eqb_eq in K3. right. exact K3.
  - apply Z.eqb_neq in K0, K2, K3. auto.
Qed.

End Shapes.

(** With an extra-descriptor octet count other than 1 or 2, step 1 reads
    nothing: h1, h2 and the minimum stay 0 and the cursor stays at the
    start of the data. *)
Lemma readSpatialHeader_other_counts (view : list byte) (offset order extra : Z) :
  extra <> 1 -> extra <> 2 ->
  readSpatialHeader view offset order extra = Ok (0, 0, 0, offset * 8).
Proof.
  intros H1 H2. unfold readSpatialHeader.
  destruct ((0 <? order) && (0 <? extra)); [|reflexivity].
  destruct (Z.eqb_spec extra 2); [contradiction|].
  destruct (Z.eqb_spec extra 1); [contradiction|].
  reflexivity.
Qed.

(** * Further properties of the reader *)

Lemma ToInt32_mod (a b : Z) : a mod 2 ^ 32 = b mod 2 ^ 32 -> ToInt32 a = ToInt32 b.
Proof.
  intros Hab. unfold ToInt32. f_equal.
  rewrite <- (Zplus_mod_idemp_l a), <- (Zplus_mod_idemp_l b), Hab. reflexivity.
Qed.

Lemma ToInt32_idem (a : Z) : ToInt32 (ToInt32 a) = ToInt32 a.
Proof. apply ToInt32_small, ToInt32_range. Qed.

Lemma ToInt32_mul_pow2 (a k : Z) :
  0 <= k -> ToInt32 (ToInt32 a * 2 ^ k) = ToInt32 (a * 2 ^ k).
Proof.
  intros Hk. apply ToInt32_mod.
  unfold ToInt32.
  rewrite <- (Zmult_mod_idemp_l ((a + 2 ^ 31) mod 2 ^ 32 - 2 ^ 31)).
  rewrite <- (Zmult_mod_idemp_l a).
  f_equal. f_equal.
  rewrite <- Zminus_mod_idemp_l, Z.mod_mod by lia.
  rewrite Zminus_mod_idemp_l. f_equal. lia.
Qed.

Lemma ToInt32_shifted_multiple (u k : Z) :
  0 <= k <= 31 -> exists y, ToInt32 (u * 2 ^ k) = y * 2 ^ k.
Proof.
  intros Hk. unfold ToInt32.
  assert (Hpos : 0 < 2 ^ k) by (apply Z.pow_pos_nonneg; lia).
  assert (H31 : 2 ^ 31 = 2 ^ (31 - k) * 2 ^ k)
    by (rewrite <- Z.pow_add_r by lia; f_equal; lia).
  assert (H32 : 2 ^ 32 = 2 ^ (32 - k) * 2 ^ k)
    by (rewrite <- Z.pow_add_r by lia; f_equal; lia).
  assert (Hdiv : (2 ^ k | (u * 2 ^ k + 2 ^ 31) mod 2 ^ 32 - 2 ^ 31)).
  { apply Z.divide_sub_r.
    - apply Z.mod_divide; [lia|].
      rewrite Z.mod_mod_divide by (exists (2 ^ (32 - k)); exact H32).
      rewrite H31. rewrite <- Z.mul_add_distr_r. apply Z.mod_mul. lia.
    - exists (2 ^ (31 - k)). exact H31. }
  destruct Hdiv as [y Hy]. exists y. exact Hy.
Qed.

(** One turn of the loop appends the next bits; the value is kept as an
    int32 by the operators [<<] and [|]. *)
Lemma readBits_loop_int32 (view : list byte) (bitOffset numberOfBits : Z) (fuel : nat)
    (bitsRead : Z) :
  0 <= bitOffset ->
  (bitOffset + numberOfBits - 1) / 8 < byteLength view ->
  0 <= bitsRead <= numberOfBits ->
  numberOfBits - bitsRead <= Z.of_nat fuel ->
  readBits_loop fuel view (bitOffset / 8) (Z.rem bitOffset 8) numberOfBits
    (ToInt32 (unsignedBits view bitOffset (Z.to_nat bitsRead))) bitsRead
  = Ok (ToInt32 (unsignedBits view bitOffset (Z.to_nat numberOfBits))).
Proof.
  intros Hoff Hlast. rewrite (Z.rem_mod_nonneg bitOffset 8) by lia.
  revert bitsRead.
  induction fuel as [|fuel IH]; intros r Hr Hfuel.
  - simpl. assert (r = numberOfBits) as -> by lia.
    rewrite Z.ltb_irrefl. reflexivity.
  - cbn [readBits_loop].
    destruct (r <? numberOfBits) eqn:Hlt; [|do 3 f_equal; lia].
    apply Z.ltb_lt in Hlt.
    pose proof (Z.mod_pos_bound bitOffset 8 ltac:(lia)) as Ht.
    rewrite Z.rem_mod_nonneg by lia.
    pose proof (Z.div_mod bitOffset 8 ltac:(lia)) as Hdm.
    set (p := bitOffset + r).
    assert (Hp8 : bitOffset / 8 + (bitOffset mod 8 + r) / 8 = p / 8).
    { unfold p. replace (bitOffset + r) with ((bitOffset mod 8 + r) + bitOffset / 8 * 8) by lia.
      rewrite Z.div_add by lia. lia. }
    assert (Hpm : (bitOffset mod 8 + r) mod 8 = p mod 8).
    { unfold p. replace (bitOffset + r) with ((bitOffset mod 8 + r) + bitOffset / 8 * 8) by lia.
      rewrite Z.mod_add by lia. reflexivity. }
    rewrite Hp8, Hpm.
    pose proof (Z.mod_pos_bound p 8 ltac:(lia)) as Hpt.
    assert (Hple : p / 8 <= (bitOffset + numberOfBits - 1) / 8)
      by (apply Z.div_le_mono; unfold p; lia).
    assert (Hp0 : 0 <= p / 8) by (apply Z.div_pos; unfold p; lia).
    rewrite getUint8_in_range by lia. cbn [mbind outcome_bind].
    set (k := Z.min (numberOfBits - r) (8 - p mod 8)).
    assert (Hk : 1 <= k <= 8) by (unfold k; lia).
    set (b := byteAt view (p / 8)).
    assert (Hb : 0 <= b < 256).
    { destruct (getUint8_Ok view (p / 8) b (getUint8_in_range view (p / 8) ltac:(lia)))
        as (_ & _ & Hb). exact Hb. }
    assert (H28 : 2 ^ k <= 2 ^ 8) by (apply Z.pow_le_mono_r; lia).
    assert (Hk1 : 1 <= 2 ^ k) by (apply (Z.pow_le_mono_r 2 0 k); lia).
    assert (Hmask : js_shl 1 k - 1 = Z.ones k).
    { unfold js_shl. rewrite (ToInt32_small 1) by lia.
      rewrite (Z.mod_small k 32) by lia.
      rewrite Z.shiftl_mul_pow2, Z.mul_1_l by lia.
      rewrite Z.ones_equiv, ToInt32_small; lia. }
    rewrite Hmask.
    set (sh := 8 - p mod 8 - k).
    assert (Hsh : 0 <= sh <= 7) by (unfold sh; lia).
    assert (Hchunk : js_and (js_shr b sh) (Z.ones k) = (b / 2 ^ sh) mod 2 ^ k).
    { unfold js_and, js_shr. rewrite (ToInt32_small b) by lia.
      rewrite (Z.mod_small sh 32) by lia.
      rewrite Z.shiftr_div_pow2 by lia.
      assert (0 <= b / 2 ^ sh <= b).
      { split; [apply Z.div_pos; lia|].
        apply Z.div_le_upper_bound; [lia|]. nia. }
      rewrite (ToInt32_small (b / 2 ^ sh)) by lia.
      rewrite ToInt32_small, Z.land_ones; [reflexivity|lia|].
      rewrite Z.ones_equiv. lia. }
    rewrite Hchunk.
    set (u := unsignedBits view bitOffset (Z.to_nat r)).
    set (c := (b / 2 ^ sh) mod 2 ^ k).
    assert (Hc : 0 <= c < 2 ^ k) by (apply Z.mod_pos_bound; lia).
    assert (Hshl : js_shl (ToInt32 u) k = ToInt32 (u * 2 ^ k)).
    { unfold js_shl. rewrite ToInt32_idem, (Z.mod_small k 32) by lia.
      rewrite Z.shiftl_mul_pow2 by lia. apply ToInt32_mul_pow2. lia. }
    rewrite Hshl.
    destruct (ToInt32_shifted_multiple u k ltac:(lia)) as [y Hy].
    pose proof (ToInt32_range (u * 2 ^ k)) as Hx.
    assert (Hor : js_or (ToInt32 (u * 2 ^ k)) c = ToInt32 (u * 2 ^ k + c)).
    { unfold js_or. rewrite ToInt32_idem, (ToInt32_small c) by lia.
      rewrite Hy, lor_shifted by lia. rewrite <- Hy.
      rewrite <- (ToInt32_add_l (u * 2 ^ k) c).
      symmetry. apply ToInt32_small.
      rewrite Hy in Hx |- *.
      assert (H31 : 2 ^ 31 = 2 ^ (31 - k) * 2 ^ k)
        by (rewrite <- Z.pow_add_r by lia; f_equal; lia).
      rewrite H31 in Hx |- *.
      set (A := 2 ^ (31 - k)) in *. set (M := 2 ^ k) in *.
      assert (HyA : - A <= y < A) by nia.
      nia. }
    rewrite Hor.
    replace (u * 2 ^ k + c) with (unsignedBits view bitOffset (Z.to_nat (r + k))).
    + apply IH; unfold k; lia.
    + rewrite Z2Nat.inj_add, unsignedBits_app, !Z2Nat.id by lia.
      fold u. f_equal.
      change (bitOffset + r) with p.
      assert (Hk0 : 0 <= k) by lia.
      rewrite unsignedBits_in_byte; rewrite ?Z2Nat.id by exact Hk0;
        [reflexivity|unfold p; lia|lia].
Qed.

(** Within the buffer, readBits returns the bits as an int32. *)
Lemma readBits_int32 (view : list byte) (bitOffset numberOfBits : Z) :
  0 <= bitOffset -> bitOffset + numberOfBits <= 8 * byteLength view ->
  readBits view bitOffset numberOfBits
  = Ok (ToInt32 (unsignedBits view bitOffset (Z.to_nat numberOfBits))).
Proof.
  intros Hoff Hin. unfold readBits.
  destruct (byteLength view <=? (bitOffset + numberOfBits - 1) / 8) eqn:Hchk.
  - apply lastByte_bound in Hchk. lia.
  - apply Z.leb_gt in Hchk.
    destruct (Z_le_gt_dec numberOfBits 0) as [Hn|Hn].
    + replace (Z.to_nat numberOfBits) with 0%nat by lia.
      cbn [readBits_loop unsignedBits].
      destruct (0 <? numberOfBits) eqn:E; [apply Z.ltb_lt in E; lia|reflexivity].
    + apply (readBits_loop_int32 view bitOffset numberOfBits (Z.to_nat numberOfBits) 0);
        lia.
Qed.

Lemma readBits_not_OutOfFuel (view : list byte) (bitOffset numberOfBits : Z) :
  readBits view bitOffset numberOfBits <> OutOfFuel.
Proof.
  destruct (Z_lt_le_dec (8 * byteLength view) (bitOffset + numberOfBits)) as [Hout|Hin].
  - apply readBits_throws_iff in Hout. congruence.
  - destruct (Z_le_gt_dec 0 bitOffset) as [Hoff|Hoff].
    + rewrite readBits_int32 by lia. discriminate.
    + unfold readBits.
      destruct (byteLength view <=? (bitOffset + numberOfBits - 1) / 8); [discriminate|].
      destruct (Z.to_nat numberOfBits) as [|fuel] eqn:Hfuel; cbn [readBits_loop].
      * destruct (0 <? numberOfBits) eqn:E; [apply Z.ltb_lt in E; lia|discriminate].
      * destruct (0 <? numberOfBits); [|discriminate].
        assert (Hneg : bitOffset / 8 + (Z.rem bitOffset 8 + 0) / 8 < 0).
        { assert (bitOffset / 8 < 0) by (apply Z.div_lt_upper_bound; lia).
          pose proof (Z.rem_bound_pos_neg bitOffset 8 ltac:(lia) ltac:(lia)).
          assert ((Z.rem bitOffset 8 + 0) / 8 <= 0)
            by (apply Z.div_le_upper_bound; lia).
          lia. }
        unfold getUint8. apply Z.ltb_lt in Hneg. rewrite Hneg.
        cbn [mbind outcome_bind]. discriminate.
Qed.

(** X1.  Within the buffer, readBits returns the [numberOfBits] bits that
    start at bit [bitOffset], most significant first, as one integer kept
    in 32 bits by the operators [<<] and [|]: the big-endian unsigned
    value wrapped to a signed 32-bit integer, for every width.  Up to 31
    bits that is the unsigned value itself. *)
Theorem readBits_value (view : list byte) (bitOffset numberOfBits : Z) :
  0 <= bitOffset -> 0 <= numberOfBits ->
  bitOffset + numberOfBits <= 8 * byteLength view ->
  let unsigned := unsignedBits view bitOffset (Z.to_nat numberOfBits) in
  readBits view bitOffset numberOfBits = Ok (ToInt32 unsigned)
  /\ 0 <= unsigned < 2 ^ numberOfBits
  /\ (numberOfBits <= 31 -> ToInt32 unsigned = unsigned).
Proof.
  intros Hoff Hn Hin unsigned.
  pose proof (unsignedBits_range view bitOffset (Z.to_nat numberOfBits)) as Hr.
  rewrite Z2Nat.id in Hr by lia. fold unsigned in Hr.
  split; [apply readBits_int32; lia|]. split; [exact Hr|].
  intros H31. apply ToInt32_small.
  assert (2 ^ numberOfBits <= 2 ^ 31) by (apply Z.pow_le_mono_r; lia). lia.
Qed.

Lemma readBits_value_witness :
  readBits Inputs.ones 4 24 = Ok 16777215
  /\ readBits Inputs.ones 0 32 = Ok (-1).
Proof.
  split.
  - destruct (readBits_value Inputs.ones 4 24) as (Hv & _ & _);
      [lia|lia|vm_compute; discriminate|exact Hv].
  - destruct (readBits_value Inputs.ones 0 32) as (Hv & _ & _);
      [lia|lia|vm_compute; discriminate|exact Hv].
Defined.

(** X2.  readBits throws its own bounds error exactly when the bits end
    beyond the buffer, whatever the offset and the width; it always
    terminates; and with a bit offset that is not negative no RangeError
    of the DataView escapes from it. *)
Theorem readBits_errors (view : list byte) (bitOffset numberOfBits : Z) :
  (readBits view bitOffset numberOfBits = Throw OutOfBounds
   <-> 8 * byteLength view < bitOffset + numberOfBits)
  /\ readBits view bitOffset numberOfBits <> OutOfFuel
  /\ (0 <= bitOffset ->
      forall e, readBits view bitOffset numberOfBits = Throw e -> e = OutOfBounds).
Proof.
  split; [apply readBits_throws_iff|]. split; [apply readBits_not_OutOfFuel|].
  intros Hoff e He.
  destruct (Z_lt_le_dec (8 * byteLength view) (bitOffset + numberOfBits)) as [Hout|Hin].
  - apply readBits_throws_iff in Hout. congruence.
  - rewrite readBits_int32 in He by lia. discriminate.
Qed.

Section SimplePacking.
Context {num : Type} `{JSNumber num}.

(** The loop of decodeSimplePacking reads the value [i] at bit
    [bitOffset + i * nbits]. *)
Lemma simpleValues_in_bounds (n : nat) (view : list byte) (bitOffset nbits : Z)
    (R binaryScale decimalScale : num) :
  0 <= bitOffset -> 0 <= nbits ->
  bitOffset + Z.of_nat n * nbits <= 8 * byteLength view ->
  exists d,
    simpleValues n view bitOffset nbits R binaryScale decimalScale = Ok d
    /\ length d = n
    /\ forall i : nat, (i < n)%nat ->
         d !! i
         = Some (toFloat32
                   (nmul (nadd R (nmul (ofZ (ToInt32 (unsignedBits view
                                                        (bitOffset + Z.of_nat i * nbits)
                                                        (Z.to_nat nbits))))
                                       binaryScale))
                         decimalScale)).
Proof.
  revert bitOffset. induction n as [|n IH]; intros bitOffset Hoff Hbits Hin.
  - exists []. repeat split. intros i Hi. lia.
  - cbn [simpleValues]. rewrite Nat2Z.inj_succ in Hin.
    rewrite readBits_int32 by nia. cbn [mbind outcome_bind].
    destruct (IH (bitOffset + nbits)) as (d & Hd & Hlen & Hval); [lia|lia|nia|].
    rewrite Hd. cbn [mbind outcome_bind].
    eexists. split; [reflexivity|]. split; [cbn; lia|].
    intros [|i] Hi.
    + cbn. do 8 f_equal. lia.
    + cbn [lookup list_lookup]. rewrite Hval by lia. do 8 f_equal. lia.
Qed.

(** The first value that ends beyond the buffer makes readBits throw. *)
Lemma simpleValues_out_of_bounds (n : nat) (view : list byte) (bitOffset nbits : Z)
    (R binaryScale decimalScale : num) :
  0 <= bitOffset -> 0 < nbits ->
  8 * byteLength view < bitOffset + Z.of_nat (S n) * nbits ->
  simpleValues (S n) view bitOffset nbits R binaryScale decimalScale = Throw OutOfBounds.
Proof.
  revert bitOffset. induction n as [|n IH]; intros bitOffset Hoff Hbits Hout;
    rewrite Nat2Z.inj_succ in Hout.
  - cbn [simpleValues].
    assert (Hfirst : 8 * byteLength view < bitOffset + nbits) by lia.
    apply readBits_throws_iff in Hfirst. rewrite Hfirst. reflexivity.
  - change (simpleValues (S (S n)) view bitOffset nbits R binaryScale decimalScale)
      with (packedValue ← readBits view bitOffset nbits;
            rest ← simpleValues (S n) view (bitOffset + nbits) nbits R binaryScale
                     decimalScale;
            Ok (toFloat32 (nmul (nadd R (nmul (ofZ packedValue) binaryScale)) decimalScale)
                :: rest)).
    destruct (Z_lt_le_dec (8 * byteLength view) (bitOffset + nbits)) as [Hfirst|Hfirst].
    + apply readBits_throws_iff in Hfirst. rewrite Hfirst. reflexivity.
    + rewrite readBits_int32 by lia. cbn [mbind outcome_bind].
      rewrite IH by lia. reflexivity.
Qed.

End SimplePacking.

Section SimplePackingTheorems.
Context {num : Type} `{JSNumber num}.

(** X3.  Simple packing with a non-zero width: when the [N] values of
    [numberOfBits] bits each, counted from byte [offset], lie within the
    buffer, decodeSimplePacking returns [N] values, and value [i] is the
    float32 of (R + X_i * 2^E) * 10^(-D), where X_i is what readBits gives
    for the bits of value [i] (their unsigned value, as an int32). *)
Theorem decodeSimplePacking_values (view : list byte) (offset dataLength : Z)
    (t : Packing num) (N : Z) :
  0 <= offset -> 0 < numberOfBits t -> 0 <= N ->
  offset * 8 + N * numberOfBits t <= 8 * byteLength view ->
  exists d,
    decodeSimplePacking view offset dataLength t N = Ok d
    /\ length d = Z.to_nat N
    /\ forall i : Z, 0 <= i < N ->
         let X := ToInt32 (unsignedBits view (offset * 8 + i * numberOfBits t)
                             (Z.to_nat (numberOfBits t))) in
         d !! Z.to_nat i
         = Some (toFloat32 (nmul (nadd (referenceValue t)
                                       (nmul (ofZ X) (Math_pow 2 (binaryScaleFactor t))))
                                 (Math_pow 10 (- decimalScaleFactor t)))).
Proof.
  intros Hoff Hbits HN Hin. unfold decodeSimplePacking.
  destruct (numberOfBits t =? 0) eqn:E; [apply Z.eqb_eq in E; lia|].
  destruct (simpleValues_in_bounds (Z.to_nat N) view (offset * 8) (numberOfBits t)
              (referenceValue t) (Math_pow 2 (binaryScaleFactor t))
              (Math_pow 10 (- decimalScaleFactor t)))
    as (d & Hd & Hlen & Hval); [lia|lia|rewrite Z2Nat.id by lia; lia|].
  exists d. split; [exact Hd|]. split; [exact Hlen|].
  intros i Hi. cbn zeta. rewrite Hval by lia. rewrite Z2Nat.id by lia. reflexivity.
Qed.

(** X4.  Simple packing with a non-zero width: when the [N] values end
    beyond the buffer, decodeSimplePacking throws the bounds error of
    readBits (it has no handler of its own).  The length of the data
    section plays no part: the values are read past its end as long as
    the buffer has bytes. *)
Theorem decodeSimplePacking_truncated (view : list byte) (offset dataLength : Z)
    (t : Packing num) (N : Z) :
  0 <= offset -> 0 < numberOfBits t -> 0 < N ->
  8 * byteLength view < offset * 8 + N * numberOfBits t ->
  decodeSimplePacking view offset dataLength t N = Throw OutOfBounds.
Proof.
  intros Hoff Hbits HN Hout. unfold decodeSimplePacking.
  destruct (numberOfBits t =? 0) eqn:E; [apply Z.eqb_eq in E; lia|].
  destruct (Z.to_nat N) as [|n] eqn:HNn; [lia|].
  apply simpleValues_out_of_bounds; [lia|lia|].
  rewrite <- HNn, Z2Nat.id by lia. exact Hout.
Qed.

End SimplePackingTheorems.

Lemma decodeSimplePacking_values_witness :
  exists d : list spec_float,
    decodeSimplePacking Inputs.firstOrderData 0 7 Inputs.firstOrder 7 = Ok d
    /\ length d = 7%nat
    /\ d !! 1%nat = Some (IEEE.of_Z 130).
Proof.
  destruct (decodeSimplePacking_values (num := spec_float) Inputs.firstOrderData 0 7
              Inputs.firstOrder 7)
    as (d & Hd & Hlen & Hval);
    [lia|reflexivity|lia|vm_compute; discriminate|].
  exists d. split; [exact Hd|]. split; [exact Hlen|].
  pose proof (Hval 1 ltac:(lia)) as H1. cbn zeta in H1.
  change (Z.to_nat 1) with 1%nat in H1. rewrite H1. vm_compute. reflexivity.
Defined.

Lemma decodeSimplePacking_truncated_witness :
  decodeSimplePacking (num := spec_float) Inputs.firstOrderData 0 7 Inputs.firstOrder 8
  = Throw OutOfBounds.
Proof.
  apply decodeSimplePacking_truncated; [lia|reflexivity|lia|vm_compute; reflexivity].
Defined.

(** ** Calls that cannot run out of fuel *)

Lemma bind_not_OutOfFuel {A B : Type} (m : outcome A) (f : A -> outcome B) :
  m <> OutOfFuel -> (forall a, m = Ok a -> f a <> OutOfFuel) -> m ≫= f <> OutOfFuel.
Proof.
  intros Hm Hf. destruct m as [a|e|]; cbn [mbind outcome_bind];
    [apply Hf; reflexivity|discriminate|contradiction].
Qed.

Lemma readDescriptors_not_OutOfFuel (view : list byte) (bitPos nbitsd order : Z) :
  readDescriptors view bitPos nbitsd order <> OutOfFuel.
Proof.
  unfold readDescriptors.
  apply bind_not_OutOfFuel; [apply readBits_not_OutOfFuel|]. intros h1 _.
  apply bind_not_OutOfFuel.
  - destruct (order =? 2); [|discriminate].
    apply bind_not_OutOfFuel; [apply readBits_not_OutOfFuel|]. discriminate.
  - intros [h2 bitPos'] _.
    apply bind_not_OutOfFuel; [apply readBits_not_OutOfFuel|]. intros isign _.
    apply bind_not_OutOfFuel; [apply readBits_not_OutOfFuel|]. discriminate.
Qed.

Lemma readSpatialHeader_not_OutOfFuel (view : list byte) (offset order extra : Z) :
  readSpatialHeader view offset order extra <> OutOfFuel.
Proof.
  unfold readSpatialHeader.
  destruct (_ && _); [|discriminate].
  destruct (extra =? 2); [apply readDescriptors_not_OutOfFuel|].
  destruct (extra =? 1); [apply readDescriptors_not_OutOfFuel|discriminate].
Qed.

Lemma readValues_not_OutOfFuel (n : nat) (view : list byte) (bitOffset nbits : Z) :
  readValues n view bitOffset nbits <> OutOfFuel.
Proof.
  revert bitOffset. induction n as [|n IH]; intros bitOffset; cbn [readValues];
    [discriminate|].
  apply bind_not_OutOfFuel; [apply readBits_not_OutOfFuel|]. intros v _.
  apply bind_not_OutOfFuel; [apply IH|]. discriminate.
Qed.

Lemma readGroupArray_not_OutOfFuel (view : list byte) (G bitOffset nbits : Z) :
  readGroupArray view G bitOffset nbits <> OutOfFuel.
Proof.
  unfold readGroupArray. destruct (0 <? nbits); [|discriminate].
  apply bind_not_OutOfFuel; [apply readValues_not_OutOfFuel|]. discriminate.
Qed.

Lemma unpackWide_not_OutOfFuel (count : nat) (view : list byte)
    (gref gwidth maxBitOffset N : Z) (st : unpackState) :
  unpackWide count view gref gwidth maxBitOffset N st <> OutOfFuel.
Proof.
  revert st. induction count as [|count IH]; intros [[ifld n] bitOffset];
    cbn [unpackWide]; [discriminate|].
  destruct (n <? N); [|discriminate].
  destruct (maxBitOffset <? bitOffset + gwidth); [discriminate|].
  apply bind_not_OutOfFuel; [apply readBits_not_OutOfFuel|]. intros v _. apply IH.
Qed.

Lemma unpackGroups_not_OutOfFuel (groups : list (Z * Z * Z)) (view : list byte)
    (maxBitOffset N : Z) (st : unpackState) :
  unpackGroups groups view maxBitOffset N st <> OutOfFuel.
Proof.
  revert st. induction groups as [|[[gref gwidth] glen] groups IH]; intros st;
    cbn [unpackGroups]; [discriminate|].
  destruct (negb (gwidth =? 0)); [|apply IH].
  apply bind_not_OutOfFuel; [apply unpackWide_not_OutOfFuel|]. intros st' _.
  destruct (N <=? st'.1.2); [discriminate|apply IH].
Qed.

Lemma foldl_insert_length (f : list Z -> nat -> list Z) (l : list Z) (ns : list nat) :
  (forall a n, length (f a n) = length a) -> length (foldl f l ns) = length l.
Proof.
  intros Hf. revert l. induction ns as [|n ns IH]; intros l; cbn [foldl]; [reflexivity|].
  rewrite IH. apply Hf.
Qed.

Lemma reverseSpatialDifferencing_length (order h1 h2 overallMin N : Z) (ifld : list Z) :
  length (reverseSpatialDifferencing order h1 h2 overallMin N ifld) = length ifld.
Proof.
  unfold reverseSpatialDifferencing.
  destruct (0 <? order); [|reflexivity].
  destruct (order =? 1).
  - rewrite foldl_insert_length, length_insert; [reflexivity|].
    intros a n. unfold undiff1. rewrite !length_insert. reflexivity.
  - destruct (order =? 2); [|reflexivity].
    rewrite foldl_insert_length, !length_insert; [reflexivity|].
    intros a n. unfold undiff2. rewrite !length_insert. reflexivity.
Qed.

Section ComplexPacking.
Context {num : Type} `{JSNumber num}.

Lemma unpackedField_not_OutOfFuel (view : list byte) (offset dataLength : Z)
    (p : Packing num) (g : Groups num) (N bitOffset : Z) :
  unpackedField view offset dataLength p g N bitOffset <> OutOfFuel.
Proof.
  unfold unpackedField. destruct (numberOfGroups g =? 0); [discriminate|].
  apply bind_not_OutOfFuel; [apply readGroupArray_not_OutOfFuel|]. intros [gref b1] _.
  apply bind_not_OutOfFuel; [apply readGroupArray_not_OutOfFuel|]. intros [gwidth b2] _.
  apply bind_not_OutOfFuel; [apply readGroupArray_not_OutOfFuel|]. intros [glen b3] _.
  apply bind_not_OutOfFuel; [apply unpackGroups_not_OutOfFuel|]. discriminate.
Qed.

Lemma integerField_not_OutOfFuel (view : list byte) (offset dataLength : Z)
    (p : Packing num) (g : Groups num) (N : Z) :
  integerField view offset dataLength p g N <> OutOfFuel.
Proof.
  unfold integerField.
  apply bind_not_OutOfFuel; [apply readSpatialHeader_not_OutOfFuel|].
  intros [[[h1 h2] overallMin] bitOffset] _.
  apply bind_not_OutOfFuel; [apply unpackedField_not_OutOfFuel|]. discriminate.
Qed.

Lemma integerField_length (view : list byte) (offset dataLength : Z)
    (p : Packing num) (g : Groups num) (N : Z) (I : list Z) :
  integerField view offset dataLength p g N = Ok (Some I) -> length I = Z.to_nat N.
Proof.
  unfold integerField. intros HI. bind_inv HI.
  match goal with
  | HU : unpackedField _ _ _ _ _ _ _ = Ok ?u |- _ =>
      destruct u as [U|]; cbn in HI; [|discriminate];
      apply unpackedField_length in HU
  end.
  injection HI as <-. rewrite reverseSpatialDifferencing_length. assumption.
Qed.

Lemma decodeComplexPacking_returns (view : list byte) (offset dataLength : Z)
    (p : Packing num) (g : Groups num) (N : Z) :
  exists d,
    decodeComplexPacking view offset dataLength p g N = Ok d
    /\ length d = Z.to_nat N
    /\ (forall e, integerField view offset dataLength p g N = Throw e ->
        d = replicate (Z.to_nat N) (ofZ 0)).
Proof.
  unfold decodeComplexPacking.
  destruct (integerField view offset dataLength p g N) as [[I|]|e|] eqn:HI.
  - eexists. split; [reflexivity|]. split; [|discriminate].
    rewrite length_fmap. eapply integerField_length, HI.
  - eexists. split; [reflexivity|]. split; [apply length_replicate|discriminate].
  - eexists. split; [reflexivity|]. split; [apply length_replicate|reflexivity].
  - exfalso. revert HI. apply integerField_not_OutOfFuel.
Qed.

(** X5.  decodeComplexPacking never throws and always terminates: for
    every buffer, offset, length and template, and every number of
    points that is not negative, it returns an array of [numberOfPoints]
    values.  An error met while decoding (a read beyond
    the buffer) is caught, and the result is then all zeros. *)
Theorem decodeComplexPacking_total (view : list byte) (offset dataLength : Z)
    (p : Packing num) (g : Groups num) (N : Z) :
  0 <= N ->
  exists d,
    decodeComplexPacking view offset dataLength p g N = Ok d
    /\ length d = Z.to_nat N
    /\ (forall e, integerField view offset dataLength p g N = Throw e ->
        d = replicate (Z.to_nat N) (ofZ 0)).
Proof.
  intros _.
  destruct (decodeComplexPacking_returns view offset dataLength p g N)
    as (d & Hd & Hlen & Hzero).
  exists d. split; [exact Hd|]. split; [exact Hlen|exact Hzero].
Qed.

End ComplexPacking.

Lemma decodeComplexPacking_total_witness :
  exists d,
    decodeComplexPacking [] 0 0 Inputs.constantField
      {| groupSplittingMethod := 1; missingValueManagement := 0;
         primaryMissingValue := IEEE.of_Z 0; secondaryMissingValue := IEEE.of_Z 0;
         numberOfGroups := 2; referenceForGroupWidths := 0;
         numberOfBitsForGroupWidths := 4; referenceForGroupLengths := 1;
         lengthIncrementForGroupLengths := 1; trueLengthOfLastGroup := 2;
         numberOfBitsForScaledGroupLengths := 4; orderOfSpatialDifferencing := 0;
         numberOfOctetsExtraDescriptors := None |} 3
    = Ok d
    /\ length d = 3%nat.
Proof.
  destruct (decodeComplexPacking_total (num := spec_float) [] 0 0 Inputs.constantField
              {| groupSplittingMethod := 1; missingValueManagement := 0;
                 primaryMissingValue := IEEE.of_Z 0; secondaryMissingValue := IEEE.of_Z 0;
                 numberOfGroups := 2; referenceForGroupWidths := 0;
                 numberOfBitsForGroupWidths := 4; referenceForGroupLengths := 1;
                 lengthIncrementForGroupLengths := 1; trueLengthOfLastGroup := 2;
                 numberOfBitsForScaledGroupLengths := 4; orderOfSpatialDifferencing := 0;
                 numberOfOctetsExtraDescriptors := None |} 3)
    as (d & Hd & Hlen & _); [lia|].
  exists d. split; [exact Hd|exact Hlen].
Defined.

Section ComplexPackingNoGroups.
Context {num : Type} `{JSNumber num}.

(** X6.  Complex packing without spatial differencing and with no group:
    whatever the data bytes and the binary scale factor, the field is
    constant, [numberOfPoints] times (a number that is not negative) the
    float32 of R * 10^(-D). *)
Theorem decodeComplexPacking_no_groups (view : list byte) (offset dataLength : Z)
    (p : Packing num) (g : Groups num) (N : Z) :
  numberOfGroups g = 0 -> orderOfSpatialDifferencing g = 0 -> 0 <= N ->
  decodeComplexPacking view offset dataLength p g N
  = Ok (replicate (Z.to_nat N)
          (toFloat32 (nmul (referenceValue p) (Math_pow 10 (- decimalScaleFactor p))))).
Proof.
  intros HG Horder _. unfold decodeComplexPacking, integerField, readSpatialHeader.
  rewrite Horder. cbn [Z.ltb Z.compare andb mbind outcome_bind].
  unfold unpackedField. rewrite HG. reflexivity.
Qed.

End ComplexPackingNoGroups.

Lemma decodeComplexPacking_no_groups_witness :
  decodeComplexPacking [] 0 0 Inputs.constantField
    {| groupSplittingMethod := 1; missingValueManagement := 0;
       primaryMissingValue := IEEE.of_Z 0; secondaryMissingValue := IEEE.of_Z 0;
       numberOfGroups := 0; referenceForGroupWidths := 0;
       numberOfBitsForGroupWidths := 0; referenceForGroupLengths := 0;
       lengthIncrementForGroupLengths := 0; trueLengthOfLastGroup := 0;
       numberOfBitsForScaledGroupLengths := 0; orderOfSpatialDifferencing := 0;
       numberOfOctetsExtraDescriptors := None |} 3
  = Ok (replicate 3 (IEEE.of_Z 10)).
Proof.
  rewrite decodeComplexPacking_no_groups by first [reflexivity|lia]. vm_compute. reflexivity.
Defined.

(** ** The DataView getters fail with a RangeError only *)

Lemma getUint8_Throw (view : list byte) (off : Z) (e : error) :
  getUint8 view off = Throw e -> e = RangeError.
Proof.
  unfold getUint8. destruct (off <? 0); [intros [= <-]; reflexivity|].
  destruct (view !! Z.to_nat off); [discriminate|intros [= <-]; reflexivity].
Qed.

Lemma getUint8_not_OutOfFuel (view : list byte) (off : Z) : getUint8 view off <> OutOfFuel.
Proof.
  unfold getUint8. destruct (off <? 0); [discriminate|].
  destruct (view !! Z.to_nat off); discriminate.
Qed.

Lemma getUint32_Ok (view : list byte) (off v : Z) :
  getUint32 view off = Ok v ->
  0 <= off /\ off + 4 <= byteLength view /\ 0 <= v < 2 ^ 32
  /\ v = byteAt view off * 2 ^ 24 + byteAt view (off + 1) * 2 ^ 16
         + byteAt view (off + 2) * 2 ^ 8 + byteAt view (off + 3).
Proof.
  unfold getUint32. intros Hv. bind_inv Hv. injection Hv as <-.
  repeat match goal with
  | Hb : getUint8 _ _ = Ok _ |- _ => apply getUint8_Ok in Hb; destruct Hb as (? & -> & ?)
  end.
  repeat split; lia.
Qed.

Section ParseLoop.
Context {num : Type} `{JSNumber num}.

(** X7.  parse never throws.  Whatever parseMessage throws ends the loop,
    and the loop then returns [this.messages]: the messages pushed before
    stay in the result, in their order. *)
Theorem parse_never_throws (fuel : nat) (view : list byte) :
  (forall e, parse (num := num) fuel view <> Throw e)
  /\ (forall (offset : Z) (messages result : list (Message num)),
        parseLoop fuel view offset messages = Ok result ->
        exists later, result = messages ++ later).
Proof.
  assert (Hloop : forall (offset : Z) (messages : list (Message num)),
            (forall e, parseLoop fuel view offset messages <> Throw e)
            /\ forall result, parseLoop fuel view offset messages = Ok result ->
                 exists later, result = messages ++ later).
  { induction fuel as [|fuel IH]; intros offset messages; cbn [parseLoop].
    - destruct (offset <? byteLength view).
      + split; discriminate.
      + split; [discriminate|]. intros result [= <-]. exists [].
        symmetry. apply app_nil_r.
    - destruct (offset <? byteLength view).
      + destruct (parseMessage fuel view offset) as [[[m|] offset']|e|].
        * destruct (IH offset' (messages ++ [m])) as [Hthrow Hok].
          split; [exact Hthrow|]. intros result Hr.
          destruct (Hok result Hr) as [later ->].
          exists (m :: later). rewrite <- app_assoc. reflexivity.
        * apply IH.
        * split; [discriminate|]. intros result [= <-]. exists [].
          symmetry. apply app_nil_r.
        * split; discriminate.
      + split; [discriminate|]. intros result [= <-]. exists [].
        symmetry. apply app_nil_r. }
  split.
  - intros e. apply Hloop.
  - intros offset messages result. apply Hloop.
Qed.

(** X8.  With at least 16 bytes left that do not start with 'GRIB', the
    loop of parse stops at once and returns the messages it has; on a
    buffer that starts so, parse returns no message. *)
Theorem parse_stops_at_bad_signature (fuel : nat) (view : list byte) (offset : Z)
    (messages : list (Message num)) :
  0 <= offset -> offset + 16 <= byteLength view ->
  fourBytes view offset <> Ok GRIB ->
  parseLoop (S fuel) view offset messages = Ok messages
  /\ (offset = 0 -> parse (num := num) (S fuel) view = Ok []).
Proof.
  intros Hoff Hlen Hsig.
  assert (Hloop : forall msgs : list (Message num),
            parseLoop (S fuel) view offset msgs = Ok msgs).
  { intros msgs. cbn [parseLoop].
    destruct (offset <? byteLength view) eqn:E; [|apply Z.ltb_ge in E; lia].
    unfold parseMessage, parseSection0.
    destruct (byteLength view <? offset + 16) eqn:E16; [apply Z.ltb_lt in E16; lia|].
    destruct (fourBytes_in_range view offset) as [s Hs]; [lia..|].
    rewrite Hs. cbn [mbind outcome_bind].
    destruct (eqFour s GRIB) eqn:Heq.
    - unfold eqFour in Heq. apply bool_decide_eq_true in Heq. congruence.
    - reflexivity. }
  split; [apply Hloop|]. intros ->. apply Hloop.
Qed.

End ParseLoop.

Lemma fourBytes_zero_length (view : list byte) (offset : Z) :
  getUint32 view offset = Ok 0 -> fourBytes view offset = Ok [0; 0; 0; 0].
Proof.
  unfold getUint32, fourBytes. intros Hv. bind_inv Hv. injection Hv as Hsum.
  repeat match goal with
  | Hb : getUint8 _ _ = Ok ?b |- _ =>
      pose proof (getUint8_Ok _ _ _ Hb) as (_ & _ & ?); revert Hb
  end.
  intros. cbn [mbind outcome_bind].
  do 2 f_equal; [|f_equal; [|f_equal; [|f_equal]]]; lia.
Qed.

Section ZeroLength.
Context {num : Type} `{JSNumber num}.

Lemma parseGridTemplate0_in_range (view : list byte) (offset : Z) :
  0 <= offset -> offset + 58 <= byteLength view ->
  exists gt : GridTemplate0 num, parseGridTemplate0 view offset = Ok gt.
Proof.
  intros Hlo Hhi. unfold parseGridTemplate0, getInt32, getUint32, getUint16.
  repeat (rewrite getUint8_in_range by lia; cbn [mbind outcome_bind]).
  eauto.
Qed.

Lemma parseSection3_zero_length (view : list byte) (offset : Z) :
  0 <= offset -> offset + 72 <= byteLength view ->
  getUint32 view offset = Ok 0 ->
  exists s3 : Section3 (num := num), parseSection3 view offset = Ok (s3, offset).
Proof.
  intros Hlo Hhi Hlen. unfold parseSection3. rewrite Hlen. cbn [mbind outcome_bind].
  unfold getUint32, getUint16.
  repeat (rewrite getUint8_in_range by lia; cbn [mbind outcome_bind]).
  destruct (_ =? 0).
  - destruct (parseGridTemplate0_in_range view (offset + 14)) as [gt ->]; [lia..|].
    cbn [mbind outcome_bind]. rewrite Z.add_0_r. eauto.
  - cbn [mbind outcome_bind]. rewrite Z.add_0_r. eauto.
Qed.

Lemma parseSection5_zero_length (view : list byte) (offset : Z) :
  0 <= offset -> offset + 72 <= byteLength view ->
  getUint32 view offset = Ok 0 ->
  exists s5 : Section5 (num := num), parseSection5 view offset = Ok (s5, offset).
Proof.
  intros Hlo Hhi Hlen. unfold parseSection5. rewrite Hlen. cbn [mbind outcome_bind].
  unfold getUint32, getUint16.
  repeat (rewrite getUint8_in_range by lia; cbn [mbind outcome_bind]).
  unfold parsePacking, parseGroups, getFloat32, getInt16, getUint32, getUint16.
  destruct (_ =? 0); [|destruct (_ =? 2); [|destruct (_ =? 3)]];
    repeat (rewrite getUint8_in_range by lia; cbn [mbind outcome_bind]);
    rewrite Z.add_0_r; eauto.
Qed.

(** At a section 3 or 5 whose length field is 0 the loop of parseMessage
    comes back to the same offset. *)
Lemma parseSections_stuck (view : list byte) (messageEnd offset k : Z)
    (fuel : nat) (secs : Sections (num := num)) :
  0 <= offset -> offset + 72 <= byteLength view -> offset < messageEnd ->
  getUint32 view offset = Ok 0 ->
  getUint8 view (offset + 4) = Ok k -> k = 3 \/ k = 5 ->
  parseSections fuel view messageEnd offset secs = OutOfFuel.
Proof.
  intros Hlo Hhi Hend Hlen Hk Hk35. revert secs.
  induction fuel as [|fuel IH]; intros secs; cbn [parseSections].
  - destruct (offset <? messageEnd) eqn:E; [reflexivity|apply Z.ltb_ge in E; lia].
  - destruct (offset <? messageEnd) eqn:E; [|apply Z.ltb_ge in E; lia].
    rewrite (fourBytes_zero_length view offset Hlen). cbn [mbind outcome_bind].
    change (eqFour [0; 0; 0; 0] s7777) with false. cbn iota.
    rewrite Hk. cbn [mbind outcome_bind].
    destruct Hk35 as [-> | ->]; cbn [Z.eqb Pos.eqb].
    + destruct (parseSection3_zero_length view offset Hlo Hhi Hlen) as [s3 ->].
      cbn [mbind outcome_bind]. apply IH.
    + destruct (parseSection5_zero_length view offset Hlo Hhi Hlen) as [s5 ->].
      cbn [mbind outcome_bind]. apply IH.
Qed.

(** X9.  A grid definition section (3) or a data representation section
    (5) whose length field is 0 stops the parser for good.  When sections
    0 and 1 of the first message parse, and the section that follows has
    the length 0 and the number 3 or 5 (and 72 bytes of the buffer behind
    it, so that every read stays within), then that section is parsed
    without moving the offset, the loop of parseMessage meets it again,
    and parse never returns. *)
Theorem parse_zero_length_section (view : list byte) (s0 : Section0)
    (s1 : Section1) (offset k : Z) :
  parseSection0 view 0 = Ok (Some s0, 16) ->
  parseSection1 view 16 = Ok (s1, offset) ->
  0 <= offset -> offset + 72 <= byteLength view -> offset < totalLength0 s0 ->
  getUint32 view offset = Ok 0 ->
  getUint8 view (offset + 4) = Ok k -> k = 3 \/ k = 5 ->
  forall fuel, parse (num := num) fuel view = OutOfFuel.
Proof.
  intros Hs0 Hs1 Hlo Hhi Hend Hlen Hk Hk35 fuel.
  unfold parse. destruct fuel as [|fuel]; cbn [parseLoop].
  - destruct (0 <? byteLength view) eqn:E; [reflexivity|apply Z.ltb_ge in E; lia].
  - destruct (0 <? byteLength view) eqn:E; [|apply Z.ltb_ge in E; lia].
    unfold parseMessage. rewrite Hs0. cbn [mbind outcome_bind].
    rewrite Hs1. cbn [mbind outcome_bind].
    rewrite (parseSections_stuck view (0 + totalLength0 s0) offset k); [reflexivity|..];
      try assumption; lia.
Qed.

End ZeroLength.

(** ** Where a message ends *)

Lemma roundToNumber_exact (z : Z) : 0 <= z < 2 ^ 53 -> roundToNumber z = z.
Proof.
  intros Hz. unfold roundToNumber.
  destruct (Z.eq_dec z 0) as [->|Hnz]; [reflexivity|].
  assert (Hlog : Z.log2 z < 53) by (apply Z.log2_lt_pow2; lia).
  destruct (Z.log2 z - 52 <=? 0) eqn:Hk; [reflexivity|].
  apply Z.leb_gt in Hk. lia.
Qed.

Lemma roundToNumber_rounds :
  roundToNumber (2 ^ 53 + 1) = 2 ^ 53 /\ roundToNumber (2 ^ 53 + 3) = 2 ^ 53 + 4.
Proof. split; vm_compute; reflexivity. Qed.

Section MessageEnd.
Context {num : Type} `{JSNumber num}.

Lemma getUint32_nonneg (view : list byte) (off v : Z) :
  getUint32 view off = Ok v -> 0 <= v.
Proof. intros Hv. apply getUint32_Ok in Hv. lia. Qed.

Ltac section_advances Hs :=
  bind_inv Hs; injection Hs as _ <-;
  match goal with
  | Hl : getUint32 _ _ = Ok _ |- _ => apply getUint32_nonneg in Hl; lia
  end.

Lemma parseSection2_advances (view : list byte) (offset offset' : Z) (x : Section2) :
  parseSection2 view offset = Ok (x, offset') -> offset <= offset'.
Proof. unfold parseSection2. intros Hs. section_advances Hs. Qed.

Lemma parseSection3_advances (view : list byte) (offset offset' : Z)
    (x : Section3 (num := num)) :
  parseSection3 view offset = Ok (x, offset') -> offset <= offset'.
Proof. unfold parseSection3. intros Hs. section_advances Hs. Qed.

Lemma parseSection4_advances (view : list byte) (offset offset' : Z) (x : Section4) :
  parseSection4 view offset = Ok (x, offset') -> offset <= offset'.
Proof. unfold parseSection4. intros Hs. section_advances Hs. Qed.

Lemma parseSection5_advances (view : list byte) (offset offset' : Z)
    (x : Section5 (num := num)) :
  parseSection5 view offset = Ok (x, offset') -> offset <= offset'.
Proof. unfold parseSection5. intros Hs. section_advances Hs. Qed.

Lemma parseSection6_advances (view : list byte) (offset offset' : Z) (x : Section6) :
  parseSection6 view offset = Ok (x, offset') -> offset <= offset'.
Proof. unfold parseSection6. intros Hs. section_advances Hs. Qed.

Lemma parseSection7_advances (view : list byte) (offset offset' : Z)
    (s5 : option (Section5 (num := num))) (x : Section7 (num := num)) :
  parseSection7 view offset s5 = Ok (x, offset') -> offset <= offset'.
Proof. unfold parseSection7. intros Hs. section_advances Hs. Qed.

Lemma parseSection1_advances (view : list byte) (offset offset' : Z) (x : Section1) :
  parseSection1 view offset = Ok (x, offset') -> offset <= offset'.
Proof.
  unfold parseSection1. intros Hs. bind_inv Hs.
  destruct (negb _); [discriminate|]. section_advances Hs.
Qed.

(** The loop over the sections ends after an end section '7777', or with
    the offset at or beyond the end of the message; the offset never
    moves back. *)
Lemma parseSections_end (fuel : nat) (view : list byte) (messageEnd offset offset' : Z)
    (secs secs' : Sections (num := num)) :
  parseSections fuel view messageEnd offset secs = Ok (secs', offset') ->
  offset <= offset'
  /\ (fourBytes view (offset' - 4) = Ok s7777 \/ messageEnd <= offset').
Proof.
  revert offset secs. induction fuel as [|fuel IH]; intros offset secs; cbn [parseSections].
  - destruct (offset <? messageEnd) eqn:E; [discriminate|].
    intros [= <- <-]. apply Z.ltb_ge in E. split; [lia|right; exact E].
  - destruct (offset <? messageEnd) eqn:E.
    2:{ intros [= <- <-]. apply Z.ltb_ge in E. split; [lia|right; exact E]. }
    intros Hs.
    destruct (fourBytes view offset) as [next| |] eqn:Hnext;
      cbn [mbind outcome_bind] in Hs; try discriminate.
    destruct (eqFour next s7777) eqn:H7.
    + unfold parseSection8 in Hs. rewrite Hnext in Hs. cbn [mbind outcome_bind] in Hs.
      rewrite H7 in Hs. cbn in Hs. injection Hs as <- <-.
      split; [lia|left].
      replace (offset + 4 - 4) with offset by lia.
      unfold eqFour in H7. apply bool_decide_eq_true in H7. congruence.
    + destruct (getUint8 view (offset + 4)) as [sn| |];
        cbn [mbind outcome_bind] in Hs; try discriminate.
      repeat match type of Hs with
      | (if ?c then _ else _) = Ok _ => destruct c
      end; try discriminate;
      match type of Hs with
      | mbind _ ?m = Ok _ =>
          destruct m as [[x off1]| |] eqn:Hm; cbn [mbind outcome_bind] in Hs;
            try discriminate
      end;
      apply IH in Hs; destruct Hs as [Hle Hend];
      (split; [|exact Hend]);
      first [apply parseSection2_advances in Hm
            |apply parseSection3_advances in Hm
            |apply parseSection4_advances in Hm
            |apply parseSection5_advances in Hm
            |apply parseSection6_advances in Hm
            |apply parseSection7_advances in Hm]; lia.
Qed.

(** X10.  Where a parsed message ends.  When parseMessage returns a
    message, the offset has moved on by the 16 bytes of section 0 at
    least; [totalLength] is the 64-bit length field at offset + 8 as a
    Number, high * 2^32 + low rounded to 53 bits, and so the field itself
    when it is below 2^53; and the offset stands either right behind an
    end section '7777' or at or beyond that total length.  (So the
    message ends at the first '7777' met at a section boundary, also
    before the declared length, and a message whose declared length runs
    out is returned without an end section.) *)
Theorem parseMessage_end (fuel : nat) (view : list byte) (offset offset' : Z)
    (m : Message num) :
  parseMessage fuel view offset = Ok (Some m, offset') ->
  offset + 16 <= offset'
  /\ (exists high low,
        getUint32 view (offset + 8) = Ok high
        /\ getUint32 view (offset + 12) = Ok low
        /\ totalLength m = roundToNumber (high * 2 ^ 32 + low)
        /\ (high < 2 ^ 21 -> totalLength m = high * 2 ^ 32 + low))
  /\ (fourBytes view (offset' - 4) = Ok s7777 \/ offset + totalLength m <= offset').
Proof.
  unfold parseMessage. intros Hm.
  destruct (parseSection0 view offset) as [[[s0|] off0]| |] eqn:H0;
    cbn [mbind outcome_bind] in Hm; try discriminate.
  destruct (parseSection1 view off0) as [[s1 off1]| |] eqn:H1;
    cbn [mbind outcome_bind] in Hm; try discriminate.
  match type of Hm with
  | mbind _ ?ps = Ok _ =>
      destruct ps as [[secs off2]| |] eqn:Hsecs; cbn [mbind outcome_bind] in Hm;
        try discriminate
  end.
  injection Hm as <- <-. cbn [totalLength].
  apply parseSections_end in Hsecs. destruct Hsecs as [Hle Hend].
  apply parseSection1_advances in H1.
  unfold parseSection0 in H0.
  destruct (byteLength view <? offset + 16); [discriminate|].
  bind_inv H0. destruct (negb _); [discriminate|]. bind_inv H0.
  injection H0 as <- <-. cbn [totalLength0] in *.
  split; [lia|]. split; [|exact Hend].
  match goal with
  | Hlen : readUint64 view (offset + 8) = Ok _ |- _ =>
      unfold readUint64 in Hlen;
      destruct (getUint32 view (offset + 8)) as [high| |] eqn:Hhigh;
        cbn [mbind outcome_bind] in Hlen; try discriminate;
      destruct (getUint32 view (offset + 8 + 4)) as [low| |] eqn:Hlow;
        cbn [mbind outcome_bind] in Hlen; try discriminate;
      injection Hlen as <-
  end.
  exists high, low. split; [reflexivity|].
  replace (offset + 12) with (offset + 8 + 4) by lia.
  split; [exact Hlow|]. split; [reflexivity|].
  intros Hsmall. apply roundToNumber_exact.
  apply getUint32_Ok in Hhigh. apply getUint32_Ok in Hlow. lia.
Qed.

End MessageEnd.

(** ** Sections 4 and 7 *)

Lemma subarray_Ok (view : list byte) (off len : Z) (bytes : list byte) :
  subarray view off len = Ok bytes ->
  0 <= len /\ 0 <= off /\ off + len <= byteLength view
  /\ length bytes = Z.to_nat len
  /\ forall i : Z, 0 <= i < len ->
       bytes !! Z.to_nat i = view !! Z.to_nat (off + i).
Proof.
  unfold subarray.
  destruct (len <? 0) eqn:Hlen; [discriminate|].
  destruct (off <? 0) eqn:Hoff; [discriminate|].
  destruct (byteLength view <? off + len) eqn:Hend; [discriminate|].
  cbn [orb]. intros [= <-].
  apply Z.ltb_ge in Hlen, Hoff, Hend. unfold byteLength in *.
  split; [lia|]. split; [lia|]. split; [lia|]. split.
  - rewrite length_take, length_drop. lia.
  - intros i Hi. rewrite lookup_take_lt by lia. rewrite lookup_drop. f_equal. lia.
Qed.

Section Sections47.
Context {num : Type} `{JSNumber num}.

(** X11.  The product definition section keeps its template as raw
    bytes: when parseSection4 returns, the length field is at least 9,
    the section lies within the buffer, the offset moves on by the length
    field, and [templateData] holds the [length - 9] bytes that follow
    the first 9 of the section, so that [templateData[i]] is the byte
    [offset + 9 + i] of the buffer. *)
Theorem parseSection4_templateData (view : list byte) (offset offset' : Z)
    (s4 : Section4) :
  parseSection4 view offset = Ok (s4, offset') ->
  getUint32 view offset = Ok (length4 s4)
  /\ offset' = offset + length4 s4
  /\ 9 <= length4 s4
  /\ offset + length4 s4 <= byteLength view
  /\ length (templateData s4) = Z.to_nat (length4 s4 - 9)
  /\ forall i : Z, 0 <= i < length4 s4 - 9 ->
       tdAt (templateData s4) (Z.to_nat i) = Some (byteAt view (offset + 9 + i)).
Proof.
  unfold parseSection4. intros Hs. bind_inv Hs. injection Hs as <- <-.
  cbn [length4 templateData].
  match goal with
  | Hsub : subarray _ _ _ = Ok _ |- _ =>
      apply subarray_Ok in Hsub; destruct Hsub as (Hlen & Hoff & Hend & Hlength & Hbytes)
  end.
  split; [first [assumption|reflexivity]|]. split; [reflexivity|]. split; [lia|]. split; [lia|].
  split; [exact Hlength|].
  intros i Hi. unfold tdAt, byteAt. rewrite Hbytes by lia.
  destruct (view !! Z.to_nat (offset + 9 + i)) as [b|] eqn:Hb; [reflexivity|].
  exfalso. apply lookup_ge_None in Hb. unfold byteLength in Hend. lia.
Qed.

Lemma simpleValues_length (n : nat) (view : list byte) (bitOffset nbits : Z)
    (R binaryScale decimalScale : num) (d : list num) :
  simpleValues n view bitOffset nbits R binaryScale decimalScale = Ok d -> length d = n.
Proof.
  revert bitOffset d. induction n as [|n IH]; intros bitOffset d; cbn [simpleValues].
  - intros [= <-]. reflexivity.
  - intros Hd. bind_inv Hd. injection Hd as <-. cbn [length]. f_equal.
    eapply IH. eassumption.
Qed.

Lemma decodeSimplePacking_length (view : list byte) (offset dataLength : Z)
    (t : Packing num) (N : Z) (d : list num) :
  decodeSimplePacking view offset dataLength t N = Ok d -> length d = Z.to_nat N.
Proof.
  unfold decodeSimplePacking. destruct (numberOfBits t =? 0).
  - intros [= <-]. apply length_replicate.
  - apply simpleValues_length.
Qed.

(** X12.  What section 7 holds.  With a section 5 whose template was
    parsed (templates 5.0, 5.2, 5.3) and whose number of data points is
    not negative, a section 7 that parses holds decoded [data] of
    exactly [numberOfDataPoints] values of section 5 and no raw bytes.  Without section 5, or with another template, it
    holds no data but the [length - 5] raw bytes behind its header. *)
Theorem parseSection7_contents (view : list byte) (offset offset' : Z)
    (section5 : option (Section5 (num := num))) (s7 : Section7 (num := num)) :
  parseSection7 view offset section5 = Ok (s7, offset') ->
  offset' = offset + length7 s7
  /\ (forall s5 t, section5 = Some s5 -> template s5 = Some t ->
        0 <= numberOfDataPoints5 s5 ->
        rawData s7 = None
        /\ exists d, data s7 = Some d /\ length d = Z.to_nat (numberOfDataPoints5 s5))
  /\ ((section5 = None \/ exists s5, section5 = Some s5 /\ template s5 = None) ->
        data s7 = None
        /\ exists raw, rawData s7 = Some raw /\ length raw = Z.to_nat (length7 s7 - 5)).
Proof.
  unfold parseSection7. intros Hs.
  destruct (getUint32 view offset) as [len| |]; cbn [mbind outcome_bind] in Hs;
    try discriminate.
  destruct (getUint8 view (offset + 4)) as [sn| |]; cbn [mbind outcome_bind] in Hs;
    try discriminate.
  destruct section5 as [s5|]; cbn [mbind option_bind] in Hs.
  - destruct (template s5) as [[p|p g]|] eqn:Ht; cbn [fmap option_fmap option_map] in Hs.
    + destruct (decodeSimplePacking view (offset + 5) (len - 5) p (numberOfDataPoints5 s5))
        as [d| |] eqn:Hd; cbn [mbind outcome_bind] in Hs; try discriminate.
      injection Hs as <- <-. cbn [length7 data rawData].
      split; [reflexivity|]. split.
      * intros s5' t [= <-] _ _. split; [reflexivity|]. exists d.
        split; [reflexivity|]. eapply decodeSimplePacking_length, Hd.
      * intros [Hnone|(s5' & [= <-] & Hnone)]; congruence.
    + destruct (decodeComplexPacking_returns view (offset + 5) (len - 5) p g
                  (numberOfDataPoints5 s5)) as (d & Hd & Hlen & _).
      rewrite Hd in Hs. cbn [mbind outcome_bind] in Hs.
      injection Hs as <- <-. cbn [length7 data rawData].
      split; [reflexivity|]. split.
      * intros s5' t [= <-] _ _. split; [reflexivity|]. exists d. split; [reflexivity|exact Hlen].
      * intros [Hnone|(s5' & [= <-] & Hnone)]; congruence.
    + destruct (subarray view (offset + 5) (len - 5)) as [raw| |] eqn:Hraw;
        cbn [mbind outcome_bind] in Hs; try discriminate.
      injection Hs as <- <-. cbn [length7 data rawData].
      apply subarray_Ok in Hraw. destruct Hraw as (_ & _ & _ & Hlen & _).
      split; [reflexivity|]. split.
      * intros s5' t [= <-] Ht' _. congruence.
      * intros _. split; [reflexivity|]. exists raw. split; [reflexivity|exact Hlen].
  - destruct (subarray view (offset + 5) (len - 5)) as [raw| |] eqn:Hraw;
      cbn [mbind outcome_bind] in Hs; try discriminate.
    injection Hs as <- <-. cbn [length7 data rawData].
    apply subarray_Ok in Hraw. destruct Hraw as (_ & _ & _ & Hlen & _).
    split; [reflexivity|]. split.
    + intros s5' t [=].
    + intros _. split; [reflexivity|]. exists raw. split; [reflexivity|exact Hlen].
Qed.

End Sections47.

(** ** The coordinate arrays of getData *)

Lemma mapM_outcome_Ok {A B : Type} (f : A -> outcome B) (l : list A) (l' : list B) :
  mapM f l = Ok l' ->
  length l' = length l
  /\ forall (k : nat) (x : A), l !! k = Some x ->
       exists y, l' !! k = Some y /\ f x = Ok y.
Proof.
  revert l'. induction l as [|a l IH]; intros l'; cbn [mapM].
  - intros [= <-]. split; [reflexivity|]. intros k x Hk. inversion Hk.
  - intros Hl. destruct (f a) as [b| |] eqn:Hb; cbn [mbind outcome_bind] in Hl;
      try discriminate.
    destruct (mapM f l) as [bs| |]; cbn [mbind outcome_bind] in Hl; try discriminate.
    injection Hl as <-. destruct (IH bs eq_refl) as [Hlen Hk].
    split; [cbn; lia|]. intros [|k] x Hx.
    + injection Hx as <-. exists b. split; [reflexivity|exact Hb].
    + apply Hk, Hx.
Qed.

Lemma rows_empty {A : Type} (f : Z -> Z -> A) (ni nj : Z) :
  ni <= 0 \/ nj <= 0 -> (j ← seqZ 0 nj; i ← seqZ 0 ni; [f j i]) = [].
Proof.
  intros [Hi|Hj].
  - rewrite (seqZ_nil 0 ni) by exact Hi.
    induction (seqZ 0 nj) as [|j js IH]; [reflexivity|].
    rewrite bind_cons, IH. reflexivity.
  - rewrite (seqZ_nil 0 nj) by exact Hj. reflexivity.
Qed.

Lemma rows_length_Z {A : Type} (f : Z -> Z -> A) (ni nj : Z) :
  0 <= ni -> 0 <= nj ->
  length (j ← seqZ 0 nj; i ← seqZ 0 ni; [f j i]) = Z.to_nat (ni * nj).
Proof.
  intros Hi Hj. rewrite <- (Z2Nat.id nj) at 1 by exact Hj.
  rewrite rows_length. nia.
Qed.

Section Coordinates.
Context {num : Type} `{JSNumber num}.

(** An empty grid: no coordinates, and a bounding box that is empty. *)
Lemma getDataCoordinates_empty_grid (fuel : nat) (format : LongitudeFormat)
    (grid : GridTemplate0 num) :
  ni grid <= 0 \/ nj grid <= 0 ->
  getDataCoordinates fuel format grid
  = Ok {| lat := []; lng := [];
          grid_meta := {| meta_ni := ni grid; meta_nj := nj grid;
                          latMin := Infinity; latMax := nneg Infinity;
                          lngMin := Infinity; lngMax := nneg Infinity;
                          latIncrement := jDirectionIncrement grid;
                          lngIncrement := iDirectionIncrement grid;
                          meta_scanningMode := scanningMode grid |};
          numPoints := ni grid * nj grid |}.
Proof.
  intros Hempty. unfold getDataCoordinates, latArray, lngArray.
  rewrite !rows_empty by exact Hempty. reflexivity.
Qed.

End Coordinates.

Section CoordinatesLayout.
Context {num : Type} `{JSNumber num}.

Lemma whileGt180_done (fuel : nat) (x : num) :
  nlt (ofZ 180) x = false -> whileGt180 fuel x = Ok x.
Proof. intros Hx. destruct fuel; cbn [whileGt180]; rewrite Hx; reflexivity. Qed.

Lemma whileLeM180_done (fuel : nat) (x : num) :
  nle x (ofZ (-180)) = false -> whileLeM180 fuel x = Ok x.
Proof. intros Hx. destruct fuel; cbn [whileLeM180]; rewrite Hx; reflexivity. Qed.

(** A longitude within the range of the format passes the loops at once,
    whatever the fuel. *)
Lemma normalizeLongitude_within (fuel : nat) (format : LongitudeFormat) (x : num) :
  withinFormat format x = true -> normalizeLongitude fuel format x = Ok x.
Proof.
  destruct format; cbn [withinFormat normalizeLongitude]; intros Hx.
  - reflexivity.
  - apply andb_true_iff in Hx as [Hge Hlt]. apply negb_true_iff in Hge, Hlt.
    rewrite whileGe360_done by exact Hge. cbn [mbind outcome_bind].
    apply whileLt0_done, Hlt.
  - apply andb_true_iff in Hx as [Hgt Hle]. apply negb_true_iff in Hgt, Hle.
    rewrite whileGt180_done by exact Hgt. cbn [mbind outcome_bind].
    apply whileLeM180_done, Hle.
Qed.

Lemma normalizeLongitudes_within (fuel : nat) (format : LongitudeFormat) (l : list num) :
  (forall x, x ∈ l -> withinFormat format x = true) ->
  normalizeLongitudes fuel format l = Ok l.
Proof.
  unfold normalizeLongitudes. induction l as [|x l IH]; intros Hl; [reflexivity|].
  cbn [mapM]. rewrite normalizeLongitude_within by (apply Hl; left).
  cbn [mbind outcome_bind]. rewrite IH by (intros y Hy; apply Hl; right; exact Hy).
  reflexivity.
Qed.


End CoordinatesLayout.


(** ** Not-a-Number in the binary64 instance *)

Lemma SFltb_nan_l (x : spec_float) : SFltb S754_nan x = false.
Proof. reflexivity. Qed.

Lemma SFltb_nan_r (x : spec_float) : SFltb x S754_nan = false.
Proof. destruct x; reflexivity. Qed.

Lemma SFadd_nan_l (x : spec_float) : SFadd 53 1024 S754_nan x = S754_nan.
Proof. reflexivity. Qed.

Lemma SFadd_nan_r (x : spec_float) : SFadd 53 1024 x S754_nan = S754_nan.
Proof. destruct x; reflexivity. Qed.

Lemma SFsub_nan_l (x : spec_float) : SFsub 53 1024 S754_nan x = S754_nan.
Proof. reflexivity. Qed.

Lemma SFsub_nan_r (x : spec_float) : SFsub 53 1024 x S754_nan = S754_nan.
Proof. destruct x; reflexivity. Qed.

Lemma SFmul_nan_l (x : spec_float) : SFmul 53 1024 S754_nan x = S754_nan.
Proof. reflexivity. Qed.

Lemma SFmul_nan_r (x : spec_float) : SFmul 53 1024 x S754_nan = S754_nan.
Proof. destruct x; reflexivity. Qed.

Lemma SFdiv_nan_l (x : spec_float) : SFdiv 53 1024 S754_nan x = S754_nan.
Proof. reflexivity. Qed.

Lemma IEEE_min_nan_l (x : spec_float) : IEEE.min S754_nan x = S754_nan.
Proof. reflexivity. Qed.

(** X14.  A target that is not a number is not rejected by the bounds
    test of bilinearInterpolate, since every comparison with NaN is
    false: with a NaN latitude (or a NaN longitude) the result is never a
    number, it is [null] when the other coordinate lies outside the
    bounding box and NaN otherwise; with both NaN it is NaN. *)
Theorem bilinearInterpolate_NaN_target (grid : GridMeta spec_float)
    (arr : list spec_float) (target : spec_float) :
  (bilinearInterpolate grid arr S754_nan target
   = if SFltb target (lngMin grid) || SFltb (lngMax grid) target
     then None else Some S754_nan)
  /\ (bilinearInterpolate grid arr target S754_nan
      = if SFltb target (IEEE.min (latMin grid) (latMax grid))
           || SFltb (IEEE.max (latMin grid) (latMax grid)) target
        then None else Some S754_nan)
  /\ bilinearInterpolate grid arr S754_nan S754_nan = Some S754_nan.
Proof.
  assert (Hlat : forall t, bilinearInterpolate grid arr S754_nan t
                 = if SFltb t (lngMin grid) || SFltb (lngMax grid) t
                   then None else Some S754_nan).
  { intros t. unfold bilinearInterpolate.
    cbn [nlt nsub nadd nmul ndiv Math_min Math_max Math_floor ofZ IEEE.number].
    rewrite SFltb_nan_l, SFltb_nan_r. cbn [orb].
    destruct (SFltb t (lngMin grid) || SFltb (lngMax grid) t); [reflexivity|].
    rewrite SFsub_nan_l, SFdiv_nan_l.
    change (IEEE.floor S754_nan) with S754_nan.
    rewrite SFsub_nan_l, SFsub_nan_r, !SFmul_nan_r, !SFadd_nan_l. reflexivity. }
  assert (Hlng : bilinearInterpolate grid arr target S754_nan
                 = if SFltb target (IEEE.min (latMin grid) (latMax grid))
                      || SFltb (IEEE.max (latMin grid) (latMax grid)) target
                   then None else Some S754_nan).
  { unfold bilinearInterpolate.
    cbn [nlt nsub nadd nmul ndiv Math_min Math_max Math_floor ofZ IEEE.number].
    rewrite SFltb_nan_l, SFltb_nan_r, !orb_false_r.
    destruct (SFltb target (IEEE.min (latMin grid) (latMax grid))
              || SFltb (IEEE.max (latMin grid) (latMax grid)) target); [reflexivity|].
    rewrite SFsub_nan_l, SFdiv_nan_l.
    change (IEEE.floor S754_nan) with S754_nan.
    rewrite SFsub_nan_l, SFsub_nan_r, !SFmul_nan_r, !SFmul_nan_l, !SFadd_nan_l.
    reflexivity. }
  split; [apply Hlat|]. split; [exact Hlng|].
  rewrite Hlat, SFltb_nan_l, SFltb_nan_r. reflexivity.
Qed.

(** X15.  On an empty grid (ni = 0 or nj = 0) getData has no coordinates
    and leaves the bounding box at its start values, latMin = lngMin =
    +Infinity and latMax = lngMax = -Infinity; bilinearInterpolate on
    these data returns [null] for every target whose longitude is a
    number. *)
Theorem empty_grid_has_no_inside (fuel : nat) (format : LongitudeFormat)
    (grid : GridTemplate0 spec_float) (arr : list spec_float)
    (targetLat targetLng : spec_float) :
  ni grid = 0 \/ nj grid = 0 ->
  exists c,
    getDataCoordinates fuel format grid = Ok c
    /\ lat c = [] /\ lng c = []
    /\ latMin (grid_meta c) = S754_infinity false
    /\ latMax (grid_meta c) = S754_infinity true
    /\ lngMin (grid_meta c) = S754_infinity false
    /\ lngMax (grid_meta c) = S754_infinity true
    /\ (targetLng <> S754_nan ->
        bilinearInterpolate (grid_meta c) arr targetLat targetLng = None).
Proof.
  intros Hempty. eexists. split.
  - apply getDataCoordinates_empty_grid. lia.
  - cbn [lat lng grid_meta latMin latMax lngMin lngMax].
    repeat (split; [reflexivity|]).
    intros Hnan. unfold bilinearInterpolate.
    cbn [latMin latMax lngMin lngMax nlt Infinity nneg IEEE.number SFopp].
    destruct targetLng as [s|[|]| |s m e]; try contradiction;
      cbn; rewrite ?orb_true_r; reflexivity.
Qed.

Lemma empty_grid_has_no_inside_witness :
  exists (grid : GridTemplate0 spec_float) (c : Coordinates spec_float),
    Inputs.gridOf (Inputs.section3Bytes 0 3 0 0 48 0 0 1000000 1000000 64) = Some grid
    /\ getDataCoordinates 0 preserve grid = Ok c
    /\ lat c = []
    /\ bilinearInterpolate (grid_meta c) [] (IEEE.of_Z 0) (IEEE.of_Z 0) = None.
Proof.
  destruct (Inputs.gridOf (num := spec_float)
              (Inputs.section3Bytes 0 3 0 0 48 0 0 1000000 1000000 64))
    as [grid|] eqn:Hgrid; [|vm_compute in Hgrid; discriminate].
  assert (Hni : ni grid = 0).
  { vm_compute in Hgrid. injection Hgrid as <-. reflexivity. }
  destruct (empty_grid_has_no_inside 0 preserve grid [] (IEEE.of_Z 0) (IEEE.of_Z 0)
              (or_introl Hni))
    as (c & Hc & Hlat & _ & _ & _ & _ & _ & Hnull).
  exists grid, c. split; [reflexivity|]. split; [exact Hc|]. split; [exact Hlat|].
  apply Hnull. discriminate.
Defined.

(** X16.  Where ugrd or vgrd has no element (the array is shorter than
    the grid, or the index is past it), the wind direction of getData
    is NaN. *)
Theorem wind_direction_of_missing_value (approx : spec_float -> spec_float -> spec_float)
    (numPoints : Z) (ugrd vgrd : list spec_float) (i : Z) :
  0 <= i < numPoints ->
  Z.of_nat (length ugrd) <= i \/ Z.of_nat (length vgrd) <= i ->
  windDirection (H0 := IEEE.host approx) numPoints ugrd vgrd !! Z.to_nat i
  = Some S754_nan.
Proof.
  intros Hi Hshort. rewrite windDirection_lookup by exact Hi. f_equal.
  assert (Hmissing : forall arr : list spec_float,
            Z.of_nat (length arr) <= i -> element arr i = S754_nan).
  { intros arr Harr. unfold element.
    destruct (i <? 0); [reflexivity|].
    rewrite (proj2 (lookup_ge_None arr (Z.to_nat i))) by lia. reflexivity. }
  unfold windDirAt.
  cbn [nlt nsub nadd nmul ndiv nneg ofZ toFloat32 IEEE.number Math_atan2 Math_PI IEEE.host].
  destruct Hshort as [Hu|Hv].
  - rewrite (Hmissing ugrd Hu). reflexivity.
  - rewrite (Hmissing vgrd Hv).
    replace (IEEE.atan2 approx (SFopp (element ugrd i)) (SFopp S754_nan)) with S754_nan
      by (destruct (element ugrd i); reflexivity).
    reflexivity.
Qed.

Lemma wind_direction_of_missing_value_witness :
  windDirection (H0 := IEEE.host (fun _ _ => S754_nan)) 2
    [IEEE.of_Z 1; IEEE.of_Z 1] [IEEE.of_Z 1] !! Z.to_nat 1
  = Some S754_nan.
Proof.
  apply wind_direction_of_missing_value; [lia|right; cbn; lia].
Defined.

(** ** The 32-bit fields of the product definition template *)

(** [(b0 << 24) | (b1 << 16) | (b2 << 8) | b3] on four bytes is the
    big-endian value wrapped to a signed 32-bit integer. *)
Lemma be32_bytes (b0 b1 b2 b3 : Z) :
  0 <= b0 < 256 -> 0 <= b1 < 256 -> 0 <= b2 < 256 -> 0 <= b3 < 256 ->
  be32 (Some b0) (Some b1) (Some b2) (Some b3)
  = ToInt32 (b0 * 2 ^ 24 + b1 * 2 ^ 16 + b2 * 2 ^ 8 + b3).
Proof.
  intros H0 H1 H2 H3.
  change (be32 (Some b0) (Some b1) (Some b2) (Some b3))
    with (js_or (js_or (js_or (js_shl b0 24) (js_shl b1 16)) (js_shl b2 8)) b3).
  assert (Hs0 : js_shl b0 24 = ToInt32 (b0 * 2 ^ 24)).
  { unfold js_shl. change (24 mod 32) with 24. rewrite (ToInt32_small b0) by lia.
    rewrite Z.shiftl_mul_pow2 by lia. reflexivity. }
  assert (Hs1 : js_shl b1 16 = b1 * 2 ^ 16).
  { unfold js_shl. change (16 mod 32) with 16. rewrite (ToInt32_small b1) by lia.
    rewrite Z.shiftl_mul_pow2 by lia. apply ToInt32_small. lia. }
  assert (Hs2 : js_shl b2 8 = b2 * 2 ^ 8).
  { unfold js_shl. change (8 mod 32) with 8. rewrite (ToInt32_small b2) by lia.
    rewrite Z.shiftl_mul_pow2 by lia. apply ToInt32_small. lia. }
  rewrite Hs0, Hs1, Hs2.
  destruct (ToInt32_shifted_multiple b0 24 ltac:(lia)) as [y Hy].
  pose proof (ToInt32_range (b0 * 2 ^ 24)) as Hr. rewrite Hy in Hr.
  assert (Hyr : - 2 ^ 7 <= y < 2 ^ 7) by lia.
  unfold js_or. rewrite Hy.
  rewrite (ToInt32_small (y * 2 ^ 24)), (ToInt32_small (b1 * 2 ^ 16)) by lia.
  rewrite lor_shifted by lia.
  rewrite (ToInt32_small (y * 2 ^ 24 + b1 * 2 ^ 16)), (ToInt32_small (b2 * 2 ^ 8)) by lia.
  replace (y * 2 ^ 24 + b1 * 2 ^ 16) with ((y * 2 ^ 8 + b1) * 2 ^ 16) by lia.
  rewrite lor_shifted by lia.
  rewrite (ToInt32_small ((y * 2 ^ 8 + b1) * 2 ^ 16 + b2 * 2 ^ 8)), (ToInt32_small b3) by lia.
  replace ((y * 2 ^ 8 + b1) * 2 ^ 16 + b2 * 2 ^ 8)
    with ((y * 2 ^ 16 + b1 * 2 ^ 8 + b2) * 2 ^ 8) by lia.
  rewrite lor_shifted by lia.
  replace (b0 * 2 ^ 24 + b1 * 2 ^ 16 + b2 * 2 ^ 8 + b3)
    with (b0 * 2 ^ 24 + (b1 * 2 ^ 16 + b2 * 2 ^ 8 + b3)) by lia.
  rewrite <- ToInt32_add_l, Hy. symmetry.
  rewrite ToInt32_small by lia. lia.
Qed.

Lemma tdAt_getUint8 (td : list byte) (k : nat) (z b : Z) :
  z = Z.of_nat k -> getUint8 td z = Ok b -> tdAt td k = Some b /\ 0 <= b < 256.
Proof.
  intros -> Hb. pose proof (getUint8_Ok _ _ _ Hb) as (_ & _ & Hr).
  split; [|exact Hr]. unfold getUint8 in Hb.
  destruct (Z.of_nat k <? 0); [discriminate|]. rewrite Nat2Z.id in Hb.
  unfold tdAt. destruct (td !! k); [|discriminate]. injection Hb as <-. reflexivity.
Qed.

(** Four bytes of the template data under the operators of getInventory
    and getData are what [getInt32] reads there. *)
Lemma be32_getInt32 (td : list byte) (k : nat) (v : Z) :
  getInt32 td (Z.of_nat k) = Ok v ->
  be32 (tdAt td k) (tdAt td (k + 1)) (tdAt td (k + 2)) (tdAt td (k + 3)) = v.
Proof.
  unfold getInt32, getUint32. intros Hv.
  destruct (getUint8 td (Z.of_nat k)) as [b0| |] eqn:E0;
    cbn [mbind outcome_bind] in Hv; try discriminate.
  destruct (getUint8 td (Z.of_nat k + 1)) as [b1| |] eqn:E1;
    cbn [mbind outcome_bind] in Hv; try discriminate.
  destruct (getUint8 td (Z.of_nat k + 2)) as [b2| |] eqn:E2;
    cbn [mbind outcome_bind] in Hv; try discriminate.
  destruct (getUint8 td (Z.of_nat k + 3)) as [b3| |] eqn:E3;
    cbn [mbind outcome_bind] in Hv; try discriminate.
  injection Hv as <-.
  apply (tdAt_getUint8 td k) in E0 as [-> H0]; [|reflexivity].
  apply (tdAt_getUint8 td (k + 1)) in E1 as [-> H1]; [|lia].
  apply (tdAt_getUint8 td (k + 2)) in E2 as [-> H2]; [|lia].
  apply (tdAt_getUint8 td (k + 3)) in E3 as [-> H3]; [|lia].
  rewrite be32_bytes by assumption.
  set (u := b0 * 2 ^ 24 + b1 * 2 ^ 16 + b2 * 2 ^ 8 + b3).
  assert (Hu : 0 <= u < 2 ^ 32) by (unfold u; lia).
  unfold ToInt32. destruct (Z.ltb_spec u (2 ^ 31)) as [Hlt|Hge].
  - rewrite Z.mod_small; lia.
  - rewrite <- (Z.mod_add _ (-1) (2 ^ 32)) by lia. rewrite Z.mod_small; lia.
Qed.

Section TemplateFields.
Context {num : Type} `{JSNumber num}.

(** X17.  The 32-bit fields that getInventory and getData take from the
    product definition template are signed: the forecast time (bytes 9
    to 12), the scaled level value of getInventory (bytes 15 to 18) and
    the level value of getData (bytes 11 to 14) are each what
    DataView.getInt32 reads at that place, big-endian, so a first byte
    of 0x80 or more gives a negative number.  The unit, the level types
    and the scale factor are single bytes, taken unsigned. *)
Theorem template_fields_are_signed (td : list byte) (v : Z) :
  (getInt32 td 9 = Ok v -> inventoryForecast td = Some (byteAt td 8, v))
  /\ (getInt32 td 15 = Ok v ->
      inventoryLevel td
      = Some (byteAt td 13, ndiv (ofZ v) (Math_pow 10 (byteAt td 14))))
  /\ (getInt32 td 11 = Ok v -> dataLevel td = (Some (byteAt td 9), Some v)).
Proof.
  assert (Hlen : forall k, getInt32 td k = Ok v -> k + 4 <= Z.of_nat (length td)).
  { intros k Hk. unfold getInt32 in Hk.
    destruct (getUint32 td k) as [u| |] eqn:Hu; cbn [mbind outcome_bind] in Hk;
      try discriminate.
    apply getUint32_Ok in Hu. unfold byteLength in Hu. lia. }
  assert (Hbyte : forall k : nat, (k < length td)%nat ->
            default 0 (tdAt td k) = byteAt td (Z.of_nat k)
            /\ tdAt td k = Some (byteAt td (Z.of_nat k))).
  { intros k Hk. unfold tdAt, byteAt. rewrite Nat2Z.id.
    destruct (lookup_lt_is_Some_2 td k Hk) as [b ->]. split; reflexivity. }
  split; [|split]; intros Hv; pose proof (Hlen _ Hv) as Hl.
  - unfold inventoryForecast.
    destruct (13 <=? Z.of_nat (length td)) eqn:E; [|apply Z.leb_gt in E; lia].
    rewrite (proj1 (Hbyte 8%nat ltac:(lia))).
    pose proof (be32_getInt32 td 9 v Hv) as Hbe. cbn [Nat.add] in Hbe.
    rewrite Hbe. reflexivity.
  - unfold inventoryLevel.
    destruct (19 <=? Z.of_nat (length td)) eqn:E; [|apply Z.leb_gt in E; lia].
    rewrite (proj1 (Hbyte 13%nat ltac:(lia))), (proj1 (Hbyte 14%nat ltac:(lia))).
    pose proof (be32_getInt32 td 15 v Hv) as Hbe. cbn [Nat.add] in Hbe.
    rewrite Hbe. reflexivity.
  - unfold dataLevel.
    destruct (14 <=? Z.of_nat (length td)) eqn:E; [|apply Z.leb_gt in E; lia].
    rewrite (proj2 (Hbyte 9%nat ltac:(lia))).
    pose proof (be32_getInt32 td 11 v Hv) as Hbe. cbn [Nat.add] in Hbe.
    rewrite Hbe. reflexivity.
Qed.

End TemplateFields.

Lemma template_fields_are_signed_witness :
  inventoryForecast (bytesOf [0; 0; 0; 0; 0; 0; 0; 0; 1; 255; 255; 255; 253])
  = Some (1, -3).
Proof.
  destruct (template_fields_are_signed (num := spec_float)
              (bytesOf [0; 0; 0; 0; 0; 0; 0; 0; 1; 255; 255; 255; 253]) (-3))
    as (Hforecast & _ & _).
  apply Hforecast. vm_compute. reflexivity.
Defined.

(** ** getSummary and getGrid *)

Section Summaries.
Context {num : Type} `{JSNumber num}.

Lemma summariesFrom_Returns (index : Z) (messages : list (Message num)) :
  (forall m, m ∈ messages ->
     is_Some (section3 (sections m)) /\ is_Some (section5 (sections m))) ->
  exists l,
    summariesFrom index messages = Returns l
    /\ length l = length messages
    /\ forall (k : nat) (s : Summary), l !! k = Some s ->
         summary_messageIndex s = index + Z.of_nat k.
Proof.
  revert index. induction messages as [|m messages IH]; intros index Hall.
  - exists []. repeat split. intros k s Hk. inversion Hk.
  - destruct (Hall m ltac:(left)) as [[s3 Hs3] [s5 Hs5]].
    destruct (IH (index + 1)) as (l & Hl & Hlen & Hidx).
    { intros m' Hm'. apply Hall. right. exact Hm'. }
    cbn [summariesFrom]. unfold summaryOf. rewrite Hs3, Hs5.
    cbn [mbind result_bind]. rewrite Hl. cbn [mbind result_bind].
    eexists. split; [reflexivity|]. split; [cbn; lia|].
    intros [|k] s Hk.
    + injection Hk as <-. cbn. lia.
    + cbn [lookup list_lookup] in Hk. rewrite (Hidx k s Hk). lia.
Qed.

Lemma summariesFrom_Raises (index : Z) (messages : list (Message num)) (m : Message num) :
  m ∈ messages ->
  section3 (sections m) = None \/ section5 (sections m) = None ->
  summariesFrom index messages = Raises TypeError.
Proof.
  intros Hm Hmissing. revert index.
  induction messages as [|m' messages IH]; intros index; [inversion Hm|].
  cbn [summariesFrom].
  destruct (summaryOf index m') as [s|e] eqn:Hs; cbn [mbind result_bind].
  - apply elem_of_cons in Hm as [->|Hm].
    + unfold summaryOf in Hs. destruct Hmissing as [Hnone|Hnone].
      * rewrite Hnone in Hs. discriminate.
      * destruct (section3 (sections m')); [|discriminate].
        rewrite Hnone in Hs. discriminate.
    + rewrite (IH Hm). reflexivity.
  - unfold summaryOf in Hs.
    destruct (section3 (sections m')); [|injection Hs as <-; reflexivity].
    destruct (section5 (sections m')); [discriminate|injection Hs as <-; reflexivity].
Qed.

(** X18.  getSummary reads sections 3 and 5 of every message without a
    test.  When every message has both, it returns one entry per message,
    in order, with [messageIndex] counting from 0; when some message
    lacks one of them, it throws a TypeError. *)
Theorem getSummary_needs_sections_3_and_5 (messages : list (Message num)) :
  ((forall m, m ∈ messages ->
      is_Some (section3 (sections m)) /\ is_Some (section5 (sections m))) ->
   exists l,
     getSummary messages = Returns l
     /\ length l = length messages
     /\ forall (k : nat) (s : Summary), l !! k = Some s ->
          summary_messageIndex s = Z.of_nat k)
  /\ ((exists m, m ∈ messages
                 /\ (section3 (sections m) = None \/ section5 (sections m) = None)) ->
      getSummary messages = Raises TypeError).
Proof.
  split.
  - intros Hall. destruct (summariesFrom_Returns 0 messages Hall) as (l & Hl & Hlen & Hidx).
    exists l. split; [exact Hl|]. split; [exact Hlen|].
    intros k s Hk. rewrite (Hidx k s Hk). lia.
  - intros (m & Hm & Hmissing). exact (summariesFrom_Raises 0 messages m Hm Hmissing).
Qed.

(** *** The grid template of a parsed message *)

Lemma parseSection3_templateZeroOnly (view : list byte) (offset offset' : Z)
    (s3 : Section3 (num := num)) :
  parseSection3 view offset = Ok (s3, offset') ->
  (is_Some (gridTemplate s3) <-> gridDefinitionTemplateNumber s3 = 0).
Proof.
  unfold parseSection3. intros Hs. bind_inv Hs. injection Hs as <- _.
  cbn [gridTemplate gridDefinitionTemplateNumber].
  match goal with
  | Ht : (if ?n =? 0 then _ else _) = Ok ?t |- _ =>
      destruct (Z.eqb_spec n 0); [bind_inv Ht|]; injection Ht as <-
  end.
  - split; [intros _; assumption|intros _; eauto].
  - split; [intros [? [=]]|intros; contradiction].
Qed.

Lemma parseSections_templateZeroOnly (fuel : nat) (view : list byte)
    (messageEnd offset offset' : Z) (secs secs' : Sections (num := num)) :
  templateZeroOnly secs ->
  parseSections fuel view messageEnd offset secs = Ok (secs', offset') ->
  templateZeroOnly secs'.
Proof.
  revert offset secs. induction fuel as [|fuel IH]; intros offset secs Hinv;
    cbn [parseSections].
  - destruct (offset <? messageEnd); [discriminate|]. intros [= <- _]. exact Hinv.
  - destruct (offset <? messageEnd); [|intros [= <- _]; exact Hinv].
    intros Hs.
    destruct (fourBytes view offset) as [next| |]; cbn [mbind outcome_bind] in Hs;
      try discriminate.
    destruct (eqFour next s7777).
    + destruct (parseSection8 view offset); cbn [mbind outcome_bind] in Hs;
        try discriminate.
      injection Hs as <- _. exact Hinv.
    + destruct (getUint8 view (offset + 4)) as [sn| |];
        cbn [mbind outcome_bind] in Hs; try discriminate.
      repeat match type of Hs with
      | (if ?c then _ else _) = Ok _ => destruct c
      end; try discriminate;
      match type of Hs with
      | mbind _ ?m = Ok _ =>
          destruct m as [[x off1]| |] eqn:Hm; cbn [mbind outcome_bind] in Hs;
            try discriminate
      end;
      apply IH in Hs; try exact Hs;
      intros s3; unfold setSection2, setSection3, setSection4, setSection5,
        setSection6, setSection7; cbn [section3]; try apply Hinv.
      intros [= <-]. eapply parseSection3_templateZeroOnly, Hm.
Qed.

Lemma parseMessage_templateZeroOnly (fuel : nat) (view : list byte)
    (offset offset' : Z) (m : Message num) :
  parseMessage fuel view offset = Ok (Some m, offset') ->
  templateZeroOnly (sections m).
Proof.
  unfold parseMessage. intros Hm.
  destruct (parseSection0 view offset) as [[[s0|] off0]| |];
    cbn [mbind outcome_bind] in Hm; try discriminate.
  destruct (parseSection1 view off0) as [[s1 off1]| |];
    cbn [mbind outcome_bind] in Hm; try discriminate.
  match type of Hm with
  | mbind _ ?ps = Ok _ =>
      destruct ps as [[secs off2]| |] eqn:Hsecs; cbn [mbind outcome_bind] in Hm;
        try discriminate
  end.
  injection Hm as <- _. cbn [sections].
  eapply parseSections_templateZeroOnly; [|exact Hsecs].
  intros s3 [=].
Qed.

Lemma parseLoop_templateZeroOnly (fuel : nat) (view : list byte) (offset : Z)
    (messages result : list (Message num)) :
  (forall m, m ∈ messages -> templateZeroOnly (sections m)) ->
  parseLoop fuel view offset messages = Ok result ->
  forall m, m ∈ result -> templateZeroOnly (sections m).
Proof.
  revert offset messages. induction fuel as [|fuel IH]; intros offset messages Hinv;
    cbn [parseLoop].
  - destruct (offset <? byteLength view); [discriminate|]. intros [= <-]. exact Hinv.
  - destruct (offset <? byteLength view); [|intros [= <-]; exact Hinv].
    destruct (parseMessage fuel view offset) as [[[m|] offset']|e|] eqn:Hm.
    + apply IH. intros m' Hm'. apply elem_of_app in Hm' as [Hm'|Hm'].
      * apply Hinv, Hm'.
      * apply list_elem_of_singleton in Hm' as ->.
        eapply parseMessage_templateZeroOnly, Hm.
    + apply IH, Hinv.
    + intros [= <-]. exact Hinv.
    + discriminate.
Qed.

(** X19.  getGrid on parsed messages.  Whatever parse returned, when
    getGrid returns grid information for one of the messages, the grid
    template number is 0 and the grid type is 'lat-lon grid': the parser
    keeps a grid template for template 3.0 only, so for every other
    template getGrid throws 'No grid template found', and the names
    'Lambert Conformal' and 'Polar Stereographic' are never returned. *)
Theorem getGrid_after_parse (fuel : nat) (view : list byte)
    (messages : list (Message num)) (messageIndex : Z) (info : GridInfo num) :
  parse fuel view = Ok messages ->
  getGrid messages messageIndex = Returns info ->
  info_gridTemplate info = 0 /\ info_gridType info = "lat-lon grid".
Proof.
  intros Hparse Hgrid. unfold getGrid in Hgrid.
  destruct (Z.of_nat (length messages) =? 0); [discriminate|].
  destruct (Z.of_nat (length messages) <=? messageIndex); [discriminate|].
  destruct (messageAt messages messageIndex) as [m|] eqn:Hm; [|discriminate].
  assert (Hin : m ∈ messages).
  { unfold messageAt in Hm. destruct (messageIndex <? 0); [discriminate|].
    eapply list_elem_of_lookup_2, Hm. }
  pose proof (parseLoop_templateZeroOnly fuel view 0 [] messages
                ltac:(intros ? Hx; inversion Hx) Hparse m Hin) as Hinv.
  destruct (section3 (sections m)) as [s3|] eqn:Hs3; [|discriminate].
  destruct (gridTemplate s3) as [gt|] eqn:Hgt; [|discriminate].
  assert (Hzero : gridDefinitionTemplateNumber s3 = 0).
  { apply (Hinv s3 Hs3). rewrite Hgt. eauto. }
  injection Hgrid as <-. cbn [info_gridTemplate info_gridType].
  rewrite Hzero. split; reflexivity.
Qed.

End Summaries.

(** ** getData: which message gives a parameter its array *)

Lemma getProperty_set_eq {A : Type} (k : ParamName) (v : A) (o : list (ParamName * A)) :
  getProperty k (setProperty k v o) = Some v.
Proof.
  induction o as [|[k' v'] o IH]; cbn [setProperty getProperty].
  - rewrite decide_True by reflexivity. reflexivity.
  - destruct (decide (k = k')) as [->|Hne]; cbn [getProperty].
    + rewrite decide_True by reflexivity. reflexivity.
    + rewrite decide_False by exact Hne. exact IH.
Qed.

Lemma getProperty_set_ne {A : Type} (k k' : ParamName) (v : A) (o : list (ParamName * A)) :
  k' <> k -> getProperty k' (setProperty k v o) = getProperty k' o.
Proof.
  intros Hne. induction o as [|[k0 v0] o IH]; cbn [setProperty getProperty].
  - rewrite decide_False by exact Hne. reflexivity.
  - destruct (decide (k = k0)) as [->|Hk]; cbn [getProperty].
    + rewrite !decide_False by exact Hne. reflexivity.
    + destruct (decide (k' = k0)); [reflexivity|exact IH].
Qed.

Lemma setProperty_keys {A : Type} (k : ParamName) (v : A) (o : list (ParamName * A)) :
  NoDup o.*1 -> NoDup (setProperty k v o).*1
  /\ forall k', k' ∈ (setProperty k v o).*1 <-> k' = k \/ k' ∈ o.*1.
Proof.
  induction o as [|[k0 v0] o IH]; cbn [setProperty fmap list_fmap fst]; intros Hnd.
  - split; [apply NoDup_singleton|]. intros k'.
    rewrite list_elem_of_singleton, elem_of_nil. tauto.
  - apply NoDup_cons in Hnd as [Hnotin Hnd].
    destruct (decide (k = k0)) as [->|Hk]; cbn [fmap list_fmap fst].
    + split; [apply NoDup_cons; split; assumption|]. intros k'.
      rewrite elem_of_cons. tauto.
    + destruct (IH Hnd) as [Hnd' Hkeys].
      split.
      * apply NoDup_cons. split; [|exact Hnd'].
        intros Hin. apply Hkeys in Hin as [->|Hin]; [congruence|contradiction].
      * intros k'. rewrite elem_of_cons, Hkeys, elem_of_cons. tauto.
Qed.

Lemma getProperty_elem_of {A : Type} (k : ParamName) (v : A) (o : list (ParamName * A)) :
  NoDup o.*1 -> ((k, v) ∈ o <-> getProperty k o = Some v).
Proof.
  induction o as [|[k0 v0] o IH]; cbn [getProperty fmap list_fmap fst]; intros Hnd.
  - split; [intros Hin; inversion Hin|discriminate].
  - apply NoDup_cons in Hnd as [Hnotin Hnd].
    destruct (decide (k = k0)) as [->|Hk].
    + split.
      * intros Hin. apply elem_of_cons in Hin as [[= ->]|Hin]; [reflexivity|].
        exfalso. apply Hnotin. apply list_elem_of_fmap. exists (k0, v). split; [reflexivity|exact Hin].
      * intros [= ->]. left.
    + rewrite elem_of_cons, (IH Hnd). split; [intros [[= -> _]|Hget]|intros Hget].
      * contradiction.
      * exact Hget.
      * right. exact Hget.
Qed.

Section GetDataSelection.
Context {num : Type} `{JSNumber num}.

Lemma collectFrom_foldl (multiLevel firstParameterOnly : bool)
    (filterParameters : option (list ParamName)) (filterLevelType filterLevelValue : option Z)
    (idx : Z) (messages : list (Message num)) (st : Collected num) :
  collectFrom multiLevel firstParameterOnly filterParameters filterLevelType
    filterLevelValue idx messages st
  = foldl (collectEntry multiLevel firstParameterOnly) st
      (selectedFrom filterParameters filterLevelType filterLevelValue idx messages).
Proof.
  revert idx st. induction messages as [|msg messages IH]; intros idx st;
    cbn [collectFrom selectedFrom]; [reflexivity|].
  rewrite IH. unfold collectMessage.
  destruct (selectMessage _ _ _ idx msg); reflexivity.
Qed.

Lemma entriesOf_snoc (p : ParamName) (es : list (LevelEntry num)) (e : LevelEntry num) :
  entriesOf p (es ++ [e])
  = entriesOf p es ++ (if decide (level_parameter e = p) then [e] else []).
Proof.
  unfold entriesOf. rewrite filter_app. reflexivity.
Qed.

(** The state of the loop in the default mode after the entries [es]. *)
Lemma collect_single_level (firstParameterOnly : bool) (es : list (LevelEntry num)) :
  let st := foldl (collectEntry false firstParameterOnly)
              {| parameters := []; paramCounts := []; levels := [] |} es in
  levels st = []
  /\ NoDup (paramCounts st).*1
  /\ forall p,
       getProperty p (parameters st)
       = level_data <$> (if firstParameterOnly then head (entriesOf p es)
                         else last (entriesOf p es))
       /\ getProperty p (paramCounts st)
          = (if decide (entriesOf p es = []) then None
             else Some (Z.of_nat (length (entriesOf p es)))).
Proof.
  induction es as [|e es IH] using rev_ind; cbn zeta.
  - cbn. split; [reflexivity|]. split; [apply NoDup_nil_2|].
    intros p. destruct firstParameterOnly; split; reflexivity.
  - rewrite foldl_snoc. cbn zeta in IH. destruct IH as (Hlevels & Hnd & Hget).
    set (st := foldl (collectEntry false firstParameterOnly)
                 {| parameters := []; paramCounts := []; levels := [] |} es) in *.
    set (q := level_parameter e).
    assert (Hcount : default 0 (getProperty q (paramCounts st))
                     = Z.of_nat (length (entriesOf q es))).
    { rewrite (proj2 (Hget q)). destruct (decide (entriesOf q es = [])) as [->|]; reflexivity. }
    unfold collectEntry. fold q. cbn iota.
    destruct firstParameterOnly.
    + (* the first occurrence is kept *)
      rewrite Hcount. cbn [levels parameters paramCounts].
      split; [exact Hlevels|].
      case_bool_decide as Hfresh.
      * assert (Hnone : entriesOf q es = []) by (apply nil_length_inv; lia).
        split.
        { apply setProperty_keys. apply setProperty_keys. exact Hnd. }
        intros p. rewrite entriesOf_snoc. fold q.
        destruct (decide (q = p)) as [<-|Hne].
        -- rewrite !getProperty_set_eq, Hnone. cbn. split; reflexivity.
        -- rewrite !getProperty_set_ne by congruence. rewrite app_nil_r. apply Hget.
      * assert (Hsome : entriesOf q es <> []).
        { intros Hnil. rewrite Hnil in Hfresh. contradiction. }
        split; [apply setProperty_keys; exact Hnd|].
        intros p. rewrite entriesOf_snoc. fold q.
        destruct (decide (q = p)) as [<-|Hne].
        -- rewrite getProperty_set_eq, (proj1 (Hget q)).
           split.
           ++ destruct (entriesOf q es); [contradiction|reflexivity].
           ++ rewrite decide_False by (intros Hnil; apply app_eq_nil in Hnil as [? _]; auto).
              rewrite Hcount, length_app. cbn. f_equal. lia.
        -- rewrite getProperty_set_ne by congruence. rewrite app_nil_r. apply Hget.
    + (* every occurrence overwrites the one before *)
      rewrite Hcount. cbn [levels parameters paramCounts].
      split; [exact Hlevels|].
      split; [apply setProperty_keys; exact Hnd|].
      intros p. rewrite entriesOf_snoc. fold q.
      destruct (decide (q = p)) as [<-|Hne].
      * rewrite !getProperty_set_eq. split.
        -- rewrite last_snoc. reflexivity.
        -- rewrite decide_False by (intros Hnil; apply app_eq_nil in Hnil as [_ [=]]).
           rewrite length_app. cbn. f_equal. lia.
      * rewrite !getProperty_set_ne by congruence. rewrite app_nil_r. apply Hget.
Qed.

End GetDataSelection.

Section GetDataSelectionTheorem.
Context {num : Type} `{JSNumber num}.

Lemma collect_multi_level (firstParameterOnly : bool) (es : list (LevelEntry num))
    (st : Collected num) :
  foldl (collectEntry true firstParameterOnly) st es
  = {| parameters := parameters st; paramCounts := paramCounts st;
       levels := levels st ++ es |}.
Proof.
  revert st. induction es as [|e es IH]; intros st; cbn [foldl].
  - rewrite app_nil_r. destruct st; reflexivity.
  - rewrite IH. cbn [collectEntry parameters paramCounts levels].
    rewrite <- app_assoc. reflexivity.
Qed.

(** X20.  Which message gives a parameter its array in getData (option
    [match] not used).  Call "passing" the messages that have a section
    4, decoded data, and pass the filters on the parameter names, the
    level type and the level value.  In the default mode, with
    [firstParameterOnly] the array of a parameter is the data of the
    first passing message with that parameter name, and without it the
    data of the last one; a parameter that no passing message has is
    not set.  [duplicates] of the warning lists exactly the parameters
    that more than one passing message has, each with the number of
    these messages.  With [multiLevel], no parameter array is set and
    [levels] lists every passing message, in order. *)
Theorem getData_parameter_selection (firstParameterOnly : bool)
    (filterParameters : option (list ParamName)) (filterLevelType filterLevelValue : option Z)
    (messages : list (Message num)) :
  let passing := selectedFrom filterParameters filterLevelType filterLevelValue 0 messages in
  let single := collectMessages false firstParameterOnly filterParameters filterLevelType
                  filterLevelValue messages in
  let multi := collectMessages true firstParameterOnly filterParameters filterLevelType
                 filterLevelValue messages in
  (forall p,
     getProperty p (parameters single)
     = level_data <$> (if firstParameterOnly then head (entriesOf p passing)
                       else last (entriesOf p passing)))
  /\ (forall p c,
        (p, c) ∈ duplicates single
        <-> c = Z.of_nat (length (entriesOf p passing)) /\ 1 < c)
  /\ levels single = []
  /\ parameters multi = [] /\ levels multi = passing.
Proof.
  intros passing single multi.
  unfold single, multi, collectMessages. rewrite !collectFrom_foldl. fold passing.
  destruct (collect_single_level firstParameterOnly passing) as (Hlevels & Hnd & Hget).
  cbn zeta in Hlevels, Hnd, Hget.
  set (st := foldl (collectEntry false firstParameterOnly)
               {| parameters := []; paramCounts := []; levels := [] |} passing) in *.
  split; [intros p; apply Hget|]. split.
  - intros p c. unfold duplicates. rewrite list_elem_of_filter. cbn [snd].
    rewrite (getProperty_elem_of p c (paramCounts st) Hnd), (proj2 (Hget p)).
    destruct (decide (entriesOf p passing = [])) as [Hnil|Hsome].
    + rewrite Hnil. cbn. split; [intros [_ [=]]|intros [-> Hc]; lia].
    + split; [intros [Hc [= <-]]; split; [reflexivity|exact Hc]
             |intros [-> Hc]; split; [exact Hc|reflexivity]].
  - split; [exact Hlevels|].
    rewrite collect_multi_level. cbn [parameters levels]. split; reflexivity.
Qed.

End GetDataSelectionTheorem.

(** ** Texts of getInventory and getSummary *)

(** X21.  getTimeUnitDescription gives different texts to different unit
    codes (the code is a byte of the template data), so the text of the
    forecast time tells the unit. *)
Theorem getTimeUnitDescription_injective (a b : Z) :
  0 <= a < 256 -> 0 <= b < 256 -> a <> b ->
  getTimeUnitDescription a <> getTimeUnitDescription b.
Proof.
  intros Ha Hb Hne Heq. apply Hne.
  assert (Hall : distinctDescriptions 256 = true) by (vm_compute; reflexivity).
  unfold distinctDescriptions in Hall.
  rewrite forallb_forall in Hall.
  specialize (Hall a). rewrite <- list_elem_of_In in Hall.
  specialize (Hall ltac:(apply elem_of_seqZ; lia)).
  rewrite forallb_forall in Hall.
  specialize (Hall b). rewrite <- list_elem_of_In in Hall.
  specialize (Hall ltac:(apply elem_of_seqZ; lia)).
  rewrite Heq, String.eqb_refl in Hall. cbn [implb] in Hall.
  apply Z.eqb_eq, Hall.
Qed.

Lemma getTimeUnitDescription_injective_witness :
  getTimeUnitDescription 1 <> getTimeUnitDescription 10
  /\ getTimeUnitDescription 9 <> getTimeUnitDescription 255.
Proof.
  split; apply getTimeUnitDescription_injective; lia.
Defined.

Lemma printedWidth_spec (print : Z -> string) (width : nat) (from count n : Z) :
  printedWidth print width from count = true ->
  from <= n < from + count -> String.length (print n) = width.
Proof.
  unfold printedWidth. rewrite forallb_forall. intros Hall Hn.
  apply Nat.eqb_eq, Hall. rewrite <- list_elem_of_In. apply elem_of_seqZ. lia.
Qed.

(** X22.  The date of a summary entry has the layout
    'YYYY-MM-DD hh:mm:ss', 19 characters, whenever the year has four
    digits and the month, day, hour, minute and second are below 100
    (each is padded to two digits; a byte of 100 or more would take
    three). *)
Theorem summaryDate_layout (s1 : Section1) :
  1000 <= year s1 <= 9999 ->
  0 <= month s1 < 100 -> 0 <= day s1 < 100 -> 0 <= hour s1 < 100 ->
  0 <= minute s1 < 100 -> 0 <= second s1 < 100 ->
  String.length (summaryDate s1) = 19%nat
  /\ String.substring 4 1 (summaryDate s1) = "-"
  /\ String.substring 7 1 (summaryDate s1) = "-"
  /\ String.substring 10 1 (summaryDate s1) = " "
  /\ String.substring 13 1 (summaryDate s1) = ":"
  /\ String.substring 16 1 (summaryDate s1) = ":".
Proof.
  intros Hy Hmo Hd Hh Hmi Hs.
  assert (Hyear : printedWidth pretty 4 1000 9000 = true) by (vm_compute; reflexivity).
  assert (Hpad : printedWidth pad2 2 0 100 = true) by (vm_compute; reflexivity).
  pose proof (printedWidth_spec pretty 4 1000 9000 (year s1) Hyear ltac:(lia)) as Ly.
  pose proof (printedWidth_spec pad2 2 0 100 (month s1) Hpad ltac:(lia)) as Lmo.
  pose proof (printedWidth_spec pad2 2 0 100 (day s1) Hpad ltac:(lia)) as Ld.
  pose proof (printedWidth_spec pad2 2 0 100 (hour s1) Hpad ltac:(lia)) as Lh.
  pose proof (printedWidth_spec pad2 2 0 100 (minute s1) Hpad ltac:(lia)) as Lmi.
  pose proof (printedWidth_spec pad2 2 0 100 (second s1) Hpad ltac:(lia)) as Ls.
  unfold summaryDate.
  destruct (pretty (year s1)) as [|y1 [|y2 [|y3 [|y4 [|]]]]]; try discriminate Ly.
  destruct (pad2 (month s1)) as [|m1 [|m2 [|]]]; try discriminate Lmo.
  destruct (pad2 (day s1)) as [|d1 [|d2 [|]]]; try discriminate Ld.
  destruct (pad2 (hour s1)) as [|h1 [|h2 [|]]]; try discriminate Lh.
  destruct (pad2 (minute s1)) as [|n1 [|n2 [|]]]; try discriminate Lmi.
  destruct (pad2 (second s1)) as [|s1' [|s2 [|]]]; try discriminate Ls.
  cbn. repeat split.
Qed.

(** ** calculateWind and the wind arrays of getData *)

Section WindAgreement.
Context {num : Type} `{JSNumber num} `{HostMath num} `{HostSqrt num}.

(** X23.  calculateWind and getData compute the wind alike.  Given both
    arrays, calculateWind returns one element per element of ugrd, with
    [u] and [v] the array elements; and where getData fills [wind_dir]
    and [wind_speed] for that many points, each of their elements is the
    float32 of the direction and of the speed that calculateWind gives
    at the same index.  Without ugrd or without vgrd, calculateWind
    throws. *)
Theorem calculateWind_agrees_with_getData (ugrd vgrd : list num) :
  exists winds,
    calculateWind (Some ugrd) (Some vgrd) = Returns winds
    /\ length winds = length ugrd
    /\ (forall (i : nat) (w : Wind num), winds !! i = Some w ->
          wind_u w = ugrd !! i /\ wind_v w = vgrd !! i
          /\ windDirection (Z.of_nat (length ugrd)) ugrd vgrd !! i
             = Some (toFloat32 (direction w))
          /\ windSpeed (Z.of_nat (length ugrd)) ugrd vgrd !! i
             = Some (toFloat32 (speed w)))
    /\ calculateWind None (Some vgrd) = Raises WindDataRequired
    /\ calculateWind (Some ugrd) None = Raises WindDataRequired.
Proof.
  eexists. split; [reflexivity|].
  split; [rewrite length_fmap, length_seqZ; lia|].
  split; [|split; reflexivity].
  intros i w Hw. rewrite list_lookup_fmap in Hw.
  destruct (seqZ 0 (Z.of_nat (length ugrd)) !! i) as [z|] eqn:Hz; [|discriminate].
  apply lookup_seqZ in Hz as [-> Hi]. injection Hw as <-.
  unfold windAt. cbn [wind_u wind_v direction speed]. rewrite Z.add_0_l, Nat2Z.id.
  split; [reflexivity|]. split; [reflexivity|].
  unfold windDirection, windSpeed. rewrite !list_lookup_fmap.
  rewrite lookup_seqZ_lt by lia. cbn [fmap option_fmap option_map].
  rewrite Z.add_0_l. split; reflexivity.
Qed.

End WindAgreement.

(** ** The theorems at concrete inputs *)

Lemma parse_stops_at_bad_signature_witness :
  parse (num := spec_float) 1 Samples.noSignature = Ok [].
Proof.
  apply (parse_stops_at_bad_signature (num := spec_float) 0 Samples.noSignature 0 []);
    [lia|vm_compute; discriminate|vm_compute; discriminate|reflexivity].
Defined.

Lemma parse_zero_length_section_witness :
  parse (num := spec_float) 1000 Samples.zeroLengthSection = OutOfFuel.
Proof.
  apply (parse_zero_length_section (num := spec_float) Samples.zeroLengthSection
           {| discipline0 := 0; edition0 := 2; totalLength0 := 200 |}
           Samples.referenceTime 37 3);
    [vm_compute; reflexivity|vm_compute; reflexivity|lia|vm_compute; discriminate
    |vm_compute; reflexivity|vm_compute; reflexivity|vm_compute; reflexivity|left; reflexivity].
Defined.

Lemma parseMessage_end_witness :
  exists (m : Message spec_float) (offset' : Z),
    parseMessage 9 Inputs.gradientMessage 0 = Ok (Some m, offset')
    /\ 0 + 16 <= offset'
    /\ (exists high low,
          getUint32 Inputs.gradientMessage (0 + 8) = Ok high
          /\ getUint32 Inputs.gradientMessage (0 + 12) = Ok low
          /\ totalLength m = roundToNumber (high * 2 ^ 32 + low)
          /\ (high < 2 ^ 21 -> totalLength m = high * 2 ^ 32 + low))
    /\ (fourBytes Inputs.gradientMessage (offset' - 4) = Ok s7777
        \/ 0 + totalLength m <= offset').
Proof.
  destruct (parseMessage (num := spec_float) 9 Inputs.gradientMessage 0)
    as [[[m|] offset']| |] eqn:Hm; try (vm_compute in Hm; discriminate).
  exists m, offset'. split; [reflexivity|].
  exact (parseMessage_end 9 Inputs.gradientMessage 0 offset' m Hm).
Defined.

Lemma parseSection4_templateData_witness :
  exists (s4 : Section4) (offset' : Z),
    parseSection4 Inputs.gradientMessage 109 = Ok (s4, offset')
    /\ offset' = 109 + length4 s4
    /\ tdAt (templateData s4) (Z.to_nat 13) = Some (byteAt Inputs.gradientMessage (109 + 9 + 13)).
Proof.
  destruct (parseSection4 Inputs.gradientMessage 109) as [[s4 offset']| |] eqn:Hs4;
    try (vm_compute in Hs4; discriminate).
  exists s4, offset'. split; [reflexivity|].
  destruct (parseSection4_templateData Inputs.gradientMessage 109 offset' s4 Hs4)
    as (_ & Hoff & _ & _ & _ & Hbytes).
  split; [exact Hoff|]. apply Hbytes.
  vm_compute in Hs4. injection Hs4 as <- _. vm_compute. split; [discriminate|reflexivity].
Defined.

Lemma parseSection7_contents_witness :
  exists (s5 : Section5 (num := spec_float)) (s7 : Section7 (num := spec_float))
         (offset' : Z) (d : list spec_float),
    parseSection5 Inputs.gradientMessage 143 = Ok (s5, 164)
    /\ parseSection7 Inputs.gradientMessage 170 (Some s5) = Ok (s7, offset')
    /\ offset' = 170 + length7 s7
    /\ data s7 = Some d /\ length d = Z.to_nat (numberOfDataPoints5 s5).
Proof.
  destruct (parseSection5 (num := spec_float) Inputs.gradientMessage 143)
    as [[s5 off5]| |] eqn:Hs5; try (vm_compute in Hs5; discriminate).
  assert (Hoff5 : off5 = 164) by (vm_compute in Hs5; injection Hs5 as _ <-; reflexivity).
  subst off5.
  assert (Ht : exists t, template s5 = Some t).
  { vm_compute in Hs5. injection Hs5 as <-. eexists. reflexivity. }
  destruct Ht as [t Ht].
  destruct (parseSection7 Inputs.gradientMessage 170 (Some s5))
    as [[s7 offset']| |] eqn:Hs7.
  - destruct (parseSection7_contents Inputs.gradientMessage 170 offset' (Some s5) s7 Hs7)
      as (Hoff & Hdata & _).
    assert (Hn : 0 <= numberOfDataPoints5 s5)
      by (vm_compute in Hs5; injection Hs5 as <-; cbn; lia).
    destruct (Hdata s5 t eq_refl Ht Hn) as (_ & d & Hd & Hlen).
    exists s5, s7, offset', d. repeat split; assumption.
  - exfalso. vm_compute in Hs5. injection Hs5 as <-. vm_compute in Hs7. discriminate.
  - exfalso. vm_compute in Hs5. injection Hs5 as <-. vm_compute in Hs7. discriminate.
Defined.

Lemma getSummary_needs_sections_3_and_5_witness :
  exists messages : list (Message spec_float),
    parse 3 Inputs.editionOne = Ok messages
    /\ getSummary messages = Raises TypeError.
Proof.
  destruct (parse (num := spec_float) 3 Inputs.editionOne) as [messages| |] eqn:Hparse;
    try (vm_compute in Hparse; discriminate).
  exists messages. split; [reflexivity|].
  apply getSummary_needs_sections_3_and_5.
  vm_compute in Hparse. injection Hparse as <-.
  eexists. split; [left|left; reflexivity].
Defined.

Lemma getGrid_after_parse_witness :
  exists (messages : list (Message spec_float)) (info : GridInfo spec_float),
    parse 9 Inputs.gradientMessage = Ok messages
    /\ getGrid messages 0 = Returns info
    /\ info_gridTemplate info = 0 /\ info_gridType info = "lat-lon grid".
Proof.
  destruct (parse (num := spec_float) 9 Inputs.gradientMessage) as [messages| |] eqn:Hparse;
    try (vm_compute in Hparse; discriminate).
  destruct (getGrid messages 0) as [info|e] eqn:Hinfo.
  - exists messages, info. split; [reflexivity|]. split; [exact Hinfo|].
    exact (getGrid_after_parse 9 Inputs.gradientMessage messages 0 info Hparse Hinfo).
  - exfalso. vm_compute in Hparse. injection Hparse as <-. vm_compute in Hinfo. discriminate.
Defined.

Lemma summaryDate_layout_witness :
  summaryDate Samples.referenceTime = "2025-10-13 12:00:00"
  /\ String.length (summaryDate Samples.referenceTime) = 19%nat.
Proof.
  split; [vm_compute; reflexivity|].
  destruct (summaryDate_layout Samples.referenceTime) as [Hlen _];
    [cbn; lia..|exact Hlen].
Defined.

(** ** regridBilinear *)

Lemma foldl_bind {A B C : Type} (f : A -> C -> A) (g : B -> list C) (a : A) (l : list B) :
  foldl f a (l ≫= g) = foldl (fun a b => foldl f a (g b)) a l.
Proof.
  revert a. induction l as [|b l IH]; intros a; [reflexivity|].
  rewrite bind_cons, foldl_app. cbn [foldl]. apply IH.
Qed.

Section RegridLoops.
Context {num : Type} `{JSNumber num}.
Variable grid : GridMeta num.
Variable sources : list (option (list num)).
Variable g : NewGrid num.

Let point (st : RegridState num) (p : Z * Z) : RegridState num :=
  regridPoint grid sources g p.1 p.2 st.

Lemma regridRow_runs (a : Z) (newNi : num) (j : Z) (fuel : nat) (i : Z)
    (st : RegridState num) :
  (forall i', 0 <= i' <= a -> nlt (ofZ i') newNi = bool_decide (i' < a)) ->
  0 <= i <= a -> a - i <= Z.of_nat fuel ->
  regridRow fuel grid sources g newNi j i st
  = Ok (foldl point st ((fun i' => (j, i')) <$> seqZ i (a - i))).
Proof.
  intros Hcols. revert i st. induction fuel as [|fuel IH]; intros i st Hi Hfuel.
  - assert (i = a) as -> by lia. cbn [regridRow]. rewrite Hcols by lia.
    rewrite bool_decide_eq_false_2 by lia. rewrite Z.sub_diag. reflexivity.
  - cbn [regridRow]. rewrite Hcols by lia. case_bool_decide as Hlt.
    + rewrite IH by lia.
      replace (a - i) with (Z.succ (a - (i + 1))) by lia.
      rewrite (seqZ_cons i) by lia. cbn [fmap list_fmap foldl].
      replace (Z.succ i) with (i + 1) by lia.
      replace (Z.pred (Z.succ (a - (i + 1)))) with (a - (i + 1)) by lia.
      reflexivity.
    + assert (i = a) as -> by lia. rewrite Z.sub_diag. reflexivity.
Qed.

Lemma regridRows_runs (a b : Z) (newNi newNj : num) (fuel inner : nat) (j : Z)
    (st : RegridState num) :
  (forall i', 0 <= i' <= a -> nlt (ofZ i') newNi = bool_decide (i' < a)) ->
  (forall j', 0 <= j' <= b -> nlt (ofZ j') newNj = bool_decide (j' < b)) ->
  0 <= a <= Z.of_nat inner ->
  0 <= j <= b -> b - j <= Z.of_nat fuel ->
  regridRows fuel inner grid sources g newNi newNj j st
  = Ok (foldl point st (j' ← seqZ j (b - j); i' ← seqZ 0 a; [(j', i')])).
Proof.
  intros Hcols Hrows Ha. revert j st. induction fuel as [|fuel IH]; intros j st Hj Hfuel.
  - assert (j = b) as -> by lia. cbn [regridRows]. rewrite Hrows by lia.
    rewrite bool_decide_eq_false_2 by lia. rewrite Z.sub_diag. reflexivity.
  - cbn [regridRows]. rewrite Hrows by lia. case_bool_decide as Hlt.
    + rewrite (regridRow_runs a newNi j inner 0 st Hcols) by lia.
      cbn [mbind outcome_bind]. rewrite IH by lia.
      replace (b - j) with (Z.succ (b - (j + 1))) by lia.
      rewrite (seqZ_cons j) by lia. rewrite bind_cons, foldl_app.
      replace (Z.succ j) with (j + 1) by lia.
      replace (Z.pred (Z.succ (b - (j + 1)))) with (b - (j + 1)) by lia.
      rewrite Z.sub_0_r. rewrite (bind_singleton (fun i' => (j, i'))). reflexivity.
    + assert (j = b) as -> by lia. rewrite Z.sub_diag. reflexivity.
Qed.

(** The state after the points [pts], stored one after the other from
    [rs_idx st0] on. *)
Lemma regridPoints_stored (pts : list (Z * Z)) (st0 : RegridState num) (n : nat) :
  0 <= rs_idx st0 ->
  length (rs_lat st0) = n -> length (rs_lng st0) = n ->
  length (rs_values st0) = length sources ->
  (forall array, array ∈ rs_values st0 -> length array = n) ->
  (Z.to_nat (rs_idx st0) + length pts <= n)%nat ->
  let st := foldl point st0 pts in
  rs_idx st = rs_idx st0 + Z.of_nat (length pts)
  /\ length (rs_lat st) = n /\ length (rs_lng st) = n
  /\ length (rs_values st) = length sources
  /\ (forall array, array ∈ rs_values st -> length array = n)
  /\ (forall (k : nat) (p : Z * Z), pts !! k = Some p ->
        rs_lat st !! (Z.to_nat (rs_idx st0) + k)%nat
        = Some (toFloat32 (nadd (new_latMin g) (nmul (ofZ p.1) (latStep g))))
        /\ rs_lng st !! (Z.to_nat (rs_idx st0) + k)%nat
           = Some (toFloat32 (nadd (new_lngMin g) (nmul (ofZ p.2) (lngStep g)))))
  /\ (forall (s : nat) (source : option (list num)), sources !! s = Some source ->
        exists array0 array,
          rs_values st0 !! s = Some array0 /\ rs_values st !! s = Some array
          /\ (forall pos : nat, (Z.to_nat (rs_idx st0) + length pts <= pos)%nat ->
                array !! pos = array0 !! pos)
          /\ forall (k : nat) (p : Z * Z), pts !! k = Some p ->
               array !! (Z.to_nat (rs_idx st0) + k)%nat
               = match regridValue grid g source p.1 p.2 with
                 | Some v => Some v
                 | None => array0 !! (Z.to_nat (rs_idx st0) + k)%nat
                 end).
Proof.
  intros Hidx Hlat Hlng Hvals Harrays.
  induction pts as [|p pts IH] using rev_ind; intros Hroom st.
  - subst st. cbn [foldl length]. split; [lia|].
    repeat (split; [assumption|]). split; [intros k p Hk; inversion Hk|].
    intros s source Hs.
    destruct (lookup_lt_is_Some_2 (rs_values st0) s) as [array0 Harray0].
    { rewrite Hvals. eapply lookup_lt_Some, Hs. }
    exists array0, array0. split; [exact Harray0|]. split; [exact Harray0|].
    split; [reflexivity|]. intros k p Hk. inversion Hk.
  - rewrite length_app in Hroom. cbn [length] in Hroom.
    destruct (IH ltac:(lia)) as (Hi & Hl1 & Hl2 & Hl3 & Hl4 & Hcoord & Hval). clear IH.
    subst st. rewrite foldl_snoc.
    set (st := foldl point st0 pts) in *. clearbody st.
    set (i0 := Z.to_nat (rs_idx st0)) in *.
    assert (Hpos : Z.to_nat (rs_idx st) = (i0 + length pts)%nat) by (rewrite Hi; lia).
    unfold point, regridPoint.
    cbn [rs_idx rs_lat rs_lng rs_values]. unfold storeFloat32. rewrite Hpos.
    split; [rewrite Hi, length_app; cbn [length]; lia|].
    split; [rewrite length_insert; exact Hl1|].
    split; [rewrite length_insert; exact Hl2|].
    split; [rewrite length_zip_with; lia|].
    split.
    { intros array Harray. apply elem_of_lookup_zip_with in Harray
        as (s & source & array1 & -> & Hs & Harray1).
      assert (Hlen1 : length array1 = n) by (eapply Hl4, list_elem_of_lookup_2, Harray1).
      destruct source as [arr|].
      - destruct (bilinearInterpolate _ _ _ _); rewrite length_insert; exact Hlen1.
      - destruct (outsideGrid _ _ _); [rewrite length_insert|]; exact Hlen1. }
    split.
    { intros k q Hk. destruct (decide (k = length pts)) as [->|Hne].
      - rewrite lookup_app_r, Nat.sub_diag in Hk by lia. injection Hk as <-.
        rewrite !list_lookup_insert_eq by lia. split; reflexivity.
      - assert (Hk' : pts !! k = Some q).
        { rewrite lookup_app_l in Hk; [exact Hk|].
          apply lookup_lt_Some in Hk. rewrite length_app in Hk. cbn in Hk. lia. }
        rewrite !list_lookup_insert_ne by lia. apply Hcoord, Hk'. }
    intros s source Hs.
    destruct (Hval s source Hs) as (array0 & array1 & Harray0 & Harray1 & Hrest & Hat).
    assert (Hlen1 : length array1 = n) by (eapply Hl4, list_elem_of_lookup_2, Harray1).
    eexists array0, _. split; [exact Harray0|]. split.
    { rewrite lookup_zip_with, Hs, Harray1. reflexivity. }
    split.
    { intros pos Hge. rewrite length_app in Hge. cbn [length] in Hge.
      destruct source as [arr|].
      - destruct (bilinearInterpolate _ _ _ _);
          rewrite list_lookup_insert_ne by lia; apply Hrest; lia.
      - destruct (outsideGrid _ _ _);
          [rewrite list_lookup_insert_ne by lia|]; apply Hrest; lia. }
    intros k q Hk. destruct (decide (k = length pts)) as [->|Hne].
    + rewrite lookup_app_r, Nat.sub_diag in Hk by lia. injection Hk as <-.
      unfold regridValue. destruct source as [arr|].
      * destruct (bilinearInterpolate _ _ _ _);
          rewrite list_lookup_insert_eq by lia; reflexivity.
      * destruct (outsideGrid _ _ _).
        -- rewrite list_lookup_insert_eq by lia. reflexivity.
        -- apply Hrest. lia.
    + assert (Hk' : pts !! k = Some q).
      { rewrite lookup_app_l in Hk; [exact Hk|].
        apply lookup_lt_Some in Hk. rewrite length_app in Hk. cbn in Hk. lia. }
      rewrite <- (Hat k q Hk').
      destruct source as [arr|].
      * destruct (bilinearInterpolate _ _ _ _);
          rewrite list_lookup_insert_ne by lia; reflexivity.
      * destruct (outsideGrid _ _ _);
          [rewrite list_lookup_insert_ne by lia|]; reflexivity.
Qed.

End RegridLoops.

Section RegridTheorem.
Context {num : Type} `{JSNumber num} `{HostRound num}.


End RegridTheorem.


(** ** The edition byte *)

Create HintDb frame.

Lemma outcome_bind_frame {A B : Type} (m m' : outcome A) (k k' : A -> outcome B) :
  m' = m -> (forall a, m = Ok a -> k' a = k a) -> (m' ≫= k') = (m ≫= k).
Proof.
  intros -> Hk. destruct m; cbn [mbind outcome_bind]; [apply Hk|..]; reflexivity.
Qed.

(** Two buffers of one length that hold the same bytes from [lo] on: what
    is read at [lo] or beyond is the same in both. *)
Section Frame.
Context {num : Type} `{JSNumber num}.
Variables (view view' : list byte) (lo : Z).
Hypothesis Hlo : 0 <= lo.
Hypothesis Hlength : length view' = length view.
Hypothesis Hsame : forall k : nat, (Z.to_nat lo <= k)%nat -> view' !! k = view !! k.

Lemma byteLength_frame : byteLength view' = byteLength view.
Proof. unfold byteLength. rewrite Hlength. reflexivity. Qed.

Lemma getUint8_frame (off : Z) : lo <= off -> getUint8 view' off = getUint8 view off.
Proof. intros Hoff. unfold getUint8. rewrite Hsame by lia. reflexivity. Qed.

#[local] Hint Resolve getUint8_frame : frame.
#[local] Hint Extern 1 (_ <= _) => lia : frame.

Ltac frame :=
  repeat first
    [ reflexivity
    | solve [auto 2 with frame]
    | apply outcome_bind_frame; [|intros ? ?]
    | match goal with
      | |- (if ?c then _ else _) = (if ?c then _ else _) => destruct c
      | |- (let '(_, _) := ?p in _) = _ => destruct p
      | |- match ?x with _ => _ end = match ?x with _ => _ end => destruct x
      end ].

Lemma getUint16_frame (off : Z) : lo <= off -> getUint16 view' off = getUint16 view off.
Proof. intros Hoff. unfold getUint16. frame. Qed.

Lemma getUint32_frame (off : Z) : lo <= off -> getUint32 view' off = getUint32 view off.
Proof. intros Hoff. unfold getUint32. frame. Qed.

#[local] Hint Resolve getUint16_frame getUint32_frame : frame.

Lemma getInt16_frame (off : Z) : lo <= off -> getInt16 view' off = getInt16 view off.
Proof. intros Hoff. unfold getInt16. frame. Qed.

Lemma getInt32_frame (off : Z) : lo <= off -> getInt32 view' off = getInt32 view off.
Proof. intros Hoff. unfold getInt32. frame. Qed.

Lemma getFloat32_frame (off : Z) : lo <= off -> getFloat32 view' off = getFloat32 view off.
Proof. intros Hoff. unfold getFloat32. frame. Qed.

Lemma fourBytes_frame (off : Z) : lo <= off -> fourBytes view' off = fourBytes view off.
Proof. intros Hoff. unfold fourBytes. frame. Qed.

Lemma readUint64_frame (off : Z) : lo <= off -> readUint64 view' off = readUint64 view off.
Proof. intros Hoff. unfold readUint64. frame. Qed.

Lemma subarray_frame (off len : Z) :
  lo <= off -> subarray view' off len = subarray view off len.
Proof.
  intros Hoff. unfold subarray. rewrite byteLength_frame.
  destruct ((len <? 0) || (off <? 0) || (byteLength view <? off + len)); [reflexivity|].
  do 2 f_equal. apply list_eq. intros k. rewrite !lookup_drop. apply Hsame. lia.
Qed.

#[local] Hint Resolve getInt16_frame getInt32_frame getFloat32_frame fourBytes_frame
  readUint64_frame subarray_frame : frame.

(** *** readBits and the decoders *)

Lemma readBits_loop_frame (fuel : nat) (byteOffset bitShift numberOfBits value bitsRead : Z) :
  lo <= byteOffset -> 0 <= bitShift -> 0 <= bitsRead ->
  readBits_loop fuel view' byteOffset bitShift numberOfBits value bitsRead
  = readBits_loop fuel view byteOffset bitShift numberOfBits value bitsRead.
Proof.
  intros Hbyte Hshift. revert value bitsRead.
  induction fuel as [|fuel IH]; intros value bitsRead Hread; cbn [readBits_loop].
  - reflexivity.
  - destruct (bitsRead <? numberOfBits) eqn:Hmore; [|reflexivity].
    apply Z.ltb_lt in Hmore.
    assert (Hdiv : 0 <= (bitShift + bitsRead) / 8) by (apply Z.div_pos; lia).
    assert (Hrem : 0 <= Z.rem (bitShift + bitsRead) 8 < 8)
      by (apply Z.rem_bound_pos; lia).
    apply outcome_bind_frame; [apply getUint8_frame; lia|].
    intros byte _. apply IH. lia.
Qed.

(** A read of no bits looks at no byte. *)
Lemma readBits_frame (bitOffset numberOfBits : Z) :
  numberOfBits <= 0 \/ 8 * lo <= bitOffset ->
  readBits view' bitOffset numberOfBits = readBits view bitOffset numberOfBits.
Proof.
  intros Hcase. unfold readBits. rewrite byteLength_frame.
  destruct (byteLength view <=? (bitOffset + numberOfBits - 1) / 8); [reflexivity|].
  destruct Hcase as [Hnone|Hoff].
  - replace (Z.to_nat numberOfBits) with 0%nat by lia. reflexivity.
  - apply readBits_loop_frame.
    + apply Z.div_le_lower_bound; lia.
    + apply Z.rem_nonneg; lia.
    + lia.
Qed.

Lemma simpleValues_frame (n : nat) (bitOffset nbits : Z) (R binaryScale decimalScale : num) :
  8 * lo <= bitOffset ->
  simpleValues n view' bitOffset nbits R binaryScale decimalScale
  = simpleValues n view bitOffset nbits R binaryScale decimalScale.
Proof.
  destruct (Z_le_gt_dec nbits 0) as [Hnone|Hsome].
  - intros _. revert bitOffset. induction n as [|n IH]; intros bitOffset; [reflexivity|].
    cbn [simpleValues]. rewrite readBits_frame by (left; exact Hnone).
    rewrite IH. reflexivity.
  - revert bitOffset. induction n as [|n IH]; intros bitOffset Hoff; [reflexivity|].
    cbn [simpleValues]. rewrite readBits_frame by (right; exact Hoff).
    rewrite IH by lia. reflexivity.
Qed.

Lemma decodeSimplePacking_frame (offset dataLength : Z) (t : Packing num) (N : Z) :
  lo <= offset ->
  decodeSimplePacking view' offset dataLength t N
  = decodeSimplePacking view offset dataLength t N.
Proof.
  intros Hoff. unfold decodeSimplePacking.
  destruct (numberOfBits t =? 0); [reflexivity|]. apply simpleValues_frame. lia.
Qed.

Lemma readDescriptors_frame (bitPos nbitsd order : Z) :
  8 * lo <= bitPos -> 1 <= nbitsd ->
  readDescriptors view' bitPos nbitsd order = readDescriptors view bitPos nbitsd order.
Proof.
  intros Hpos Hbits. unfold readDescriptors.
  apply outcome_bind_frame; [apply readBits_frame; right; lia|]. intros h1 _.
  apply outcome_bind_frame.
  { destruct (order =? 2); [|reflexivity].
    apply outcome_bind_frame; [apply readBits_frame; right; lia|reflexivity]. }
  intros [h2 bitPos'] Hh2.
  assert (Hpos' : 8 * lo <= bitPos').
  { destruct (order =? 2).
    - bind_inv Hh2. injection Hh2 as _ <-. lia.
    - injection Hh2 as _ <-. lia. }
  apply outcome_bind_frame; [apply readBits_frame; right; lia|]. intros isign _.
  apply outcome_bind_frame; [apply readBits_frame; right; lia|reflexivity].
Qed.

Lemma readSpatialHeader_frame (offset order numExtraOctets : Z) :
  lo <= offset ->
  readSpatialHeader view' offset order numExtraOctets
  = readSpatialHeader view offset order numExtraOctets.
Proof.
  intros Hoff. unfold readSpatialHeader.
  destruct ((0 <? order) && (0 <? numExtraOctets)); [|reflexivity].
  destruct (Z.eqb_spec numExtraOctets 2) as [->|_];
    [apply readDescriptors_frame; lia|].
  destruct (Z.eqb_spec numExtraOctets 1) as [->|_];
    [apply readDescriptors_frame; lia|reflexivity].
Qed.

Lemma readValues_frame (n : nat) (bitOffset nbits : Z) :
  8 * lo <= bitOffset -> 0 < nbits ->
  readValues n view' bitOffset nbits = readValues n view bitOffset nbits.
Proof.
  intros Hoff Hbits. revert bitOffset Hoff.
  induction n as [|n IH]; intros bitOffset Hoff; [reflexivity|].
  cbn [readValues]. rewrite readBits_frame by (right; exact Hoff).
  rewrite IH by lia. reflexivity.
Qed.

Lemma readGroupArray_frame (numberOfGroups bitOffset nbits : Z) :
  8 * lo <= bitOffset ->
  readGroupArray view' numberOfGroups bitOffset nbits
  = readGroupArray view numberOfGroups bitOffset nbits.
Proof.
  intros Hoff. unfold readGroupArray.
  destruct (0 <? nbits) eqn:Hbits; [|reflexivity]. apply Z.ltb_lt in Hbits.
  rewrite readValues_frame by assumption. reflexivity.
Qed.

(** With a count of groups that is not negative the cursor moves forward. *)
Lemma readGroupArray_forward (v : list byte) (numberOfGroups bitOffset nbits : Z)
    (vs : list Z) (bitOffset' : Z) :
  0 <= numberOfGroups ->
  readGroupArray v numberOfGroups bitOffset nbits = Ok (vs, bitOffset') ->
  bitOffset <= bitOffset'.
Proof.
  intros HG. unfold readGroupArray.
  destruct (0 <? nbits) eqn:Hbits.
  - apply Z.ltb_lt in Hbits. intros Hr. bind_inv Hr.
    assert (Hrem : 0 <= Z.rem (numberOfGroups * nbits) 8 < 8)
      by (apply Z.rem_bound_pos; nia).
    destruct (negb _); injection Hr as _ <-; nia.
  - intros [= _ <-]. lia.
Qed.

Lemma unpackWide_frame (count : nat) (gref gwidth maxBitOffset numberOfPoints : Z)
    (st : unpackState) :
  0 <= gwidth -> 8 * lo <= st.2 ->
  unpackWide count view' gref gwidth maxBitOffset numberOfPoints st
  = unpackWide count view gref gwidth maxBitOffset numberOfPoints st.
Proof.
  intros Hwidth. revert st.
  induction count as [|count IH]; intros [[ifld n] bitOffset] Hoff; [reflexivity|].
  cbn [unpackWide]. cbn [snd] in Hoff.
  destruct (n <? numberOfPoints); [|reflexivity].
  destruct (maxBitOffset <? bitOffset + gwidth); [reflexivity|].
  rewrite readBits_frame by (right; exact Hoff).
  apply outcome_bind_frame; [reflexivity|]. intros packedValue _.
  apply IH. cbn [snd]. lia.
Qed.

Lemma unpackWide_forward (count : nat) (v : list byte)
    (gref gwidth maxBitOffset numberOfPoints : Z) (st st' : unpackState) :
  0 <= gwidth ->
  unpackWide count v gref gwidth maxBitOffset numberOfPoints st = Ok st' ->
  st.2 <= st'.2.
Proof.
  intros Hwidth. revert st.
  induction count as [|count IH]; intros [[ifld n] bitOffset]; cbn [unpackWide].
  - intros [= <-]. lia.
  - destruct (n <? numberOfPoints); [|intros [= <-]; lia].
    destruct (maxBitOffset <? bitOffset + gwidth); [intros [= <-]; cbn; lia|].
    intros Hst. bind_inv Hst. apply IH in Hst. cbn [snd] in *. lia.
Qed.

Lemma unpackFlat_cursor (count : nat) (gref numberOfPoints : Z) (st : unpackState) :
  (unpackFlat count gref numberOfPoints st).2 = st.2.
Proof.
  revert st. induction count as [|count IH]; intros [[ifld n] bitOffset];
    cbn [unpackFlat]; [reflexivity|].
  destruct (n <? numberOfPoints); [|reflexivity]. rewrite IH. reflexivity.
Qed.

Lemma unpackGroups_frame (groups : list (Z * Z * Z)) (maxBitOffset numberOfPoints : Z)
    (st : unpackState) :
  Forall (fun group => 0 <= group.1.2) groups -> 8 * lo <= st.2 ->
  unpackGroups groups view' maxBitOffset numberOfPoints st
  = unpackGroups groups view maxBitOffset numberOfPoints st.
Proof.
  intros Hwidths. revert st.
  induction Hwidths as [|[[gref gwidth] glen] groups Hwidth _ IH]; intros st Hoff;
    [reflexivity|].
  cbn [unpackGroups]. cbn [fst snd] in Hwidth.
  destruct (negb (gwidth =? 0)).
  - rewrite unpackWide_frame by assumption.
    apply outcome_bind_frame; [reflexivity|]. intros st' Hst'.
    destruct (numberOfPoints <=? st'.1.2); [reflexivity|].
    apply IH. apply unpackWide_forward in Hst'; [lia|exact Hwidth].
  - apply IH. rewrite unpackFlat_cursor. exact Hoff.
Qed.

Lemma unpackedField_frame (offset dataLength : Z) (p : Packing num) (g : Groups num)
    (numberOfPoints bitOffset : Z) :
  0 <= numberOfGroups g -> 8 * lo <= bitOffset ->
  unpackedField view' offset dataLength p g numberOfPoints bitOffset
  = unpackedField view offset dataLength p g numberOfPoints bitOffset.
Proof.
  intros HG Hoff. unfold unpackedField.
  destruct (numberOfGroups g =? 0); [reflexivity|].
  apply outcome_bind_frame; [apply readGroupArray_frame; exact Hoff|].
  intros [gref off1] Hgref. apply readGroupArray_forward in Hgref; [|exact HG].
  apply outcome_bind_frame; [apply readGroupArray_frame; lia|].
  intros [gwidth off2] Hgwidth. apply readGroupArray_forward in Hgwidth; [|exact HG].
  apply outcome_bind_frame; [apply readGroupArray_frame; lia|].
  intros [glen off3] Hglen. apply readGroupArray_forward in Hglen; [|exact HG].
  rewrite unpackGroups_frame; [reflexivity| |cbn [snd]; lia].
  apply Forall_forall. intros [[r w] l] Hin. cbn [fst snd].
  apply elem_of_zip_l, elem_of_zip_r in Hin. cbn [fst snd] in Hin.
  apply list_elem_of_fmap in Hin as (w' & -> & _).
  unfold ToUint8. apply Z.mod_pos_bound. lia.
Qed.

Lemma readSpatialHeader_forward (v : list byte) (offset order numExtraOctets : Z)
    (h1 h2 overallMin bitOffset : Z) :
  readSpatialHeader v offset order numExtraOctets = Ok (h1, h2, overallMin, bitOffset) ->
  offset * 8 <= bitOffset.
Proof.
  unfold readSpatialHeader.
  assert (Hdesc : forall nbitsd, 1 <= nbitsd ->
            readDescriptors v (offset * 8) nbitsd order = Ok (h1, h2, overallMin, bitOffset) ->
            offset * 8 <= bitOffset).
  { intros nbitsd Hbits. unfold readDescriptors. intros Hr. bind_inv Hr.
    match goal with
    | Hh2 : (if order =? 2 then _ else _) = Ok (_, ?b) |- _ =>
        assert (offset * 8 <= b)
          by (destruct (order =? 2);
              [bind_inv Hh2; injection Hh2 as _ <-; lia|injection Hh2 as _ <-; lia])
    end.
    injection Hr as _ _ _ <-. lia. }
  destruct ((0 <? order) && (0 <? numExtraOctets)); [|intros [= _ _ _ <-]; lia].
  destruct (Z.eqb_spec numExtraOctets 2) as [->|_]; [apply Hdesc; lia|].
  destruct (Z.eqb_spec numExtraOctets 1) as [->|_]; [apply Hdesc; lia|].
  intros [= _ _ _ <-]. lia.
Qed.

Lemma integerField_frame (offset dataLength : Z) (p : Packing num) (g : Groups num)
    (numberOfPoints : Z) :
  0 <= numberOfGroups g -> lo <= offset ->
  integerField view' offset dataLength p g numberOfPoints
  = integerField view offset dataLength p g numberOfPoints.
Proof.
  intros HG Hoff. unfold integerField.
  apply outcome_bind_frame; [apply readSpatialHeader_frame; exact Hoff|].
  intros [[[h1 h2] overallMin] bitOffset] Hheader.
  apply readSpatialHeader_forward in Hheader.
  rewrite unpackedField_frame by (assumption || lia). reflexivity.
Qed.

Lemma decodeComplexPacking_frame (offset dataLength : Z) (p : Packing num)
    (g : Groups num) (numberOfPoints : Z) :
  0 <= numberOfGroups g -> lo <= offset ->
  decodeComplexPacking view' offset dataLength p g numberOfPoints
  = decodeComplexPacking view offset dataLength p g numberOfPoints.
Proof.
  intros HG Hoff. unfold decodeComplexPacking.
  rewrite integerField_frame by assumption. reflexivity.
Qed.

(** *** The section parsers *)

Lemma parseSection1_frame (offset : Z) :
  lo <= offset -> parseSection1 view' offset = parseSection1 view offset.
Proof. intros Hoff. unfold parseSection1. frame. Qed.

Lemma parseSection2_frame (offset : Z) :
  lo <= offset -> parseSection2 view' offset = parseSection2 view offset.
Proof. intros Hoff. unfold parseSection2. frame. Qed.

Lemma parseGridTemplate0_frame (offset : Z) :
  lo <= offset -> parseGridTemplate0 view' offset = parseGridTemplate0 view offset.
Proof. intros Hoff. unfold parseGridTemplate0. frame. Qed.

#[local] Hint Resolve parseGridTemplate0_frame : frame.

Lemma parseSection3_frame (offset : Z) :
  lo <= offset -> parseSection3 view' offset = parseSection3 view offset.
Proof. intros Hoff. unfold parseSection3. frame. Qed.

Lemma parseSection4_frame (offset : Z) :
  lo <= offset -> parseSection4 view' offset = parseSection4 view offset.
Proof. intros Hoff. unfold parseSection4. frame. Qed.

Lemma parsePacking_frame (offset : Z) :
  lo <= offset -> parsePacking view' offset = parsePacking view offset.
Proof. intros Hoff. unfold parsePacking. frame. Qed.

Lemma parseGroups_frame (offset : Z) (withOrder : bool) :
  lo <= offset -> parseGroups view' offset withOrder = parseGroups view offset withOrder.
Proof. intros Hoff. unfold parseGroups. frame. Qed.

#[local] Hint Resolve parsePacking_frame parseGroups_frame : frame.

Lemma parseSection5_frame (offset : Z) :
  lo <= offset -> parseSection5 view' offset = parseSection5 view offset.
Proof. intros Hoff. unfold parseSection5. frame. Qed.

Lemma parseSection6_frame (offset : Z) :
  lo <= offset -> parseSection6 view' offset = parseSection6 view offset.
Proof. intros Hoff. unfold parseSection6. frame. Qed.

Lemma parseSection8_frame (offset : Z) :
  lo <= offset -> parseSection8 view' offset = parseSection8 view offset.
Proof. intros Hoff. unfold parseSection8. frame. Qed.

Lemma parseGroups_counted (v : list byte) (offset : Z) (withOrder : bool) (g : Groups num) :
  parseGroups v offset withOrder = Ok g -> 0 <= numberOfGroups g.
Proof.
  unfold parseGroups. intros Hg. bind_inv Hg.
  match goal with
  | Hp : (if withOrder then _ else _) = Ok _ |- _ => clear Hp
  end.
  injection Hg as <-. cbn [numberOfGroups].
  match goal with
  | HG : getUint32 v (offset + 31) = Ok _ |- _ => apply getUint32_Ok in HG; lia
  end.
Qed.

Lemma parseSection5_counted (v : list byte) (offset offset' : Z)
    (s5 : Section5 (num := num)) :
  parseSection5 v offset = Ok (s5, offset') -> groupsCounted (Some s5).
Proof.
  unfold parseSection5. intros Hs. bind_inv Hs. injection Hs as <- _.
  intros s5 p g [= <-]. cbn [template]. intros ->.
  match goal with
  | Ht : (if ?n =? 0 then _ else _) = Ok (Some (ComplexPacking p g)) |- _ =>
      destruct (n =? 0); [bind_inv Ht; discriminate|];
      destruct (n =? 2); [|destruct (n =? 3); [|discriminate]];
      bind_inv Ht; injection Ht as _ <-;
      eapply parseGroups_counted; eassumption
  end.
Qed.

Lemma parseSection7_frame (offset : Z) (section5 : option (Section5 (num := num))) :
  groupsCounted section5 -> lo <= offset ->
  parseSection7 view' offset section5 = parseSection7 view offset section5.
Proof.
  intros Hcounted Hoff. unfold parseSection7.
  apply outcome_bind_frame; [apply getUint32_frame; lia|]. intros len _.
  apply outcome_bind_frame; [apply getUint8_frame; lia|]. intros sn _.
  apply outcome_bind_frame; [|reflexivity].
  destruct section5 as [s5|]; cbn [mbind option_bind].
  - destruct (template s5) as [[p|p g]|] eqn:Ht; cbn [fmap option_fmap option_map].
    + rewrite decodeSimplePacking_frame by lia. reflexivity.
    + rewrite decodeComplexPacking_frame; [reflexivity| |lia].
      apply (Hcounted s5 p g eq_refl Ht).
    + rewrite subarray_frame by lia. reflexivity.
  - rewrite subarray_frame by lia. reflexivity.
Qed.

(** *** The loop over the sections *)

Lemma parseSections_frame (fuel : nat) (messageEnd offset : Z)
    (secs : Sections (num := num)) :
  groupsCounted (section5 secs) -> lo <= offset ->
  parseSections fuel view' messageEnd offset secs
  = parseSections fuel view messageEnd offset secs.
Proof.
  revert offset secs. induction fuel as [|fuel IH]; intros offset secs Hcounted Hoff;
    cbn [parseSections]; [reflexivity|].
  destruct (offset <? messageEnd); [|reflexivity].
  apply outcome_bind_frame; [apply fourBytes_frame; exact Hoff|]. intros next4 _.
  destruct (eqFour next4 s7777).
  { rewrite parseSection8_frame by exact Hoff. reflexivity. }
  apply outcome_bind_frame; [apply getUint8_frame; lia|]. intros sn _.
  destruct (sn =? 2).
  { apply outcome_bind_frame; [apply parseSection2_frame; exact Hoff|].
    intros [x off] Hx. apply parseSection2_advances in Hx.
    apply IH; [exact Hcounted|lia]. }
  destruct (sn =? 3).
  { apply outcome_bind_frame; [apply parseSection3_frame; exact Hoff|].
    intros [x off] Hx. apply parseSection3_advances in Hx.
    apply IH; [exact Hcounted|lia]. }
  destruct (sn =? 4).
  { apply outcome_bind_frame; [apply parseSection4_frame; exact Hoff|].
    intros [x off] Hx. apply parseSection4_advances in Hx.
    apply IH; [exact Hcounted|lia]. }
  destruct (sn =? 5).
  { apply outcome_bind_frame; [apply parseSection5_frame; exact Hoff|].
    intros [x off] Hx. pose proof (parseSection5_counted _ _ _ _ Hx) as Hx5.
    apply parseSection5_advances in Hx.
    apply IH; [exact Hx5|lia]. }
  destruct (sn =? 6).
  { apply outcome_bind_frame; [apply parseSection6_frame; exact Hoff|].
    intros [x off] Hx. apply parseSection6_advances in Hx.
    apply IH; [exact Hcounted|lia]. }
  destruct (sn =? 7); [|reflexivity].
  apply outcome_bind_frame; [apply parseSection7_frame; assumption|].
  intros [x off] Hx. apply parseSection7_advances in Hx.
  apply IH; [exact Hcounted|lia].
Qed.

End Frame.

(** *** The edition byte of a message *)

Section Edition.
Context {num : Type} `{JSNumber num}.

Lemma setEdition_length (view : list byte) (offset : Z) (b : byte) :
  length (setEdition view offset b) = length view.
Proof. apply length_insert. Qed.

Lemma setEdition_other (view : list byte) (offset : Z) (b : byte) (k : nat) :
  k <> Z.to_nat (offset + 7) -> setEdition view offset b !! k = view !! k.
Proof. intros Hk. apply list_lookup_insert_ne. congruence. Qed.

Lemma getUint8_setEdition_other (view : list byte) (offset : Z) (b : byte) (off : Z) :
  0 <= offset -> off <> offset + 7 ->
  getUint8 (setEdition view offset b) off = getUint8 view off.
Proof.
  intros Hoffset Hoff. unfold getUint8.
  destruct (off <? 0) eqn:Hneg; [reflexivity|]. apply Z.ltb_ge in Hneg.
  rewrite setEdition_other by lia. reflexivity.
Qed.

Lemma getUint8_setEdition (view : list byte) (offset : Z) (b : byte) :
  0 <= offset -> offset + 7 < byteLength view ->
  getUint8 (setEdition view offset b) (offset + 7) = Ok (byteZ b).
Proof.
  intros Hoffset Hin. unfold getUint8, setEdition, byteLength in *.
  destruct (offset + 7 <? 0) eqn:Hneg; [apply Z.ltb_lt in Hneg; lia|].
  rewrite list_lookup_insert_eq by lia. reflexivity.
Qed.

Lemma fourBytes_setEdition (view : list byte) (offset : Z) (b : byte) :
  0 <= offset ->
  fourBytes (setEdition view offset b) offset = fourBytes view offset.
Proof.
  intros Hoffset. unfold fourBytes.
  rewrite !getUint8_setEdition_other by lia. reflexivity.
Qed.

(** Section 0 with another edition byte: the same outcome, with that
    edition. *)
Lemma parseSection0_setEdition (view : list byte) (offset : Z) (b : byte) :
  0 <= offset ->
  parseSection0 (setEdition view offset b) offset
  = match parseSection0 view offset with
    | Ok (Some s0, offset') =>
        Ok (Some {| discipline0 := discipline0 s0; edition0 := byteZ b;
                    totalLength0 := totalLength0 s0 |}, offset')
    | r => r
    end.
Proof.
  intros Hoffset. unfold parseSection0.
  assert (Hsame : forall k : nat, (Z.to_nat (offset + 8) <= k)%nat ->
            setEdition view offset b !! k = view !! k)
    by (intros k Hk; apply setEdition_other; lia).
  rewrite (byteLength_frame view (setEdition view offset b))
    by apply setEdition_length.
  destruct (byteLength view <? offset + 16) eqn:Hlen; [reflexivity|].
  apply Z.ltb_ge in Hlen.
  rewrite fourBytes_setEdition by exact Hoffset.
  destruct (fourBytes view offset) as [signature| |]; cbn [mbind outcome_bind];
    [|reflexivity..].
  destruct (negb (eqFour signature GRIB)); [reflexivity|].
  rewrite (getUint8_setEdition_other view offset b (offset + 6)) by lia.
  rewrite getUint8_setEdition by lia.
  rewrite (readUint64_frame view (setEdition view offset b) (offset + 8))
    by (first [lia|apply setEdition_length|exact Hsame]).
  destruct (getUint8 view (offset + 6)) as [discipline| |]; cbn [mbind outcome_bind];
    [|reflexivity..].
  rewrite getUint8_in_range by lia. cbn [mbind outcome_bind].
  destruct (readUint64 view (offset + 8)) as [len| |]; reflexivity.
Qed.

(** C7, amended.  Parsing does not look at the edition.  The only error
    of parseSection0 is the missing 'GRIB' signature; with 16 bytes and
    that signature it returns section 0, whose edition is the byte at
    offset 7 whatever its value; the edition of a parsed message is that
    byte; and the outcome of parseMessage is the same for every value of
    the byte: the same error, or the same sections and the same new
    offset, in a message with that edition. *)
Theorem edition_is_not_checked (fuel : nat) (view : list byte) (offset : Z) (b : byte) :
  0 <= offset ->
  (forall e, parseSection0 view offset = Throw e ->
     e = InvalidSignature /\ fourBytes view offset <> Ok GRIB)
  /\ (offset + 16 <= byteLength view -> fourBytes view offset = Ok GRIB ->
      exists s0,
        parseSection0 view offset = Ok (Some s0, offset + 16)
        /\ getUint8 view (offset + 7) = Ok (edition0 s0))
  /\ (forall (m : Message num) (offset' : Z),
        parseMessage fuel view offset = Ok (Some m, offset') ->
        getUint8 view (offset + 7) = Ok (edition m))
  /\ parseMessage fuel (setEdition view offset b) offset
     = match parseMessage fuel view offset with
       | Ok (Some m, offset') => Ok (Some (withEdition (byteZ b) m), offset')
       | r => r
       end.
Proof.
  intros Hoffset. split; [|split; [|split]].
  - intros e. unfold parseSection0.
    destruct (byteLength view <? offset + 16) eqn:Hlen; [discriminate|].
    apply Z.ltb_ge in Hlen.
    destruct (fourBytes_in_range view offset) as [s Hs]; [lia..|].
    rewrite Hs. cbn [mbind outcome_bind].
    destruct (eqFour s GRIB) eqn:Hsig; cbn [negb].
    + rewrite !getUint8_in_range by lia. cbn [mbind outcome_bind].
      unfold readUint64.
      destruct (getUint32_in_range view (offset + 8)) as [hi ->]; [lia..|].
      destruct (getUint32_in_range view (offset + 8 + 4)) as [low ->]; [lia..|].
      discriminate.
    + intros [= <-]. split; [reflexivity|].
      intros [= ->]. unfold eqFour in Hsig.
      rewrite bool_decide_eq_false in Hsig. congruence.
  - intros Hlen Hsig. unfold parseSection0.
    destruct (byteLength view <? offset + 16) eqn:Hshort;
      [apply Z.ltb_lt in Hshort; lia|].
    rewrite Hsig. cbn [mbind outcome_bind].
    change (negb (eqFour GRIB GRIB)) with false. cbn match.
    rewrite !getUint8_in_range by lia. cbn [mbind outcome_bind].
    unfold readUint64.
    destruct (getUint32_in_range view (offset + 8)) as [hi ->]; [lia..|].
    destruct (getUint32_in_range view (offset + 8 + 4)) as [low ->]; [lia..|].
    cbn [mbind outcome_bind]. eexists. split; [reflexivity|].
    cbn [edition0]. unfold byteAt.
    destruct (view !! Z.to_nat (offset + 7)) as [x|] eqn:Hx; [reflexivity|].
    apply lookup_ge_None in Hx. unfold byteLength in Hlen. lia.
  - intros m offset' Hm. unfold parseMessage in Hm.
    destruct (parseSection0 view offset) as [[[s0|] off0]| |] eqn:H0;
      cbn [mbind outcome_bind] in Hm; try discriminate.
    bind_inv Hm. injection Hm as <- <-. cbn [edition].
    unfold parseSection0 in H0.
    destruct (byteLength view <? offset + 16); [discriminate|].
    bind_inv H0.
    destruct (negb (eqFour _ GRIB)); [discriminate|].
    bind_inv H0. injection H0 as <- <-. cbn [edition0]. congruence.
  - unfold parseMessage. rewrite parseSection0_setEdition by exact Hoffset.
    destruct (parseSection0 view offset) as [[[s0|] off0]| |] eqn:Hs0;
      cbn [mbind outcome_bind]; try reflexivity.
    assert (Hoff0 : off0 = offset + 16).
    { unfold parseSection0 in Hs0.
      destruct (byteLength view <? offset + 16); [discriminate|].
      bind_inv Hs0. destruct (negb _); [discriminate|]. bind_inv Hs0.
      injection Hs0 as _ <-. reflexivity. }
    subst off0. cbn [discipline0 edition0 totalLength0].
    assert (Hsame : forall k : nat, (Z.to_nat (offset + 8) <= k)%nat ->
              setEdition view offset b !! k = view !! k)
      by (intros k Hk; apply setEdition_other; lia).
    rewrite (parseSection1_frame view (setEdition view offset b) (offset + 8))
      by (first [lia|apply setEdition_length|exact Hsame]).
    destruct (parseSection1 view (offset + 16)) as [[s1 off1]| |] eqn:Hs1;
      cbn [mbind outcome_bind]; try reflexivity.
    apply parseSection1_advances in Hs1.
    rewrite (parseSections_frame view (setEdition view offset b) (offset + 8))
      by (first [lia|apply setEdition_length|exact Hsame|intros s5 p g [=]]).
    match goal with
    | |- mbind _ ?ps = _ => destruct ps as [[secs off2]| |]
    end; reflexivity.
Qed.

End Edition.

Lemma edition_is_not_checked_witness :
  exists (m : Message spec_float) (offset' : Z),
    parseMessage 9 Inputs.gradientMessage 0 = Ok (Some m, offset')
    /\ getUint8 Inputs.gradientMessage (0 + 7) = Ok (edition m)
    /\ edition m = 2
    /\ parseMessage 9 (setEdition Inputs.gradientMessage 0 "001"%byte) 0
       = Ok (Some (withEdition 1 m), offset').
Proof.
  destruct (edition_is_not_checked (num := spec_float) 9 Inputs.gradientMessage 0
              "001"%byte ltac:(lia)) as (_ & _ & Hedition & Hsame).
  destruct (parseMessage (num := spec_float) 9 Inputs.gradientMessage 0)
    as [[[m|] offset']| |] eqn:Hm; try (vm_compute in Hm; discriminate).
  exists m, offset'. split; [reflexivity|].
  split; [exact (Hedition m offset' eq_refl)|].
  split; [vm_compute in Hm; injection Hm as <- _; reflexivity|exact Hsame].
Defined.

(** ** Rounding to a binary format *)

Lemma F2Q_scaled (k m e : Z) :
  k <= e -> (F2Q m e == inject_Z (m * 2 ^ (e - k)) * 2 ^ k)%Q.
Proof.
  intros Hk. unfold F2Q.
  replace e with ((e - k) + k) at 1 by lia.
  rewrite Qpower_plus by discriminate.
  rewrite inject_Z_mult, (Zpower_Qpower 2 (e - k)) by lia.
  change (inject_Z 2) with 2%Q. ring.
Qed.

Lemma F2Q_le (k a x b y : Z) :
  k <= x -> k <= y ->
  (F2Q a x <= F2Q b y)%Q <-> a * 2 ^ (x - k) <= b * 2 ^ (y - k).
Proof.
  intros Hx Hy. rewrite (F2Q_scaled k a x Hx), (F2Q_scaled k b y Hy).
  rewrite Qmult_le_r by (apply Qpower_0_lt; reflexivity).
  rewrite <- Zle_Qle. reflexivity.
Qed.

Lemma digits2_pos_size (p : positive) : digits2_pos p = Pos.size p.
Proof. induction p as [p IH|p IH|]; cbn; congruence. Qed.

Lemma digits2_pos_bounds (p : positive) :
  2 ^ (Z.pos (digits2_pos p) - 1) <= Z.pos p < 2 ^ Z.pos (digits2_pos p).
Proof.
  rewrite digits2_pos_size.
  pose proof (Pos.size_gt p) as Hgt. pose proof (Pos.size_le p) as Hle.
  apply Pos2Z.pos_lt_pos in Hgt. apply Pos2Z.pos_le_pos in Hle.
  rewrite (Pos2Z.inj_xO p) in Hle. rewrite Pos2Z.inj_pow in Hgt, Hle.
  split; [|exact Hgt].
  replace (Z.pos (Pos.size p)) with (Z.pos (Pos.size p) - 1 + 1) in Hle by lia.
  rewrite Z.pow_add_r in Hle by lia. change (2 ^ 1) with 2 in Hle. lia.
Qed.

(** A value that is not above another has no more digits. *)
Lemma digits_le (a b : positive) (x y : Z) :
  (F2Q (Z.pos a) x <= F2Q (Z.pos b) y)%Q ->
  Z.pos (digits2_pos a) + x <= Z.pos (digits2_pos b) + y.
Proof.
  intros Hle. apply (F2Q_le (Z.min x y)) in Hle; [|lia..].
  pose proof (digits2_pos_bounds a) as Ha. pose proof (digits2_pos_bounds b) as Hb.
  set (k := Z.min x y) in *.
  assert (Hlow : 2 ^ (Z.pos (digits2_pos a) - 1 + (x - k)) <= Z.pos a * 2 ^ (x - k)).
  { rewrite Z.pow_add_r by lia. apply Z.mul_le_mono_nonneg_r; [|lia].
    apply Z.pow_nonneg. lia. }
  assert (Hhigh : Z.pos b * 2 ^ (y - k) < 2 ^ (Z.pos (digits2_pos b) + (y - k))).
  { rewrite Z.pow_add_r by lia. apply Z.mul_lt_mono_pos_r; [|lia].
    apply Z.pow_pos_nonneg; lia. }
  assert (Hpow : 2 ^ (Z.pos (digits2_pos a) - 1 + (x - k))
                 < 2 ^ (Z.pos (digits2_pos b) + (y - k))) by lia.
  apply Z.pow_lt_mono_r_iff in Hpow; lia.
Qed.

Lemma iter_pos_nat {A : Type} (f : A -> A) (p : positive) (x : A) :
  SpecFloat.iter_pos f p x = Nat.iter (Pos.to_nat p) f x.
Proof.
  revert x. induction p as [p IH|p IH|]; intros x; cbn [SpecFloat.iter_pos].
  - rewrite !IH, Pos2Nat.inj_xI.
    replace (S (2 * Pos.to_nat p)) with (Pos.to_nat p + (Pos.to_nat p + 1))%nat by lia.
    rewrite !Nat.iter_add. reflexivity.
  - rewrite !IH, Pos2Nat.inj_xO.
    replace (2 * Pos.to_nat p)%nat with (Pos.to_nat p + Pos.to_nat p)%nat by lia.
    rewrite Nat.iter_add. reflexivity.
  - reflexivity.
Qed.

Lemma shr_1_spec (m : Z) (r s : bool) :
  0 <= m ->
  shr_1 {| shr_m := m; shr_r := r; shr_s := s |}
  = {| shr_m := m / 2; shr_r := Z.odd m; shr_s := r || s |}.
Proof.
  intros Hm. destruct m as [|p|p]; [reflexivity| |lia]. cbn [shr_1].
  destruct p as [p|p|]; cbn [Z.odd]; f_equal.
  - apply Z.div_unique with (r := 1); [lia|]. rewrite Pos2Z.inj_xI. reflexivity.
  - apply Z.div_unique with (r := 0); [lia|]. rewrite Pos2Z.inj_xO. lia.
Qed.

(** Shifting right by [k] bits divides by 2^k, and loses nothing when
    the remainder is 0. *)
Lemma shr_iter (k : nat) (m : Z) :
  0 <= m ->
  exists r s,
    Nat.iter k shr_1 {| shr_m := m; shr_r := false; shr_s := false |}
    = {| shr_m := m / 2 ^ Z.of_nat k; shr_r := r; shr_s := s |}
    /\ (m mod 2 ^ Z.of_nat k = 0 -> r = false /\ s = false).
Proof.
  intros Hm. induction k as [|k (r & s & Hk & Hexact)].
  - exists false, false. change (Z.of_nat 0) with 0. rewrite Z.pow_0_r, Z.div_1_r.
    split; [reflexivity|auto].
  - rewrite Nat.iter_succ, Hk.
    assert (Hpow : 0 < 2 ^ Z.of_nat k) by (apply Z.pow_pos_nonneg; lia).
    rewrite shr_1_spec by (apply Z.div_pos; lia).
    exists (Z.odd (m / 2 ^ Z.of_nat k)), (r || s). split.
    + f_equal. rewrite Nat2Z.inj_succ, Z.pow_succ_r by lia.
      rewrite Z.div_div by lia. f_equal. lia.
    + rewrite Nat2Z.inj_succ, Z.pow_succ_r by lia. intros Hmod.
      apply Z.mod_divide in Hmod; [|lia]. destruct Hmod as [t Ht].
      assert (Hq : m / 2 ^ Z.of_nat k = 2 * t).
      { symmetry. apply Z.div_unique with (r := 0); lia. }
      assert (Hmodk : m mod 2 ^ Z.of_nat k = 0).
      { symmetry. apply Z.mod_unique with (q := 2 * t); lia. }
      destruct (Hexact Hmodk) as [-> ->].
      rewrite Hq, Z.odd_mul. split; reflexivity.
Qed.

(** [shr] of an exact mantissa, by [n] bits when [n] is positive. *)
Lemma shr_spec (m e n : Z) :
  0 <= m ->
  exists r s,
    shr (shr_record_of_loc m loc_Exact) e n
    = ({| shr_m := m / 2 ^ Z.max 0 n; shr_r := r; shr_s := s |}, e + Z.max 0 n)
    /\ (m mod 2 ^ Z.max 0 n = 0 -> r = false /\ s = false).
Proof.
  intros Hm. unfold shr, shr_record_of_loc.
  destruct n as [|p|p].
  - exists false, false. cbn [Z.max Z.compare]. rewrite Z.pow_0_r, Z.div_1_r, Z.add_0_r. auto.
  - destruct (shr_iter (Pos.to_nat p) m Hm) as (r & s & Hiter & Hexact).
    rewrite positive_nat_Z in Hiter, Hexact.
    exists r, s. rewrite iter_pos_nat, Hiter.
    replace (Z.max 0 (Z.pos p)) with (Z.pos p) by lia. auto.
  - exists false, false. replace (Z.max 0 (Z.neg p)) with 0 by lia.
    rewrite Z.pow_0_r, Z.div_1_r, Z.add_0_r. auto.
Qed.

Lemma round_nearest_even_bounds (q : Z) (r s : bool) :
  let m := round_nearest_even q
             (loc_of_shr_record {| shr_m := q; shr_r := r; shr_s := s |}) in
  q <= m <= q + 1 /\ (r = false /\ s = false -> m = q).
Proof.
  destruct r, s; cbn; try destruct (Z.even q); split; try lia; intros [? ?];
    congruence.
Qed.

Lemma F2Q_pos (m : positive) (e : Z) : (0 < F2Q (Z.pos m) e)%Q.
Proof.
  unfold F2Q. apply Qmult_lt_0_compat; [reflexivity|].
  apply Qpower_0_lt. reflexivity.
Qed.

(** Rounding to nearest does not pass a number of the format: a value
    that is not above [B = mB * 2^eB] is rounded to a number that is not
    above [B]. *)
Lemma binary_round_aux_atMost (prec emax : Z) (mz : positive) (ez : Z)
    (mB : positive) (eB : Z) :
  0 < prec ->
  ez <= fexp prec emax (Z.pos (digits2_pos mz) + ez) ->
  bounded prec emax mB eB = true ->
  (F2Q (Z.pos mz) ez <= F2Q (Z.pos mB) eB)%Q ->
  atMost (F2Q (Z.pos mB) eB) (binary_round_aux prec emax false (Z.pos mz) ez loc_Exact).
Proof.
  intros Hprec Hez HB Hle.
  unfold bounded, canonical_mantissa in HB.
  apply andb_prop in HB as [HcanB HeB].
  apply Z.eqb_eq in HcanB. apply Z.leb_le in HeB.
  pose proof (digits_le mz mB ez eB Hle) as HD.
  set (D := Z.pos (digits2_pos mz) + ez) in *.
  set (eT := fexp prec emax D) in *.
  assert (HeT : eT <= eB).
  { subst eT. rewrite <- HcanB. unfold fexp. lia. }
  assert (Hemin : forall d, fexp prec emax d <= eT -> fexp prec emax eT <= eT).
  { intros d _. subst eT. unfold fexp. lia. }
  apply (F2Q_le ez) in Hle; [|lia..]. rewrite Z.sub_diag, Z.mul_1_r in Hle.
  unfold binary_round_aux, shr_fexp.
  change (Zdigits2 (Z.pos mz)) with (Z.pos (digits2_pos mz)). fold D. fold eT.
  destruct (shr_spec (Z.pos mz) ez (eT - ez)) as (r & s & Hshr & Hexact); [lia|].
  rewrite Hshr. clear Hshr.
  replace (Z.max 0 (eT - ez)) with (eT - ez) in * by lia.
  replace (ez + (eT - ez)) with eT by lia.
  set (q := Z.pos mz / 2 ^ (eT - ez)) in *. cbn [shr_m].
  destruct (round_nearest_even_bounds q r s) as [Hm1 Hm1exact]. cbn zeta in Hm1, Hm1exact.
  set (m1 := round_nearest_even q
               (loc_of_shr_record {| shr_m := q; shr_r := r; shr_s := s |})) in *.
  assert (Hpow1 : 0 < 2 ^ (eT - ez)) by (apply Z.pow_pos_nonneg; lia).
  set (K := Z.pos mB * 2 ^ (eB - eT)).
  assert (HK : Z.pos mB * 2 ^ (eB - ez) = K * 2 ^ (eT - ez)).
  { subst K. rewrite <- Z.mul_assoc, <- Z.pow_add_r by lia. do 2 f_equal. lia. }
  assert (Hq0 : 0 <= q) by (apply Z.div_pos; lia).
  assert (HqK : q <= K).
  { subst q. apply Z.div_le_upper_bound; [lia|]. rewrite Z.mul_comm. lia. }
  assert (Hm1K : m1 <= K).
  { destruct (Z.eq_dec q K) as [Heq|Hne]; [|lia].
    rewrite Hm1exact; [lia|]. apply Hexact.
    pose proof (Z.mul_div_le (Z.pos mz) (2 ^ (eT - ez)) Hpow1) as Hfloor.
    fold q in Hfloor.
    assert (Hmz : Z.pos mz = K * 2 ^ (eT - ez)) by nia.
    rewrite Hmz. apply Z.mod_mul. lia. }
  destruct (shr_spec m1 eT (fexp prec emax (Zdigits2 m1 + eT) - eT))
    as (r2 & s2 & Hshr2 & _); [lia|].
  rewrite Hshr2. clear Hshr2. cbn [shr_m].
  set (n2 := Z.max 0 (fexp prec emax (Zdigits2 m1 + eT) - eT)) in *.
  assert (Hpow2 : 0 < 2 ^ n2) by (apply Z.pow_pos_nonneg; lia).
  pose proof (Z.mul_div_le m1 (2 ^ n2) Hpow2) as Hfloor2.
  assert (Hm2 : 0 <= m1 / 2 ^ n2) by (apply Z.div_pos; lia).
  destruct (m1 / 2 ^ n2) as [|m2|m2] eqn:Hm2eq; [| |lia].
  - cbn [atMost]. apply Qlt_le_weak, F2Q_pos.
  - assert (Hm1pos : 0 < m1) by nia.
    destruct m1 as [|p1|p1] eqn:Hp1; [lia| |lia].
    assert (Hle1 : (F2Q (Z.pos p1) eT <= F2Q (Z.pos mB) eB)%Q).
    { apply (F2Q_le eT); [lia..|]. rewrite Z.sub_diag, Z.mul_1_r. fold K. lia. }
    pose proof (digits_le p1 mB eT eB Hle1) as HD1.
    assert (He2 : eT + n2 <= eB).
    { subst n2. cbn [Zdigits2]. unfold fexp in *. lia. }
    destruct (eT + n2 <=? emax - prec) eqn:Hfin; [|apply Z.leb_gt in Hfin; lia].
    cbn [atMost]. apply (F2Q_le eT); [lia..|].
    replace (eT + n2 - eT) with n2 by lia. fold K. lia.
Qed.

Lemma shift_digits (d p : positive) :
  Z.pos (digits2_pos (Pos.iter xO p d)) = Z.pos (digits2_pos p) + Z.pos d.
Proof.
  change (Pos.iter xO p d) with (shift_pos d p).
  rewrite shift_pos_nat, <- (positive_nat_Z d).
  induction (Pos.to_nat d) as [|n IH]; [cbn; lia|].
  cbn [shift_nat nat_rect digits2_pos]. fold (shift_nat n p).
  rewrite Pos2Z.inj_succ, IH, Nat2Z.inj_succ. lia.
Qed.

Lemma shift_value (d p : positive) :
  Z.pos (Pos.iter xO p d) = Z.pos p * 2 ^ Z.pos d.
Proof.
  change (Pos.iter xO p d) with (shift_pos d p).
  rewrite shift_pos_correct. change (Z.pow_pos 2 d) with (2 ^ Z.pos d). lia.
Qed.

(** [shl_align] keeps the value and lowers the exponent to [ex'] when
    that is below [ex]. *)
Lemma shl_align_spec (mx : positive) (ex ex' : Z) :
  let '(mz, ez) := shl_align mx ex ex' in
  ez = Z.min ex ex'
  /\ Z.pos mz = Z.pos mx * 2 ^ (ex - ez)
  /\ Z.pos (digits2_pos mz) + ez = Z.pos (digits2_pos mx) + ex.
Proof.
  unfold shl_align. destruct (ex' - ex) as [|d|d] eqn:Hd.
  - split; [lia|]. rewrite Z.sub_diag. split; lia.
  - split; [lia|]. rewrite Z.sub_diag. split; lia.
  - split; [lia|]. rewrite shift_value, shift_digits.
    replace (ex - ex') with (Z.pos d) by lia. split; lia.
Qed.

Lemma binary_round_atMost (prec emax : Z) (p : positive) (e : Z)
    (mB : positive) (eB : Z) :
  0 < prec ->
  bounded prec emax mB eB = true ->
  (F2Q (Z.pos p) e <= F2Q (Z.pos mB) eB)%Q ->
  atMost (F2Q (Z.pos mB) eB) (binary_round prec emax false p e).
Proof.
  intros Hprec HB Hle. unfold binary_round.
  pose proof (shl_align_spec p e (fexp prec emax (Z.pos (digits2_pos p) + e))) as Hal.
  destruct (shl_align p e (fexp prec emax (Z.pos (digits2_pos p) + e))) as [mz ez].
  destruct Hal as (Hez & Hmz & Hdig).
  apply binary_round_aux_atMost; [exact Hprec| |exact HB|].
  - rewrite Hdig. lia.
  - apply (F2Q_le (Z.min ez eB)); [lia..|].
    apply (F2Q_le (Z.min ez eB)) in Hle; [|lia..].
    rewrite Hmz, <- Z.mul_assoc, <- Z.pow_add_r by lia.
    replace (e - ez + (ez - Z.min ez eB)) with (e - Z.min ez eB) by lia.
    exact Hle.
Qed.

Lemma binary_normalize_atMost (prec emax : Z) (m e : Z) (szero : bool)
    (mB : positive) (eB : Z) :
  0 < prec -> 0 <= m ->
  bounded prec emax mB eB = true ->
  (F2Q m e <= F2Q (Z.pos mB) eB)%Q ->
  atMost (F2Q (Z.pos mB) eB) (binary_normalize prec emax m e szero).
Proof.
  intros Hprec Hm HB Hle. destruct m as [|p|p]; [| |lia]; cbn [binary_normalize].
  - cbn [atMost]. apply Qlt_le_weak, F2Q_pos.
  - apply binary_round_atMost; assumption.
Qed.

Lemma atMost_eq (B B' : Q) (x : spec_float) : (B == B')%Q -> atMost B x -> atMost B' x.
Proof.
  intros HB. destruct x as [s|s| |[|] m e]; cbn [atMost]; try tauto;
    rewrite HB; tauto.
Qed.

(** The float32 store keeps a number from 0 to [B] within these bounds,
    when [B] is a float32. *)
Lemma to_float32_atMost (mB : positive) (eB : Z) (mB' : positive) (eB' : Z)
    (x : spec_float) :
  bounded 24 128 mB eB = true ->
  bounded 53 1024 mB' eB' = true ->
  (F2Q (Z.pos mB) eB == F2Q (Z.pos mB') eB')%Q ->
  atMost (F2Q (Z.pos mB) eB) x ->
  atMost (F2Q (Z.pos mB) eB) (IEEE.to_float32 x).
Proof.
  intros HB HB' Heq Hx.
  destruct x as [s|s| |[|] m e]; cbn [atMost] in Hx; try contradiction.
  - exact Hx.
  - unfold IEEE.to_float32. cbn [cond_Zopp].
    pose proof (binary_normalize_atMost 24 128 (Z.pos m) e false mB eB
                  ltac:(lia) ltac:(lia) HB Hx) as Hr.
    destruct (binary_normalize 24 128 (Z.pos m) e false) as [s'|s'| |[|] m' e'];
      cbn [atMost] in Hr; try contradiction.
    + exact Hr.
    + cbn [cond_Zopp]. unfold IEEE.b64.
      apply (atMost_eq (F2Q (Z.pos mB') eB')); [symmetry; exact Heq|].
      apply binary_normalize_atMost; [lia|lia|exact HB'|].
      rewrite <- Heq. exact Hr.
Qed.

Lemma F2Q_add (k a x b y : Z) :
  k <= x -> k <= y ->
  (F2Q (a * 2 ^ (x - k) + b * 2 ^ (y - k)) k == F2Q a x + F2Q b y)%Q.
Proof.
  intros Hx Hy. rewrite (F2Q_scaled k a x Hx), (F2Q_scaled k b y Hy).
  unfold F2Q. rewrite inject_Z_plus. ring.
Qed.

Lemma F2Q_nonneg (m e : Z) : (0 <= F2Q m e)%Q -> 0 <= m.
Proof.
  unfold F2Q. intros Hq. rewrite <- (Qmult_0_l (2 ^ e)) in Hq.
  apply Qmult_le_r in Hq; [|apply Qpower_0_lt; reflexivity].
  change 0%Q with (inject_Z 0) in Hq. rewrite <- Zle_Qle in Hq. exact Hq.
Qed.

Lemma of_Z_360 : IEEE.of_Z 360 = S754_finite false 6333186975989760 (-44).
Proof. vm_compute. reflexivity. Qed.

(** 360 - 2^-15, the float32 below 360, in the two formats. *)
Lemma below_360_float32 : bounded 24 128 11796479 (-15) = true.
Proof. vm_compute. reflexivity. Qed.

Lemma below_360_binary64 : bounded 53 1024 6333186439118848 (-44) = true.
Proof. vm_compute. reflexivity. Qed.

Lemma below_360_same : (F2Q 11796479 (-15) == F2Q 6333186439118848 (-44))%Q.
Proof. vm_compute. reflexivity. Qed.

Lemma below_360_value : (F2Q 11796479 (-15) == 360 - (1 # 32768))%Q.
Proof. vm_compute. reflexivity. Qed.

(** d + 360 for a negative d from -360 to -2^-15. *)
Lemma SFadd_360_atMost (md : positive) (ed : Z) :
  (-360 <= F2Q (Z.neg md) ed)%Q -> (F2Q (Z.neg md) ed <= - (1 # 32768))%Q ->
  atMost (F2Q 11796479 (-15))
    (SFadd 53 1024 (S754_finite true md ed) (IEEE.of_Z 360)).
Proof.
  intros Hlow Hhigh. rewrite of_Z_360. unfold SFadd. cbn [cond_Zopp].
  set (ez := Z.min ed (-44)).
  pose proof (shl_align_spec md ed ez) as H1.
  pose proof (shl_align_spec 6333186975989760 (-44) ez) as H2.
  destruct (shl_align md ed ez) as [m1 e1].
  destruct (shl_align 6333186975989760 (-44) ez) as [m2 e2].
  destruct H1 as (He1 & Hm1 & _). destruct H2 as (He2 & Hm2 & _). cbn [fst].
  assert (He1' : e1 = ez) by lia. assert (He2' : e2 = ez) by lia.
  clear He1 He2. subst e1 e2.
  assert (Hsum : (F2Q (- Z.pos m1 + Z.pos m2) ez
                  == F2Q (Z.neg md) ed + 360)%Q).
  { rewrite Hm1, Hm2.
    replace (- (Z.pos md * 2 ^ (ed - ez))) with (Z.neg md * 2 ^ (ed - ez)) by lia.
    rewrite (F2Q_add ez (Z.neg md) ed 6333186975989760 (-44) ltac:(lia) ltac:(lia)).
    apply Qplus_comp; [reflexivity|]. vm_compute. reflexivity. }
  apply (atMost_eq (F2Q 6333186439118848 (-44))); [symmetry; apply below_360_same|].
  apply binary_normalize_atMost; [lia| |apply below_360_binary64|].
  - apply (F2Q_nonneg _ ez). rewrite Hsum.
    eapply Qle_trans; [|exact (proj2 (Qplus_le_l _ _ 360) Hlow)].
    apply Qle_lteq. right. ring.
  - rewrite Hsum, <- below_360_same, below_360_value.
    eapply Qle_trans; [exact (proj2 (Qplus_le_l _ _ 360) Hhigh)|].
    apply Qle_lteq. right. ring.
Qed.

Lemma atMost_below_360 (w : spec_float) :
  atMost (F2Q 11796479 (-15)) w ->
  exists q, valueOf w = Some q /\ (0 <= q < 360)%Q.
Proof.
  destruct w as [s|s| |[|] m e]; cbn [atMost]; try contradiction.
  - intros _. exists 0%Q. split; [reflexivity|]. split; [apply Qle_refl|reflexivity].
  - intros Hw. exists (F2Q (Z.pos m) e). split; [reflexivity|]. split.
    + apply Qlt_le_weak, F2Q_pos.
    + eapply Qle_lt_trans; [exact Hw|]. rewrite below_360_value. reflexivity.
Qed.

(** The step [if (dir < 0) dir += 360], away from the float32 just
    below 360. *)
Lemma direction_atMost (d : spec_float) (q : Q) :
  valueOf d = Some q ->
  (0 <= q <= 360 - (1 # 32768))%Q \/ (-360 <= q <= - (1 # 32768))%Q ->
  atMost (F2Q 11796479 (-15))
    (if SFltb d (IEEE.of_Z 0) then SFadd 53 1024 d (IEEE.of_Z 360) else d).
Proof.
  intros Hq Hrange.
  destruct d as [s|s| |s m e]; cbn [valueOf] in Hq.
  - injection Hq as <-.
    change (SFltb (S754_zero s) (IEEE.of_Z 0)) with false.
    cbn [atMost]. apply Qlt_le_weak, F2Q_pos.
  - discriminate.
  - discriminate.
  - injection Hq as <-. destruct s; cbn [cond_Zopp] in Hrange.
    + change (SFltb (S754_finite true m e) (IEEE.of_Z 0)) with true.
      destruct Hrange as [[Hlow _]|[Hlow Hhigh]].
      * apply F2Q_nonneg in Hlow. lia.
      * apply SFadd_360_atMost; assumption.
    + change (SFltb (S754_finite false m e) (IEEE.of_Z 0)) with false.
      destruct Hrange as [[_ Hhigh]|[_ Hhigh]].
      * cbn [atMost]. rewrite below_360_value. exact Hhigh.
      * exfalso. pose proof (F2Q_pos m e) as Hpos.
        apply (Qlt_irrefl 0). eapply Qlt_le_trans; [exact Hpos|].
        eapply Qle_trans; [exact Hhigh|]. compute. discriminate.
Qed.

(** C6, amended.  With ugrd and vgrd present, let
    d = atan2(-u_i, -v_i) * 180 / pi as the code computes it.  Wherever d
    is a number from 0 to 360 - 2^-15, or from -360 to -2^-15, wind_dir
    at index i is the float32 of d, respectively of d + 360, and it lies
    in [0, 360).  At a calm point, u_i = +0 and v_i = +0, atan2(-0, -0)
    is -pi and the direction is 180.  (The directions with
    -2^-15 < d < 0 are left out.) *)
Theorem wind_direction_formula (approx : spec_float -> spec_float -> spec_float)
    (numPoints : Z) (ugrd vgrd : list spec_float) (i : Z) :
  0 <= i < numPoints ->
  let u := element ugrd i in
  let v := element vgrd i in
  let d := SFdiv 53 1024 (SFmul 53 1024 (IEEE.atan2 approx (SFopp u) (SFopp v))
                                         (IEEE.of_Z 180)) IEEE.PI in
  (forall q : Q,
     valueOf d = Some q ->
     (0 <= q <= 360 - (1 # 32768))%Q \/ (-360 <= q <= - (1 # 32768))%Q ->
     exists (w : spec_float) (qw : Q),
       windDirection (H0 := IEEE.host approx) numPoints ugrd vgrd !! Z.to_nat i = Some w
       /\ w = IEEE.to_float32 (if SFltb d (IEEE.of_Z 0)
                               then SFadd 53 1024 d (IEEE.of_Z 360) else d)
       /\ valueOf w = Some qw
       /\ (0 <= qw < 360)%Q)
  /\ (u = S754_zero false -> v = S754_zero false ->
      windDirection (H0 := IEEE.host approx) numPoints ugrd vgrd !! Z.to_nat i
      = Some (IEEE.of_Z 180)).
Proof.
  intros Hi u v d. split.
  - intros q Hq Hrange.
    set (dir := if SFltb d (IEEE.of_Z 0) then SFadd 53 1024 d (IEEE.of_Z 360) else d).
    assert (Hdir : atMost (F2Q 11796479 (-15)) dir)
      by (exact (direction_atMost d q Hq Hrange)).
    apply (to_float32_atMost 11796479 (-15) 6333186439118848 (-44)) in Hdir;
      [|apply below_360_float32|apply below_360_binary64|apply below_360_same].
    destruct (atMost_below_360 _ Hdir) as (qw & Hqw & Hrangew).
    exists (IEEE.to_float32 dir), qw.
    split; [rewrite windDirection_lookup by exact Hi; reflexivity|].
    split; [reflexivity|]. split; [exact Hqw|exact Hrangew].
  - intros Hu Hv. rewrite windDirection_lookup by exact Hi.
    unfold windDirAt. fold u v. rewrite Hu, Hv. vm_compute. reflexivity.
Qed.

Lemma wind_direction_formula_witness :
  exists (w : spec_float) (qw : Q),
    windDirection (H0 := IEEE.host (fun _ _ => S754_nan)) 1
      [IEEE.of_Z 10] [IEEE.of_Z 0] !! Z.to_nat 0 = Some w
    /\ valueOf w = Some qw
    /\ (0 <= qw < 360)%Q.
Proof.
  destruct (wind_direction_formula (fun _ _ => S754_nan) 1
              [IEEE.of_Z 10] [IEEE.of_Z 0] 0 ltac:(lia)) as [Hrange _].
  cbn zeta in Hrange.
  match type of Hrange with
  | forall q, valueOf ?d = Some q -> _ =>
      eassert (Hd : valueOf d = Some _) by (vm_compute; reflexivity)
  end.
  destruct (Hrange _ Hd) as (w & qw & Hw & _ & Hqw & Hin).
  { right. split; vm_compute; discriminate. }
  exists w, qw. split; [exact Hw|]. split; [exact Hqw|exact Hin].
Defined.
